(** * RAG Q&A service: a shallow embedding and its verified properties

    The development follows the layout of the Python sources:

    - [Py]: the Python built-ins the services rely on (strings as lists of
      code points, slicing, [strip], [rsplit], truthiness, [min]);
    - [Exceptions], [Config]: [app/utils/exceptions.py], [app/config.py];
    - [DocumentService]: [app/services/document_service.py];
    - [RagService]: [app/services/rag_service.py];
    - [UrlDocumentService]: [app/services/url_document_service.py];
    - [Deps]: [app/api/deps.py];
    - [Documents], [Qa]: [app/api/endpoints/documents.py] and [qa.py].

    Python [float] values (similarity scores, wall-clock timestamps) are
    modelled as exact rationals [Q]; remote services (the embedding model, the
    chat model, the FAISS index scan, the text splitter) are fields of an
    environment record and every theorem quantifies over them. *)

From Stdlib Require Import ZArith QArith Qminmax Qround Lqa Lia String Ascii List.
From Stdlib Require Import Sorting.Sorted Permutation DecimalString.
From Stdlib Require Decimal DecimalZ.
From stdpp Require Import gmap strings list fin_maps.

Close Scope Q_scope.
Local Open Scope Z_scope.

(* ===================================================================== *)
(** ** Python built-ins *)
(* ===================================================================== *)

Module Py.

(** A Python [str] is a sequence of Unicode code points. *)
Abbreviation str := (list N).

(** A string literal of the source, read as code points. *)
Definition lit (s : string) : str :=
  List.map N_of_ascii (list_ascii_of_string s).

(** [len(s)] *)
Definition len {A} (l : list A) : Z := Z.of_nat (length l).

(** Truthiness of a sequence: [bool(s)] is [len(s) != 0]. *)
Definition truthy {A} (l : list A) : bool :=
  match l with [] => false | _ :: _ => true end.

(** [str.isspace] on one code point: the white-space table of CPython
    ([_PyUnicode_IsWhitespace]). *)
Definition isspace (c : N) : bool :=
  ((9 <=? c) && (c <=? 13) || (28 <=? c) && (c <=? 32)
   || (c =? 133) || (c =? 160) || (c =? 5760)
   || (8192 <=? c) && (c <=? 8202)
   || (c =? 8232) || (c =? 8233) || (c =? 8239) || (c =? 8287)
   || (c =? 12288))%N.

Fixpoint lstrip (s : str) : str :=
  match s with
  | [] => []
  | c :: s' => if isspace c then lstrip s' else s
  end.

Definition rstrip (s : str) : str := rev (lstrip (rev s)).

(** [s.strip()] *)
Definition strip (s : str) : str := rstrip (lstrip s).

(** Slice bound normalisation of [l[start:stop]] for a sequence of
    length [n]: a negative bound counts from the end, and every bound is
    clamped into [0, n]. *)
Definition norm_index (n i : Z) : Z :=
  if i <? 0 then Z.max 0 (i + n) else Z.min i n.

(** [l[start:stop]] *)
Definition slice {A} (l : list A) (start stop : Z) : list A :=
  let n := len l in
  let a := norm_index n start in
  let b := norm_index n stop in
  take (Z.to_nat (b - a)) (drop (Z.to_nat a) l).

(** [l[:stop]] *)
Definition slice_to {A} (l : list A) (stop : Z) : list A := slice l 0 stop.

(** The text before the last occurrence of [sep], if [sep] occurs. *)
Fixpoint before_last (sep : N) (s : str) : option str :=
  match s with
  | [] => None
  | c :: s' =>
      match before_last sep s' with
      | Some p => Some (c :: p)
      | None => if (c =? sep)%N then Some [] else None
      end
  end.

(** [s.rsplit(sep, 1)[0]] for a one-character separator: the part before
    the last separator, or the whole string when there is none. *)
Definition rsplit1_head (sep : N) (s : str) : str :=
  match before_last sep s with
  | Some p => p
  | None => s
  end.

Definition space : N := 32%N.

(** [sep.join(parts)] *)
Fixpoint join (sep : str) (parts : list str) : str :=
  match parts with
  | [] => []
  | [p] => p
  | p :: ps => p ++ sep ++ join sep ps
  end.

(** [s.encode('utf-8', errors='ignore').decode('utf-8')]: the encoder
    cannot encode a surrogate code point (U+D800..U+DFFF) and, asked to
    ignore errors, drops it; every other code point survives the round
    trip. *)
Definition is_surrogate (c : N) : bool := ((55296 <=? c) && (c <=? 57343))%N.

Definition utf8_ignore_roundtrip (s : str) : str :=
  List.filter (fun c => negb (is_surrogate c)) s.

(** [x < y] on floats. *)
Definition Qltb (x y : Q) : bool := negb (Qle_bool y x).

(** [min(a, b)]: the first argument unless the second is strictly
    smaller. *)
Definition fmin (a b : Q) : Q := if Qltb b a then b else a.

(** [x or d] for an optional integer: [None] and [0] are both falsy. *)
Definition int_or (x : option Z) (d : Z) : Z :=
  match x with
  | Some v => if v =? 0 then d else v
  | None => d
  end.

(** [x or d] for an optional float: [None] and [0.0] are both falsy. *)
Definition float_or (x : option Q) (d : Q) : Q :=
  match x with
  | Some v => if Qeq_bool v 0 then d else v
  | None => d
  end.

(** [x or d] for an optional string: [None] and [""] are both falsy. *)
Definition str_or (x : option str) (d : str) : str :=
  match x with
  | Some (c :: s) => c :: s
  | _ => d
  end.

(** [needle in hay] on strings. *)
Fixpoint startswith (s prefix : str) : bool :=
  match prefix, s with
  | [], _ => true
  | p :: prefix', c :: s' => (c =? p)%N && startswith s' prefix'
  | _ :: _, [] => false
  end.

Fixpoint contains (needle hay : str) : bool :=
  startswith hay needle ||
  match hay with
  | [] => false
  | _ :: hay' => contains needle hay'
  end.

(** The line feed of a Python string literal. *)
Definition newline : str := [10%N].

(** [range(start, stop)] *)
Definition range (start stop : Z) : list Z := seqZ start (stop - start).

End Py.

Import Py.

(* ===================================================================== *)
(** ** Exceptions ([app/utils/exceptions.py]) *)
(* ===================================================================== *)

Module Exceptions.

Inductive exn_class :=
| ValidationError
| EmbeddingError
| VectorStoreError
| GeminiAPIError
| DocumentProcessingError
| OtherException.

(** [str(e)] of every [RAGServiceError] is its message. *)
Record exn := Exn { exn_kind : exn_class; exn_message : str }.

Inductive result (A : Type) :=
| Ok (a : A)
| Raise (e : exn).
Arguments Ok {A} a.
Arguments Raise {A} e.

Definition is_ok {A} (r : result A) : bool :=
  match r with Ok _ => true | Raise _ => false end.

#[global] Instance exn_class_eq_dec : EqDecision exn_class.
Proof. solve_decision. Defined.

End Exceptions.

Import Exceptions.

(* ===================================================================== *)
(** ** Settings ([app/config.py]) *)
(* ===================================================================== *)

Module Config.

Record Settings := {
  vector_dimension : Z;
  similarity_threshold : Q;
  max_file_size : Z;
  chunk_size : Z;
  chunk_overlap : Z;
  supported_extensions : list str;
}.

(** The field defaults of [Settings]. *)
Definition default_settings : Settings := {|
  vector_dimension := 768;
  similarity_threshold := 8 # 10;
  max_file_size := 10485760;
  chunk_size := 1000;
  chunk_overlap := 200;
  supported_extensions := [lit ".pdf"; lit ".txt"; lit ".docx"; lit ".md"];
|}.

(** The range constraints pydantic enforces when [Settings] is built
    ([ge]/[le] of each [Field]). *)
Definition valid (s : Settings) : Prop :=
  1 <= vector_dimension s /\
  (0 <= similarity_threshold s)%Q /\ (similarity_threshold s <= 1)%Q /\
  1 <= max_file_size s /\ 1 <= chunk_size s /\ 0 <= chunk_overlap s.

End Config.

Import Config.

(* ===================================================================== *)
(** ** Document processing ([app/services/document_service.py]) *)
(* ===================================================================== *)

Module DocumentService.

Record DocumentChunk := {
  chunk_ident : str;
  chunk_document_id : str;
  chunk_content : str;
  chunk_start_index : Z;
  chunk_end_index : Z;
  chunk_metadata_of : list (str * str);
}.

Record ProcessedDocument := {
  doc_id : str;
  doc_filename : str;
  doc_content_type : str;
  doc_size : Z;
  doc_chunks : list DocumentChunk;
  doc_metadata : list (str * str);
}.

Section CreateChunks.

Variable settings : Settings.

(** [RecursiveCharacterTextSplitter(chunk_size, chunk_overlap,
    ...).split_text], the LangChain splitter. *)
Variable split_text : Z -> Z -> str -> list str.

Definition validation (msg : string) : exn :=
  Exn ValidationError (lit msg).

(** [DocumentProcessor.create_chunks] *)
Definition create_chunks (text : str) (chunk_size overlap : option Z)
  : result (list str) :=
  let chunk_size := int_or chunk_size (Config.chunk_size settings) in
  let overlap := int_or overlap (Config.chunk_overlap settings) in
  if chunk_size <=? 0 then
    Raise (validation "Chunk size must be positive")
  else if overlap <? 0 then
    Raise (validation "Overlap must be non-negative")
  else if overlap >=? chunk_size then
    Raise (validation "Overlap must be less than chunk size")
  else
    let text := strip text in
    if truthy text then Ok (split_text chunk_size overlap text)
    else Ok [].

End CreateChunks.

End DocumentService.

(* ===================================================================== *)
(** ** The RAG service ([app/services/rag_service.py]) *)
(* ===================================================================== *)

Module RagService.

Import DocumentService.

(** An embedding vector, i.e. one row of the flat index. The dimension
    checks of numpy and FAISS are not modelled: the embedding provider is
    taken to return vectors of the configured dimension. *)
Abbreviation vector := (list Q).

(** [SearchResult] *)
Record SearchResult := {
  document_id : str;
  chunk_id : str;
  content : str;
  score : Q;
  metadata : list (str * str);
}.

(** [AnswerResponse]; the answer id, the processing time and the token
    accounting are produced from the clock, the uuid generator and the
    provider response, and are left out. *)
Record AnswerResponse := {
  answer : str;
  question : str;
  sources : list SearchResult;
  confidence : Q;
}.

(** One value of the [chunk_metadata] dictionary. *)
Record ChunkMeta := {
  meta_chunk_id : str;
  meta_document_id : str;
  meta_content : str;
  meta_start_index : Z;
  meta_end_index : Z;
  meta_metadata : list (str * str);
  meta_added_timestamp : Q;
}.

(** The mutable fields of an initialised [RAGService]: the rows of the
    FAISS index and the two bookkeeping dictionaries. *)
Record State := {
  index : list vector;
  chunk_metadata : gmap Z ChunkMeta;
  document_chunks : gmap str (list Z);
}.

(** [self.index.ntotal] *)
Definition ntotal (st : State) : Z := len (index st).

(** [faiss.IndexFlatL2(dimension)] with empty dictionaries: the state
    [_load_index] builds when nothing was persisted. *)
Definition empty_state : State := {|
  index := [];
  chunk_metadata := ∅;
  document_chunks := ∅;
|}.

(** Everything the service obtains from outside the process. *)
Record Env := {
  settings : Settings;
  (** [GoogleGenerativeAIEmbeddings.aembed_documents] followed by the
      conversion to a float32 matrix *)
  aembed_documents : list str -> result (list vector);
  (** [GoogleGenerativeAIEmbeddings.aembed_query] *)
  aembed_query : str -> result vector;
  (** [index.search(query_vector, k)], as the pairs
      [zip(distances[0], indices[0])] *)
  index_search : list vector -> vector -> Z -> list (Q * Z);
  (** [ChatGoogleGenerativeAI.ainvoke([system, human])], as the content of
      the response *)
  ainvoke : str -> str -> result str;
  (** writing the index and the pickled dictionaries; [Some msg] is the
      message of the I/O error when the write fails *)
  write_store : State -> option str;
  (** [time.time()] *)
  clock : Q;
  (** [str.lower] *)
  lower : str -> str;
}.

Section Service.

Variable env : Env.

(** [_save_index] *)
Definition _save_index (st : State) : result unit :=
  match write_store env st with
  | Some msg =>
      Raise (Exn VectorStoreError (lit "Failed to save vector store: " ++ msg))
  | None => Ok tt
  end.

(** [_create_embeddings] *)
Definition _create_embeddings (texts : list str) : result (list vector) :=
  if negb (truthy texts) then Ok []
  else
    let truncated_texts := List.map (fun text => slice_to text 25000) texts in
    match aembed_documents env truncated_texts with
    | Ok embeddings_array => Ok embeddings_array
    | Raise e =>
        let low := lower env (exn_message e) in
        if contains (lit "rate limit") low then
          Raise (Exn EmbeddingError (lit "Google Gemini API rate limit exceeded"))
        else if contains (lit "context length") low then
          Raise (Exn EmbeddingError (lit "Text too long for embedding model"))
        else
          Raise (Exn EmbeddingError
                   (lit "Failed to create embeddings: " ++ exn_message e))
    end.

(** The slices [chunk_texts[i:i + batch_size]] for
    [i in range(0, len(chunk_texts), batch_size)], [batch_size > 0]. *)
Fixpoint batches_aux {A} (fuel n : nat) (l : list A) : list (list A) :=
  match fuel with
  | O => []
  | S fuel' =>
      match l with
      | [] => []
      | _ :: _ => take n l :: batches_aux fuel' n (drop n l)
      end
  end.

Definition batches {A} (n : nat) (l : list A) : list (list A) :=
  batches_aux (length l) n l.

(** The batch loop of [add_document]; [ntotal] is [self.index.ntotal],
    which does not change while the loop runs. *)
Fixpoint embed_loop (ntotal : Z) (todo : list (list str))
    (all_embeddings : list (list vector)) (chunk_indices : list Z)
  : result (list (list vector) * list Z) :=
  match todo with
  | [] => Ok (all_embeddings, chunk_indices)
  | batch_texts :: todo' =>
      match _create_embeddings batch_texts with
      | Raise e => Raise e
      | Ok batch_embeddings =>
          let start_idx := ntotal + len chunk_indices in
          embed_loop ntotal todo'
            (all_embeddings ++ [batch_embeddings])
            (chunk_indices ++ range start_idx (start_idx + len batch_texts))
      end
  end.

Definition meta_of_chunk (doc : ProcessedDocument) (chunk : DocumentChunk)
  : ChunkMeta := {|
  meta_chunk_id := chunk_ident chunk;
  meta_document_id := doc_id doc;
  meta_content := chunk_content chunk;
  meta_start_index := chunk_start_index chunk;
  meta_end_index := chunk_end_index chunk;
  meta_metadata := chunk_metadata_of chunk;
  meta_added_timestamp := clock env;
|}.

(** [for chunk, chunk_idx in zip(chunks, chunk_indices):
       self.chunk_metadata[chunk_idx] = {...}] *)
Fixpoint store_metadata (doc : ProcessedDocument)
    (chunks : list DocumentChunk) (chunk_indices : list Z)
    (m : gmap Z ChunkMeta) : gmap Z ChunkMeta :=
  match chunks, chunk_indices with
  | chunk :: chunks', chunk_idx :: chunk_indices' =>
      store_metadata doc chunks' chunk_indices'
        (<[chunk_idx := meta_of_chunk doc chunk]> m)
  | _, _ => m
  end.

(** [add_document]: the result and the state the service is left in. An
    exception leaves the mutations made before it in place. *)
Definition add_document (st : State) (processed_doc : ProcessedDocument)
    (batch_size : Z) : result str * State :=
  if negb (truthy (doc_chunks processed_doc)) then
    (Raise (Exn VectorStoreError (lit "Document has no chunks to add")), st)
  else if batch_size =? 0 then
    (* [range(0, n, 0)] raises ValueError, which the handler wraps *)
    (Raise (Exn VectorStoreError
              (lit "Failed to add document to vector store: "
               ++ lit "range() arg 3 must not be zero")), st)
  else
    let chunk_texts := List.map chunk_content (doc_chunks processed_doc) in
    let todo :=
      if batch_size <? 0 then []
      else batches (Z.to_nat batch_size) chunk_texts in
    match embed_loop (ntotal st) todo [] [] with
    | Raise e => (Raise e, st)
    | Ok (all_embeddings, chunk_indices) =>
        let embeddings := concat all_embeddings in
        let st' := {|
          index := index st ++ embeddings;
          chunk_metadata :=
            store_metadata processed_doc (doc_chunks processed_doc)
              chunk_indices (chunk_metadata st);
          document_chunks :=
            <[doc_id processed_doc := chunk_indices]> (document_chunks st);
        |} in
        match _save_index st' with
        | Raise e => (Raise e, st')
        | Ok _ => (Ok (doc_id processed_doc), st')
        end
    end.

(** One iteration of the result loop of [search_similar]: [None] when the
    hit is skipped by a [continue]. *)
Definition result_of_hit (st : State) (score_threshold : Q) (hit : Q * Z)
  : option SearchResult :=
  let '(distance, idx) := hit in
  if idx =? -1 then None
  else
    let similarity_score := (1 / (1 + distance))%Q in
    if Qltb similarity_score score_threshold then None
    else
      match chunk_metadata st !! idx with
      | None => None
      | Some chunk_meta =>
          Some {| document_id := meta_document_id chunk_meta;
                  chunk_id := meta_chunk_id chunk_meta;
                  content := meta_content chunk_meta;
                  score := similarity_score;
                  metadata := meta_metadata chunk_meta |}
      end.

(** [results.sort(key=lambda x: x.score, reverse=True)]: a stable sort,
    highest score first. *)
Fixpoint insert_desc (x : SearchResult) (l : list SearchResult)
  : list SearchResult :=
  match l with
  | [] => [x]
  | y :: l' =>
      if Qltb (score x) (score y) then y :: insert_desc x l'
      else x :: y :: l'
  end.

Fixpoint sort_desc (l : list SearchResult) : list SearchResult :=
  match l with
  | [] => []
  | x :: l' => insert_desc x (sort_desc l')
  end.

(** The order of the sorted list: highest score first. *)
Definition by_score_desc (a b : SearchResult) : Prop :=
  (score b <= score a)%Q.

(** The handler of [search_similar]: embedding and validation errors pass,
    anything else is wrapped. *)
Definition search_except (e : exn) : exn :=
  match exn_kind e with
  | EmbeddingError | ValidationError => e
  | _ => Exn VectorStoreError
           (lit "Failed to search vector store: " ++ exn_message e)
  end.

(** [search_similar] *)
Definition search_similar (st : State) (query : str) (k : Z)
    (score_threshold : option Q) : result (list SearchResult) :=
  if negb (truthy (strip query)) then
    Raise (search_except (Exn ValidationError (lit "Query cannot be empty")))
  else if k <=? 0 then
    Raise (search_except (Exn ValidationError (lit "k must be positive")))
  else if ntotal st =? 0 then Ok []
  else
    match aembed_query env query with
    | Raise e => Raise (search_except e)
    | Ok query_embedding =>
        if negb (truthy query_embedding) then Ok []
        else
          let search_k := Z.min k (ntotal st) in
          let hits := index_search env (index st) query_embedding search_k in
          let score_threshold :=
            float_or score_threshold (similarity_threshold (settings env)) in
          Ok (sort_desc (omap (result_of_hit st score_threshold) hits))
    end.

(** The context loop of [answer_question], from one position of
    [search_results] on, with the three accumulators of the source. *)
Fixpoint build_context (context_limit : Z) (search_results : list SearchResult)
    (context_parts : list str) (total_length : Z)
    (used_sources : list SearchResult) : list str * list SearchResult :=
  match search_results with
  | [] => (context_parts, used_sources)
  | result :: rest =>
      let content_length := len (content result) in
      if total_length + content_length >? context_limit then
        let remaining_space := context_limit - total_length in
        if remaining_space >? 100 then
          let partial_content :=
            rsplit1_head space (slice_to (content result) remaining_space) in
          (context_parts ++ [lit "Source: " ++ partial_content ++ lit "..."],
           used_sources)
        else (context_parts, used_sources)
      else
        build_context context_limit rest
          (context_parts ++ [lit "Source: " ++ content result])
          (total_length + content_length)
          (used_sources ++ [result])
  end.

(** The characters the contents of a list of results add up to. *)
Definition content_total (results : list SearchResult) : Z :=
  foldr (fun result acc => len (content result) + acc) 0 results.

(** The context part of a result used in full, and of a result cut to
    [remaining_space] characters. *)
Definition full_part (result : SearchResult) : str :=
  lit "Source: " ++ content result.

Definition partial_part (remaining_space : Z) (result : SearchResult) : str :=
  lit "Source: "
  ++ rsplit1_head space (slice_to (content result) remaining_space)
  ++ lit "...".

(** The separator of the context parts: the source spells it with escaped
    backslashes, so it is the four characters backslash, n, backslash, n. *)
Definition context_separator : str := lit "\n\n".

(** [_create_qa_prompt] *)
Definition _create_qa_prompt (question context : str) : str :=
  if negb (truthy (strip context)) then
    lit "Question: " ++ question
    ++ lit "\n\nNo relevant context found. Please answer based on general knowledge or indicate if you cannot answer."
  else
    lit "Context information:" ++ newline ++ context ++ newline ++ newline
    ++ lit "Question: " ++ question ++ newline ++ newline
    ++ lit "Please answer the question based on the context provided above. If the context doesn't contain enough information to fully answer the question, please state that clearly and provide what information you can from the context.".

Definition system_message : str :=
  lit "You are a helpful assistant that answers questions based on the provided context. If the context doesn't contain enough information to answer the question, say so clearly. Always base your answer on the provided sources.".

(** [_calculate_confidence] *)
Definition _calculate_confidence (sources : list SearchResult) : Q :=
  match sources with
  | [] => 0%Q
  | top :: _ =>
      let top_score := score top in
      let source_count_factor :=
        fmin (inject_Z (len sources) / 3) 1 in
      let confidence :=
        (top_score * (7 # 10) + source_count_factor * (3 # 10))%Q in
      fmin confidence 1
  end.

(** The handler of [answer_question]. *)
Definition answer_except (e : exn) : exn :=
  match exn_kind e with
  | ValidationError | VectorStoreError | EmbeddingError => e
  | _ =>
      if contains (lit "rate limit") (lower env (exn_message e)) then
        Exn GeminiAPIError (lit "Google Gemini API rate limit exceeded")
      else
        Exn GeminiAPIError (lit "Failed to generate answer: " ++ exn_message e)
  end.

(** [answer_question]; [temperature] and [max_tokens] only reconfigure the
    chat model and are not parameters of the model oracle. *)
Definition answer_question (st : State) (question : str)
    (context_limit max_results : Z) : result AnswerResponse :=
  if negb (truthy (strip question)) then
    Raise (answer_except
             (Exn ValidationError (lit "Question cannot be empty")))
  else
    match search_similar st question max_results None with
    | Raise e => Raise (answer_except e)
    | Ok search_results =>
        let '(context_parts, used_sources) :=
          build_context context_limit search_results [] 0 [] in
        let context := join context_separator context_parts in
        let prompt := _create_qa_prompt question context in
        match ainvoke env system_message prompt with
        | Raise e => Raise (answer_except e)
        | Ok response_content =>
            let confidence :=
              if truthy used_sources then _calculate_confidence used_sources
              else 0%Q in
            Ok {| answer := response_content;
                  question := question;
                  sources := used_sources;
                  confidence := confidence |}
        end
    end.

(** [for idx in chunk_indices: self.chunk_metadata.pop(idx, None)] *)
Definition pop_all (chunk_indices : list Z) (m : gmap Z ChunkMeta)
  : gmap Z ChunkMeta :=
  foldl (fun m idx => delete idx m) m chunk_indices.

(** [delete_document]: the result and the state the service is left in. *)
Definition delete_document (st : State) (document_id : str)
  : result bool * State :=
  match document_chunks st !! document_id with
  | None => (Ok false, st)
  | Some chunk_indices =>
      let st' := {|
        index := index st;
        chunk_metadata := pop_all chunk_indices (chunk_metadata st);
        document_chunks := delete document_id (document_chunks st);
      |} in
      match _save_index st' with
      | Raise e =>
          (Raise (Exn VectorStoreError
                    (lit "Failed to delete document: " ++ exn_message e)), st')
      | Ok _ => (Ok true, st')
      end
  end.

End Service.

(** The rows [add_document] records for a document: none for a negative
    batch size, for which the batch loop does not run. *)
Definition assigned_rows (st : State) (doc : ProcessedDocument)
    (batch_size : Z) : list Z :=
  if batch_size <? 0 then []
  else range (ntotal st) (ntotal st + len (doc_chunks doc)).

(** One mutating call of the service, with the environment it meets. *)
Inductive op :=
| AddDocument (env : Env) (processed_doc : ProcessedDocument) (batch_size : Z)
| DeleteDocument (env : Env) (document_id : str).

Definition op_env (o : op) : Env :=
  match o with
  | AddDocument env _ _ => env
  | DeleteDocument env _ => env
  end.

(** The state a call leaves, whether it returns or raises. *)
Definition step (st : State) (o : op) : State :=
  match o with
  | AddDocument env processed_doc batch_size =>
      snd (add_document env st processed_doc batch_size)
  | DeleteDocument env document_id =>
      snd (delete_document env st document_id)
  end.

(** The state after a sequence of calls on a fresh service. *)
Definition run (ops : list op) : State := foldl step empty_state ops.

(** The contract of the embedding provider: one vector per text. *)
Definition row_per_text (env : Env) : Prop :=
  forall texts rows,
    aembed_documents env texts = Ok rows -> length rows = length texts.

(** The bookkeeping invariant of the two dictionaries and the index. *)
Record consistent (st : State) : Prop := {
  rows_have_metadata :
    forall id rows idx,
      document_chunks st !! id = Some rows -> idx ∈ rows ->
      is_Some (chunk_metadata st !! idx);
  rows_below_ntotal :
    forall id rows idx,
      document_chunks st !! id = Some rows -> idx ∈ rows ->
      0 <= idx /\ idx + 1 <= ntotal st;
  rows_not_shared :
    forall id1 id2 rows1 rows2 idx,
      id1 <> id2 ->
      document_chunks st !! id1 = Some rows1 ->
      document_chunks st !! id2 = Some rows2 ->
      idx ∈ rows1 -> idx ∉ rows2;
}.

End RagService.

(* ===================================================================== *)
(** ** Answering from a URL ([app/services/url_document_service.py]) *)
(* ===================================================================== *)

Module UrlDocumentService.

Import DocumentService RagService.

(** What the URL service obtains from outside, besides the RAG
    environment. *)
Record UrlEnv := {
  rag_env : Env;
  (** [download_document(url)]: temp path, content type and byte size *)
  download_document : str -> result (str * str * Z);
  (** [DocumentProcessor.process_file(temp_path)] *)
  process_file : str -> result ProcessedDocument;
  (** the text of the oversize message, built from the byte size and the
      configured maximum with Python's number formatting *)
  too_large_message : Z -> Z -> str;
}.

Section Service.

Variable uenv : UrlEnv.

Definition fallback_answer : str :=
  lit "I could not find sufficient information to answer this question.".

(** The body of the [try] of the question loop, once the answer is there. *)
Definition clean (answer_text : str) : str :=
  let clean_answer := utf8_ignore_roundtrip answer_text in
  let clean_answer := strip clean_answer in
  if negb (truthy clean_answer) then fallback_answer else clean_answer.

(** One iteration of the question loop: the string appended to
    [answers]. *)
Definition answer_slot (st : State) (question : str) : str :=
  match answer_question (rag_env uenv) st question 4000 5 with
  | Ok result => clean (answer result)
  | Raise e => lit "Error processing question: " ++ exn_message e
  end.

(** [for i, question in enumerate(questions, 1): ...] *)
Fixpoint answer_loop (st : State) (questions : list str) (answers : list str)
  : list str :=
  match questions with
  | [] => answers
  | question :: questions' =>
      answer_loop st questions' (answers ++ [answer_slot st question])
  end.

(** The outer handler: every exception becomes a document-processing
    error. *)
Definition process_except (e : exn) : exn :=
  Exn DocumentProcessingError
    (lit "Failed to process document: " ++ exn_message e).

(** [process_and_answer_questions], from an initialised RAG service; the
    read of the temp file, whose result is not used, and the removal of the
    temp file are left out. *)
Definition process_and_answer_questions (st : State) (url : str)
    (questions : list str) : result (list str) * State :=
  match download_document uenv url with
  | Raise e => (Raise (process_except e), st)
  | Ok (temp_path, content_type, file_size) =>
      let max_size := max_file_size (settings (rag_env uenv)) in
      if file_size >? max_size then
        (Raise (process_except
                  (Exn DocumentProcessingError
                     (too_large_message uenv file_size max_size))), st)
      else
        match process_file uenv temp_path with
        | Raise e => (Raise (process_except e), st)
        | Ok processed_document =>
            match add_document (rag_env uenv) st processed_document 50 with
            | (Raise e, st') => (Raise (process_except e), st')
            | (Ok _, st') => (Ok (answer_loop st' questions []), st')
            end
        end
  end.

End Service.

End UrlDocumentService.

(* ===================================================================== *)
(** ** API dependencies ([app/api/deps.py]) *)
(* ===================================================================== *)

Module Deps.

(** [fastapi.HTTPException] *)
Record HTTPException := {
  status_code : Z;
  detail : str;
  headers : list (str * str);
}.

Inductive http_result (A : Type) :=
| Response (a : A)
| HTTPError (e : HTTPException).
Arguments Response {A} a.
Arguments HTTPError {A} e.

(** [str(n)] for an integer. *)
Definition str_of_int (n : Z) : str :=
  lit (DecimalString.NilZero.string_of_int (Z.to_int n)).

(** [HTTPAuthorizationCredentials] *)
Record Credentials := {
  scheme : str;
  credentials : str;
}.

(** [get_current_user]: a credentials object is always truthy. *)
Definition get_current_user (creds : option Credentials) : option str :=
  match creds with
  | Some _ => Some (lit "default_user")
  | None => None
  end.

(** The attributes of [UploadFile] the validation reads. *)
Record UploadFile := {
  filename : option str;
  size : option Z;
  content_type : option str;
}.

(** [p.rfind(c)]: the index of the last occurrence, or [-1]. *)
Fixpoint rfind_from (c : N) (s : str) (i acc : Z) : Z :=
  match s with
  | [] => acc
  | x :: s' => rfind_from c s' (i + 1) (if (x =? c)%N then i else acc)
  end.

Definition rfind (c : N) (s : str) : Z := rfind_from c s 0 (-1).

Definition slash : N := 47%N.
Definition dot : N := 46%N.

(** [os.path.splitext(p)] (posixpath): the extension starts at the last
    dot of the last path component, leading dots of that component
    excepted. *)
Definition splitext (p : str) : str * str :=
  let sepIndex := rfind slash p in
  let dotIndex := rfind dot p in
  if dotIndex >? sepIndex then
    let filenameIndex := sepIndex + 1 in
    if existsb (fun c => negb (c =? dot)%N) (slice p filenameIndex dotIndex)
    then (slice_to p dotIndex, drop (Z.to_nat dotIndex) p)
    else (p, [])
  else (p, []).

Record DepsEnv := {
  settings : Settings;
  (** [str.lower] *)
  lower : str -> str;
  (** the formatting of a float inside an f-string *)
  format_float : Q -> str;
}.

Section Validation.

Variable env : DepsEnv.

Definition bad_request (msg : str) : HTTPException :=
  {| status_code := 400; detail := msg; headers := [] |}.

(** [validate_file_upload] *)
Definition validate_file_upload (file : option UploadFile)
  : http_result UploadFile :=
  match file with
  | None => HTTPError (bad_request (lit "No file provided"))
  | Some f =>
      match filename f with
      | None | Some [] => HTTPError (bad_request (lit "No file provided"))
      | Some name =>
          let file_extension := lower env (snd (splitext name)) in
          if negb (bool_decide (file_extension ∈ supported_extensions (settings env)))
          then
            HTTPError (bad_request
              (lit "Unsupported file type: " ++ file_extension
               ++ lit ". Supported types: "
               ++ join (lit ", ") (supported_extensions (settings env))))
          else
            match size f with
            | Some sz =>
                if negb (sz =? 0) && (sz >? max_file_size (settings env)) then
                  let max_size_mb :=
                    (inject_Z (max_file_size (settings env))
                     / inject_Z (1024 * 1024))%Q in
                  HTTPError {|
                    status_code := 413;
                    detail := lit "File too large. Maximum size: "
                              ++ format_float env max_size_mb ++ lit "MB";
                    headers := [] |}
                else Response f
            | None => Response f
            end
      end
  end.

End Validation.

(** [RateLimitDependency]: the two constructor arguments. *)
Record RateLimitDependency := {
  max_requests : Z;
  window_seconds : Z;
}.

Section RateLimit.

Variable self : RateLimitDependency.

(** [ts > current_time - self.window_seconds] *)
Definition in_window (current_time ts : Q) : bool :=
  Qltb (current_time - inject_Z (window_seconds self))%Q ts.

(** The dictionary comprehension that drops every identifier without a
    timestamp in the window. *)
Definition clean_old (current_time : Q) (request_history : gmap str (list Q))
  : gmap str (list Q) :=
  filter (fun kv => existsb (in_window current_time) (snd kv) = true)
    request_history.

Definition too_many_requests : HTTPException := {|
  status_code := 429;
  detail := lit "Rate limit exceeded. Maximum "
            ++ str_of_int (max_requests self) ++ lit " requests per "
            ++ str_of_int (window_seconds self) ++ lit " seconds.";
  headers := [(lit "Retry-After", str_of_int (window_seconds self))];
|}.

(** [RateLimitDependency.__call__] at clock reading [current_time]: the
    outcome and the [request_history] the limiter is left with. *)
Definition rate_limit_call (request_history : gmap str (list Q))
    (user : option str) (current_time : Q)
  : http_result unit * gmap str (list Q) :=
  let identifier := str_or user (lit "anonymous") in
  let request_history := clean_old current_time request_history in
  let user_requests := default [] (request_history !! identifier) in
  let recent_requests := List.filter (in_window current_time) user_requests in
  if len recent_requests >=? max_requests self then
    (HTTPError too_many_requests, request_history)
  else
    (Response tt,
     <[identifier := recent_requests ++ [current_time]]> request_history).

(** The histories a limiter can hold: it is created empty and only
    [__call__] assigns [request_history]. *)
Inductive reachable : gmap str (list Q) -> Prop :=
| reachable_empty : reachable ∅
| reachable_call request_history user current_time :
    reachable request_history ->
    reachable (snd (rate_limit_call request_history user current_time)).

End RateLimit.

(** The two limiters the module instantiates. *)
Definition upload_rate_limit : RateLimitDependency :=
  {| max_requests := 5; window_seconds := 300 |}.

End Deps.

(* ===================================================================== *)
(** ** Document endpoints ([app/api/endpoints/documents.py]) *)
(* ===================================================================== *)

Module Documents.

Import Deps.

(** [DocumentUploadResponse], without the time stamp. *)
Record DocumentUploadResponse := {
  up_document_id : str;
  up_filename : str;
  up_size : option Z;
  up_status : str;
}.

(** What the upload handler does to the file system and the task queue. *)
Inductive event :=
| TempFileSaved (path : str)
| TempFileCleaned (path : str)
| BackgroundTaskScheduled (document_id path : str).

Record UploadEnv := {
  deps_env : DepsEnv;
  (** [save_upload_file]: the temp path, or the 500 it raises *)
  save_upload_file : UploadFile -> http_result str;
  (** [json.loads]: [None] stands for [JSONDecodeError] *)
  json_loads : str -> option (list (str * str));
  (** the synthesised id, from the clock and the hash of the file name *)
  new_document_id : option str -> str;
}.

Section Upload.

Variable env : UploadEnv.
Variable limiter : RateLimitDependency.

(** The body of [upload_document], after the dependencies were resolved:
    the response and the events, in order. *)
Definition upload_document (file : option UploadFile) (metadata : option str)
  : http_result DocumentUploadResponse * list event :=
  match validate_file_upload (deps_env env) file with
  | HTTPError e => (HTTPError e, [])
  | Response validated_file =>
      match save_upload_file env validated_file with
      | HTTPError e => (HTTPError e, [])
      | Response temp_file_path =>
          let parsed :=
            match metadata with
            | Some (c :: m) => json_loads env (c :: m)
            | _ => Some []
            end in
          match parsed with
          | None =>
              (HTTPError (bad_request (lit "Invalid JSON in metadata field")),
               [TempFileSaved temp_file_path; TempFileCleaned temp_file_path])
          | Some additional_metadata =>
              let document_id := new_document_id env (filename validated_file) in
              (Response {| up_document_id := document_id;
                           up_filename := default [] (filename validated_file);
                           up_size := size validated_file;
                           up_status := lit "processing" |},
               [TempFileSaved temp_file_path;
                BackgroundTaskScheduled document_id temp_file_path])
          end
      end
  end.

(** [POST /documents/upload]: FastAPI resolves the dependencies
    ([get_current_user], then the upload rate limiter) before it runs the
    handler. *)
Definition post_upload (request_history : gmap str (list Q))
    (creds : option Credentials) (current_time : Q)
    (file : option UploadFile) (metadata : option str)
  : (http_result DocumentUploadResponse * list event) * gmap str (list Q) :=
  let current_user := get_current_user creds in
  match rate_limit_call limiter request_history current_user current_time with
  | (HTTPError e, request_history') => ((HTTPError e, []), request_history')
  | (Response _, request_history') =>
      (upload_document file metadata, request_history')
  end.

End Upload.

End Documents.

(* ===================================================================== *)
(** ** Question-answering endpoints ([app/api/endpoints/qa.py]) *)
(* ===================================================================== *)

Module Qa.

Import Deps.

(** One entry of a session's message list. *)
Record Message := {
  msg_id : str;
  msg_role : str;
  msg_content : str;
}.

(** One value of the [chat_sessions] dictionary; [session_user] is
    [session.get("user")]. *)
Record Session := {
  session_messages : list Message;
  session_created_at : str;
  session_user : option str;
}.

(** [HistoryResponse], without the time stamp. *)
Record HistoryResponse := {
  hist_session_id : str;
  hist_messages : list Message;
  hist_total_messages : Z;
}.

(** The body returned by [delete_chat_session], without the time stamp. *)
Record DeletionBody := {
  del_session_id : str;
  del_messages_deleted : Z;
}.

Definition not_found (session_id : str) : HTTPException := {|
  status_code := 404;
  detail := lit "Chat session not found: " ++ session_id;
  headers := [] |}.

Definition access_denied : HTTPException := {|
  status_code := 403;
  detail := lit "Access denied to this chat session";
  headers := [] |}.

(** [current_user and session.get("user") != current_user] *)
Definition owner_mismatch (current_user : option str) (session : Session)
  : bool :=
  match current_user with
  | Some (c :: u) => negb (bool_decide (session_user session = Some (c :: u)))
  | _ => false
  end.

(** [get_conversation_history] *)
Definition get_conversation_history (chat_sessions : gmap str Session)
    (session_id : str) (limit offset : Z) (current_user : option str)
  : http_result HistoryResponse :=
  match chat_sessions !! session_id with
  | None => HTTPError (not_found session_id)
  | Some session =>
      if owner_mismatch current_user session then HTTPError access_denied
      else
        let messages := session_messages session in
        let total_messages := len messages in
        let paginated_messages := slice messages offset (offset + limit) in
        Response {| hist_session_id := session_id;
                    hist_messages := paginated_messages;
                    hist_total_messages := total_messages |}
  end.

(** [delete_chat_session]: the response and the [chat_sessions] left. *)
Definition delete_chat_session (chat_sessions : gmap str Session)
    (session_id : str) (current_user : option str)
  : http_result DeletionBody * gmap str Session :=
  match chat_sessions !! session_id with
  | None => (HTTPError (not_found session_id), chat_sessions)
  | Some session =>
      if owner_mismatch current_user session then
        (HTTPError access_denied, chat_sessions)
      else
        let message_count := len (session_messages session) in
        (Response {| del_session_id := session_id;
                     del_messages_deleted := message_count |},
         delete session_id chat_sessions)
  end.

(** [GET /qa/history/{session_id}] and [DELETE /qa/sessions/{session_id}]
    as a client reaches them: the identity is what [get_current_user] makes
    of the bearer credential. *)
Definition get_history_request (chat_sessions : gmap str Session)
    (creds : option Credentials) (session_id : str) (limit offset : Z)
  : http_result HistoryResponse :=
  get_conversation_history chat_sessions session_id limit offset
    (get_current_user creds).

Definition delete_session_request (chat_sessions : gmap str Session)
    (creds : option Credentials) (session_id : str)
  : http_result DeletionBody * gmap str Session :=
  delete_chat_session chat_sessions session_id (get_current_user creds).

End Qa.

(* ===================================================================== *)
(** ** Concrete environments used to run the model *)
(* ===================================================================== *)

Module Fixtures.

Import DocumentService RagService UrlDocumentService Deps Documents Qa.

(** Lower-casing of the ASCII letters. *)
Definition ascii_lower (s : str) : str :=
  List.map (fun c => if ((65 <=? c) && (c <=? 90))%N then (c + 32)%N else c) s.

(** Formatting of a whole number of megabytes, as in [10.0]. *)
Definition format_whole (q : Q) : str :=
  str_of_int (Qfloor q) ++ lit ".0".

Definition deps_env0 : DepsEnv := {|
  Deps.settings := default_settings;
  Deps.lower := ascii_lower;
  format_float := format_whole;
|}.

Definition upload_env0 : UploadEnv := {|
  deps_env := deps_env0;
  save_upload_file := fun f => Response (lit "/tmp/upload_0001.pdf");
  json_loads := fun _ => Some [];
  new_document_id := fun _ => lit "doc_20240101_000000_0042";
|}.

(** A PDF one byte above the default limit of 10 MiB. *)
Definition big_pdf : UploadFile := {|
  filename := Some (lit "report.PDF");
  size := Some 10485761;
  content_type := Some (lit "application/pdf");
|}.

Definition message (i role text : string) : Message :=
  {| msg_id := lit i; msg_role := lit role; msg_content := lit text |}.

(** A session recorded under the owner [alice]. *)
Definition alice_session : Session := {|
  session_messages :=
    [message "m1" "user" "Hello"; message "m2" "assistant" "Hi there!"];
  session_created_at := lit "2024-01-01T00:00:00";
  session_user := Some (lit "alice");
|}.

Definition sessions0 : gmap str Session :=
  {[ lit "session_123" := alice_session ]}.

(** A RAG environment whose index scan returns the first [k] of the given
    hits, whose chat model gives the given reply, and whose embedding
    provider and store never fail. *)
Definition rag_env (hits : list (Q * Z)) (reply : result str) : Env := {|
  RagService.settings := default_settings;
  aembed_documents := fun texts => Ok (List.map (fun _ => [1%Q]) texts);
  aembed_query := fun _ => Ok [1%Q];
  index_search := fun _ _ k => take (Z.to_nat k) hits;
  ainvoke := fun _ _ => reply;
  write_store := fun _ => None;
  clock := 0%Q;
  RagService.lower := ascii_lower;
|}.

Definition env0 : Env := rag_env [] (Ok (lit "An answer.")).

Definition chunk (doc i : string) (text : str) : DocumentChunk := {|
  chunk_ident := lit i;
  chunk_document_id := lit doc;
  chunk_content := text;
  chunk_start_index := 0;
  chunk_end_index := len text;
  chunk_metadata_of := [];
|}.

Definition document (doc : string) (chunks : list DocumentChunk)
  : ProcessedDocument := {|
  doc_id := lit doc;
  doc_filename := lit "notes.txt";
  doc_content_type := lit "text/plain";
  doc_size := 64;
  doc_chunks := chunks;
  doc_metadata := [];
|}.

(** A document of three chunks and a document of one chunk. *)
Definition doc_a : ProcessedDocument :=
  document "doc-a"
    [chunk "doc-a" "a0" (lit "alpha"); chunk "doc-a" "a1" (lit "beta");
     chunk "doc-a" "a2" (lit "gamma")].

Definition doc_b : ProcessedDocument :=
  document "doc-b" [chunk "doc-b" "b0" (lit "delta")].

(** The store after [doc_a] and then [doc_b] were added. *)
Definition two_docs : State :=
  run [AddDocument env0 doc_a 50; AddDocument env0 doc_b 50].

(** The store after [doc_b] was deleted again: row 3 is still in the index
    but has no metadata. *)
Definition after_delete : State :=
  run [AddDocument env0 doc_a 50; AddDocument env0 doc_b 50;
       DeleteDocument env0 (lit "doc-b")].

(** An index scan over [after_delete]: row 0 at distance 0.25, row 1 too
    far for the default threshold, the deleted row 3, and row 2 at
    distance 0.1. *)
Definition scan : list (Q * Z) :=
  [((1 # 4)%Q, 0); (1%Q, 1); (0%Q, 3); ((1 # 10)%Q, 2)].

Definition env_scan : Env := rag_env scan (Ok (lit "An answer.")).

(** An index scan with the scores 0.9, 0.85 and 0.8 for the rows 0, 1
    and 2. *)
Definition scan3 : list (Q * Z) :=
  [((1 # 9)%Q, 0); ((3 # 17)%Q, 1); ((1 # 4)%Q, 2)].

Definition env_scan3 : Env := rag_env scan3 (Ok (lit "An answer.")).

(** A store with a short chunk (row 0) and a chunk of 240 characters
    (row 1), and an environment whose scan returns both and whose chat
    model echoes its prompt. *)
Definition long_text : str := mjoin (replicate 40 (lit "lorem ")).

Definition doc_long : ProcessedDocument :=
  document "doc-l"
    [chunk "doc-l" "l0" (lit "A short first chunk.");
     chunk "doc-l" "l1" long_text].

Definition env_echo : Env := {|
  RagService.settings := default_settings;
  aembed_documents := fun texts => Ok (List.map (fun _ => [1%Q]) texts);
  aembed_query := fun _ => Ok [1%Q];
  index_search := fun _ _ _ => [(0%Q, 0); ((1 # 10)%Q, 1)];
  ainvoke := fun _ prompt => Ok prompt;
  write_store := fun _ => None;
  clock := 0%Q;
  RagService.lower := ascii_lower;
|}.

Definition long_store : State := run [AddDocument env_echo doc_long 50].

(** The two results the scan of [long_store] gives. *)
Definition short_result : SearchResult := {|
  document_id := lit "doc-l";
  chunk_id := lit "l0";
  content := lit "A short first chunk.";
  score := (1 / (1 + 0))%Q;
  metadata := [];
|}.

Definition long_result : SearchResult := {|
  document_id := lit "doc-l";
  chunk_id := lit "l1";
  content := long_text;
  score := (1 / (1 + (1 # 10)))%Q;
  metadata := [];
|}.

(** A URL service whose download and document processing succeed and
    whose chat model replies with a lone surrogate and a blank. *)
Definition url_env0 : UrlEnv := {|
  UrlDocumentService.rag_env := rag_env [] (Ok [55296%N; 32%N]);
  download_document :=
    fun _ => Ok (lit "/tmp/tmp0001.txt", lit "text/plain", 64);
  process_file := fun _ => Ok doc_a;
  too_large_message := fun _ _ => lit "File too large";
|}.

(** A limiter of two requests per minute, and its history after the
    anonymous identity was admitted at seconds 0 and 1. *)
Definition limiter2 : RateLimitDependency :=
  {| max_requests := 2; window_seconds := 60 |}.

Definition history2 : gmap str (list Q) :=
  snd (rate_limit_call limiter2
         (snd (rate_limit_call limiter2 ∅ None 0%Q)) None 1%Q).

End Fixtures.

(* ===================================================================== *)
(** ** Statistics and well-formedness of the vector store *)
(* ===================================================================== *)

Module RagStatistics.

Import DocumentService RagService.

(** The dictionary [get_stats] returns on its regular path. *)
Record Stats := {
  total_documents : Z;
  total_chunks : Z;
  vector_store_size : Z;
  stats_vector_dimension : Z;
  last_updated : Q;
}.

(** [get_stats], on an initialised service. *)
Definition get_stats (env : Env) (st : State) : Stats := {|
  total_documents := Z.of_nat (size (document_chunks st));
  total_chunks := Z.of_nat (size (chunk_metadata st));
  vector_store_size := ntotal st;
  stats_vector_dimension := vector_dimension (settings env);
  last_updated := clock env;
|}.

(** What every store reached from the empty one satisfies, besides
    [consistent]: metadata is only kept for rows of the index, and no
    document lists a row twice. *)
Record well_formed (st : State) : Prop := {
  wf_consistent : consistent st;
  wf_metadata_rows :
    forall idx, is_Some (chunk_metadata st !! idx) ->
                0 <= idx /\ idx < ntotal st;
  wf_rows_nodup :
    forall id rows, document_chunks st !! id = Some rows -> NoDup rows;
}.

End RagStatistics.

(* ===================================================================== *)
(** ** More concrete environments *)
(* ===================================================================== *)

Module Fixtures2.

Import DocumentService RagService RagStatistics Fixtures.

(** An environment whose embedding provider is out of quota. *)
Definition env_quota : Env := {|
  RagService.settings := default_settings;
  aembed_documents :=
    fun _ => Raise (Exn OtherException (lit "429 Rate Limit reached"));
  aembed_query :=
    fun _ => Raise (Exn OtherException (lit "429 Rate Limit reached"));
  index_search := fun _ _ _ => [];
  ainvoke := fun _ _ => Raise (Exn OtherException (lit "connection reset"));
  write_store := fun _ => None;
  clock := 0%Q;
  RagService.lower := ascii_lower;
|}.

(** [doc_a] uploaded a second time, with one chunk. *)
Definition doc_a_again : ProcessedDocument :=
  document "doc-a" [chunk "doc-a" "a0" (lit "alpha, revised")].

(** An index scan that returns the four rows of [two_docs], nearest
    first. *)
Definition scan_all : list (Q * Z) :=
  [(0%Q, 0); ((1 # 100)%Q, 1); ((1 # 50)%Q, 2); ((1 # 20)%Q, 3)].

Definition env_scan_all : Env := rag_env scan_all (Ok (lit "An answer.")).

End Fixtures2.

(* ===================================================================== *)
(** ** The ask endpoint ([app/api/endpoints/qa.py]) *)
(* ===================================================================== *)

Module QaAsk.

Import RagService Deps.






End QaAsk.

(* ===================================================================== *)
(** ** A limiter serving a sequence of calls *)
(* ===================================================================== *)

Module RateLimitLog.

Import Deps.

(** One served call: the identifier it was counted under, its clock
    reading, and whether it was admitted. *)
Record entry := {
  entry_identifier : str;
  entry_time : Q;
  entry_admitted : bool;
}.

Definition admitted {A} (r : http_result A) : bool :=
  match r with Response _ => true | HTTPError _ => false end.

(** The log of a limiter that serves the calls one after the other. *)
Fixpoint serve (self : RateLimitDependency)
    (request_history : gmap str (list Q)) (calls : list (option str * Q))
  : list entry :=
  match calls with
  | [] => []
  | (user, current_time) :: calls' =>
      let out := rate_limit_call self request_history user current_time in
      {| entry_identifier := str_or user (lit "anonymous");
         entry_time := current_time;
         entry_admitted := admitted (fst out) |}
      :: serve self (snd out) calls'
  end.

(** The clock readings of the admitted calls of one identifier. *)
Definition admitted_times (log : list entry) (identifier : str) : list Q :=
  omap (fun e =>
          if entry_admitted e && bool_decide (entry_identifier e = identifier)
          then Some (entry_time e) else None) log.

(** The stored lists agree, on every window from [now] on, with the
    admitted calls of the log. *)
Definition log_agrees (self : RateLimitDependency)
    (h : gmap str (list Q)) (past : list entry) (now : Q) : Prop :=
  forall id t,
    (now <= t)%Q ->
    List.filter (in_window self t) (default [] (h !! id))
    = List.filter (in_window self t) (admitted_times past id).

(** The calls come with a clock that does not run backwards. *)
Definition clock_monotone (calls : list (option str * Q)) : Prop :=
  StronglySorted (fun a b => (snd a <= snd b)%Q) calls.

End RateLimitLog.

(* ===================================================================== *)
(** ** Locating the chunks of a processed file
       ([DocumentProcessor.process_file]) *)
(* ===================================================================== *)

Module ProcessFile.

Import DocumentService Deps.

(** The lowest offset, counted from [i], at which [sub] starts in [s],
    or [-1]. *)
Fixpoint find_from (s sub : str) (i : Z) : Z :=
  if startswith s sub then i
  else
    match s with
    | [] => -1
    | _ :: s' => find_from s' sub (i + 1)
    end.

(** [s.find(sub, start)]: a start beyond the end finds nothing, a
    negative start counts from the end. *)
Definition find (s sub : str) (start : Z) : Z :=
  let start := if start <? 0 then Z.max 0 (start + len s) else start in
  if start >? len s then -1
  else find_from (drop (Z.to_nat start) s) sub start.

(** The [DocumentChunk] built for the piece of index [i] placed at
    [chunk_start]; the two integers of its metadata dictionary are kept as
    decimal strings. *)
Definition make_chunk (document_id : str) (i : Z) (chunk_text : str)
    (chunk_start : Z) : DocumentChunk := {|
  chunk_ident := document_id ++ lit "_chunk_" ++ str_of_int i;
  chunk_document_id := document_id;
  chunk_content := chunk_text;
  chunk_start_index := chunk_start;
  chunk_end_index := chunk_start + len chunk_text;
  chunk_metadata_of :=
    [(lit "chunk_index", str_of_int i);
     (lit "chunk_length", str_of_int (len chunk_text))];
|}.

(** The loop of [process_file] over [enumerate(text_chunks)], from piece
    [i] on, with [current_position] and the chunks built so far. *)
Fixpoint locate_chunks (document_id text_content : str)
    (text_chunks : list str) (i current_position : Z)
    (chunks : list DocumentChunk) : list DocumentChunk :=
  match text_chunks with
  | [] => chunks
  | chunk_text :: text_chunks' =>
      let found := find text_content chunk_text current_position in
      let chunk_start := if found =? -1 then current_position else found in
      let chunk := make_chunk document_id i chunk_text chunk_start in
      locate_chunks document_id text_content text_chunks' (i + 1)
        (chunk_end_index chunk) (chunks ++ [chunk])
  end.

(** The end of the chunk before position [k], or 0 for the first. *)
Definition previous_end (chunks : list DocumentChunk) (k : nat) : Z :=
  match k with
  | O => 0
  | S j => default 0 (chunk_end_index <$> chunks !! j)
  end.

End ProcessFile.

(* ===================================================================== *)
(** ** Processing status and deletion
       ([app/api/endpoints/documents.py]) *)
(* ===================================================================== *)

Module DocumentStatus.

Import DocumentService RagService Deps.

(** One value of the [processing_status] dictionary; an optional field is
    a key that may be missing. *)
Record StatusInfo := {
  info_status : str;
  info_progress : Q;
  info_steps_completed : Z;
  info_total_steps : Z;
  info_started_at : str;
  info_filename : str;
  info_current_step : option str;
  info_completed_at : option str;
  info_chunk_count : option Z;
  info_error_message : option str;
  info_failed_at : option str;
}.

(** The record [upload_document] registers before it schedules the
    background task. *)
Definition initial_status (filename now : str) : StatusInfo := {|
  info_status := lit "processing";
  info_progress := 0%Q;
  info_steps_completed := 0;
  info_total_steps := 3;
  info_started_at := now;
  info_filename := filename;
  info_current_step := None;
  info_completed_at := None;
  info_chunk_count := None;
  info_error_message := None;
  info_failed_at := None;
|}.

(** The four [processing_status[document_id].update({...})] of the
    background task. *)
Definition step_processing (info : StatusInfo) : StatusInfo := {|
  info_status := lit "processing";
  info_progress := (1 # 10)%Q;
  info_steps_completed := 0;
  info_total_steps := info_total_steps info;
  info_started_at := info_started_at info;
  info_filename := info_filename info;
  info_current_step := Some (lit "Processing document content");
  info_completed_at := info_completed_at info;
  info_chunk_count := info_chunk_count info;
  info_error_message := info_error_message info;
  info_failed_at := info_failed_at info;
|}.

Definition step_embedding (info : StatusInfo) : StatusInfo := {|
  info_status := info_status info;
  info_progress := (5 # 10)%Q;
  info_steps_completed := 1;
  info_total_steps := info_total_steps info;
  info_started_at := info_started_at info;
  info_filename := info_filename info;
  info_current_step := Some (lit "Creating embeddings");
  info_completed_at := info_completed_at info;
  info_chunk_count := info_chunk_count info;
  info_error_message := info_error_message info;
  info_failed_at := info_failed_at info;
|}.

Definition step_completed (now : str) (chunk_count : Z) (info : StatusInfo)
  : StatusInfo := {|
  info_status := lit "completed";
  info_progress := 1%Q;
  info_steps_completed := 3;
  info_total_steps := info_total_steps info;
  info_started_at := info_started_at info;
  info_filename := info_filename info;
  info_current_step := Some (lit "Processing complete");
  info_completed_at := Some now;
  info_chunk_count := Some chunk_count;
  info_error_message := info_error_message info;
  info_failed_at := info_failed_at info;
|}.

Definition step_failed (now : str) (e : exn) (info : StatusInfo)
  : StatusInfo := {|
  info_status := lit "failed";
  info_progress := info_progress info;
  info_steps_completed := info_steps_completed info;
  info_total_steps := info_total_steps info;
  info_started_at := info_started_at info;
  info_filename := info_filename info;
  info_current_step := info_current_step info;
  info_completed_at := info_completed_at info;
  info_chunk_count := info_chunk_count info;
  info_error_message := Some (exn_message e);
  info_failed_at := Some now;
|}.

(** [processed_doc.id = document_id] *)
Definition with_id (doc : ProcessedDocument) (document_id : str)
  : ProcessedDocument := {|
  doc_id := document_id;
  doc_filename := doc_filename doc;
  doc_content_type := doc_content_type doc;
  doc_size := doc_size doc;
  doc_chunks := doc_chunks doc;
  doc_metadata := doc_metadata doc;
|}.

(** The [KeyError] of [processing_status[document_id]] on a missing key;
    its text is the key between quotes (escapes are not modelled). *)
Definition key_error (document_id : str) : exn :=
  Exn OtherException (lit "'" ++ document_id ++ lit "'").

(** [process_document_background], given what [process_file] returned or
    raised and the time stamp [now]: whether the task ends or raises, and
    the status dictionary and the store it leaves. The removal of the temp
    file is left out. *)
Definition process_document_background (env : Env)
    (processed : result ProcessedDocument) (now : str)
    (processing_status : gmap str StatusInfo) (st : State)
    (document_id : str)
  : result unit * (gmap str StatusInfo * State) :=
  match processing_status !! document_id with
  | None => (Raise (key_error document_id), (processing_status, st))
  | Some info =>
      let info1 := step_processing info in
      match processed with
      | Raise e =>
          (Ok tt,
           (<[document_id := step_failed now e info1]> processing_status, st))
      | Ok processed_doc =>
          let processed_doc := with_id processed_doc document_id in
          let info2 := step_embedding info1 in
          match add_document env st processed_doc 50 with
          | (Raise e, st') =>
              (Ok tt,
               (<[document_id := step_failed now e info2]> processing_status,
                st'))
          | (Ok _, st') =>
              (Ok tt,
               (<[document_id :=
                    step_completed now (len (doc_chunks processed_doc)) info2]>
                  processing_status,
                st'))
          end
      end
  end.

(** [DeletionResponse], without the time stamp. *)
Record DeletionResponse := {
  deleted_document_id : str;
  chunks_deleted : Z;
}.

Definition document_not_found (document_id : str) : HTTPException := {|
  status_code := 404;
  detail := lit "Document not found: " ++ document_id;
  headers := [] |}.

Definition not_in_vector_store (document_id : str) : HTTPException := {|
  status_code := 404;
  detail := lit "Document not found in vector store: " ++ document_id;
  headers := [] |}.

(** The [delete_document] handler of the documents router: the response,
    the status dictionary and the store. *)
Definition delete_document (env : Env)
    (processing_status : gmap str StatusInfo) (st : State)
    (document_id : str)
  : http_result DeletionResponse * (gmap str StatusInfo * State) :=
  match processing_status !! document_id with
  | None =>
      (HTTPError (document_not_found document_id), (processing_status, st))
  | Some info =>
      match RagService.delete_document env st document_id with
      | (Raise e, st') =>
          (HTTPError {| status_code := 500;
                        detail := lit "Failed to delete document: "
                                  ++ exn_message e;
                        headers := [] |},
           (processing_status, st'))
      | (Ok false, st') =>
          (HTTPError (not_in_vector_store document_id),
           (processing_status, st'))
      | (Ok true, st') =>
          (Response {| deleted_document_id := document_id;
                       chunks_deleted := default 0 (info_chunk_count info) |},
           (delete document_id processing_status, st'))
      end
  end.

End DocumentStatus.
(* ===================================================================== *)
(** ** Per-minute request counting ([RateLimitingMiddleware]) *)
(* ===================================================================== *)

Module Middleware.

Import Deps.

(** What [dispatch] reads of a request: the host of [request.client]
    ([None] when there is no client) and [request.url.path]. *)
Record Request := {
  client_host : option str;
  url_path : str;
}.

Record RateLimitingMiddleware := {
  requests_per_minute : Z;
}.

Record RateLimitContent := {
  content_error : str;
  content_message : str;
  details_current_requests : Z;
  details_limit : Z;
  details_retry_after : Z;
}.

Record JSONResponse := {
  response_status_code : Z;
  response_content : RateLimitContent;
  response_headers : list (str * str);
}.

(** The request is handed to [call_next], or answered on the spot. *)
Inductive dispatched :=
  | CallNext
  | Return (response : JSONResponse).

Definition sum (counts : list Z) : Z := fold_left Z.add counts 0.

Definition client_ip (request : Request) : str :=
  default (lit "unknown") (client_host request).

Definition is_health (request : Request) : bool :=
  startswith (url_path request) (lit "/health").

(** [int(current_time // 60)] *)
Definition minute_window (current_time : Q) : Z :=
  Qfloor (current_time / 60).

Definition clean_old_entries (request_counts : gmap (str * Z) Z)
    (minute_window : Z) : gmap (str * Z) Z :=
  filter (fun kv => minute_window - 1 <= kv.1.2) request_counts.

Definition current_requests (request_counts : gmap (str * Z) Z)
    (client_ip : str) (minute_window : Z) : Z :=
  sum (omap (fun '((ip, window), count) =>
               if bool_decide (ip = client_ip /\ window = minute_window)
               then Some count else None)
         (map_to_list request_counts)).

Definition rate_limit_exceeded (self : RateLimitingMiddleware)
    (current_requests : Z) : JSONResponse :=
  {| response_status_code := 429;
     response_content :=
       {| content_error := lit "RATE_LIMIT_EXCEEDED";
          content_message :=
            lit "Rate limit exceeded. Maximum "
            ++ str_of_int (requests_per_minute self)
            ++ lit " requests per minute.";
          details_current_requests := current_requests;
          details_limit := requests_per_minute self;
          details_retry_after := 60 |};
     response_headers := [(lit "Retry-After", lit "60")] |}.

(** [dispatch], with the reading of [time.time()] and the dictionary
    [self.request_counts] made explicit. *)
Definition dispatch (self : RateLimitingMiddleware)
    (request_counts : gmap (str * Z) Z) (request : Request)
    (current_time : Q)
  : dispatched * gmap (str * Z) Z :=
  let client_ip := client_ip request in
  if is_health request then (CallNext, request_counts)
  else
    let minute_window := minute_window current_time in
    let request_counts := clean_old_entries request_counts minute_window in
    let current_requests :=
      current_requests request_counts client_ip minute_window in
    if current_requests >=? requests_per_minute self
    then (Return (rate_limit_exceeded self current_requests), request_counts)
    else
      let key := (client_ip, minute_window) in
      (CallNext,
       <[key := default 0 (request_counts !! key) + 1]> request_counts).

(** One dispatched request: the request, the clock reading, the outcome. *)
Record entry := {
  entry_request : Request;
  entry_time : Q;
  entry_outcome : dispatched;
}.

(** The log of a middleware that dispatches the requests one after the
    other. *)
Fixpoint serve (self : RateLimitingMiddleware)
    (request_counts : gmap (str * Z) Z) (requests : list (Request * Q))
  : list entry :=
  match requests with
  | [] => []
  | (request, current_time) :: requests' =>
      let out := dispatch self request_counts request current_time in
      {| entry_request := request;
         entry_time := current_time;
         entry_outcome := fst out |}
      :: serve self (snd out) requests'
  end.

(** The entry is a request of [ip] outside the health paths that was
    handed on while the clock read minute [window]. *)
Definition forwarded (ip : str) (window : Z) (e : entry) : bool :=
  match entry_outcome e with
  | CallNext =>
      negb (is_health (entry_request e))
      && bool_decide (client_ip (entry_request e) = ip)
      && bool_decide (minute_window (entry_time e) = window)
  | Return _ => false
  end.

Definition forwarded_count (log : list entry) (ip : str) (window : Z) : Z :=
  len (List.filter (forwarded ip window) log).

(** The requests come with a clock that does not run backwards. *)
Definition clock_monotone (requests : list (Request * Q)) : Prop :=
  StronglySorted (fun a b => (snd a <= snd b)%Q) requests.

End Middleware.

Module Fixtures3.

Import Middleware.

Definition two_per_minute : RateLimitingMiddleware :=
  {| requests_per_minute := 2 |}.

Definition get (host path : string) : Request :=
  {| client_host := Some (lit host); url_path := lit path |}.

Definition traffic : list (Request * Q) :=
  [ (get "10.0.0.1" "/api/v1/qa/ask", 0%Q);
    (get "10.0.0.1" "/health", 1%Q);
    (get "10.0.0.1" "/api/v1/qa/ask", 2%Q);
    (get "10.0.0.1" "/api/v1/qa/ask", 3%Q);
    (get "10.0.0.2" "/api/v1/qa/ask", 4%Q);
    (get "10.0.0.1" "/api/v1/qa/ask", 61%Q) ].

End Fixtures3.

(* ===================================================================== *)
(** ** The HackRx endpoint ([app/api/endpoints/hackrx.py]) *)
(* ===================================================================== *)

Module HackRx.

Import RagService UrlDocumentService Deps.

Record HackRxRequest := {
  documents : str;
  questions : list str;
}.

Record HackRxResponse := {
  answers : list str;
}.

(** The body of [hackrx_run], from a URL service over an initialised RAG
    service. *)
Definition hackrx_run (uenv : UrlEnv) (st : State) (request : HackRxRequest)
  : http_result HackRxResponse * State :=
  match process_and_answer_questions uenv st (documents request)
          (questions request) with
  | (Ok answers, st') => (Response {| answers := answers |}, st')
  | (Raise e, st') =>
      match exn_kind e with
      | DocumentProcessingError =>
          (HTTPError {| status_code := 422;
                        detail := lit "Document processing failed: "
                                  ++ exn_message e;
                        headers := [] |}, st')
      | _ =>
          (HTTPError {| status_code := 500;
                        detail := lit "Internal server error occurred";
                        headers := [] |}, st')
      end
  end.

End HackRx.

(* ===================================================================== *)
(** ** Listing the documents ([list_documents], [validate_pagination]) *)
(* ===================================================================== *)

Module DocumentList.

Import Deps DocumentStatus.

(** [validate_pagination] *)
Definition validate_pagination (limit offset : Z) : http_result (Z * Z) :=
  if (limit <=? 0) || (limit >? 100) then
    HTTPError (bad_request (lit "Limit must be between 1 and 100"))
  else if offset <? 0 then
    HTTPError (bad_request (lit "Offset must be non-negative"))
  else Response (limit, offset).

(** One entry of the [documents] list, without the empty [metadata]. *)
Record DocumentResponse := {
  response_id : str;
  response_filename : str;
  response_size : Z;
  response_content_type : str;
  response_upload_timestamp : Q;
  response_processing_status : str;
  response_chunk_count : option Z;
  response_error_message : option str;
}.

(** [DocumentListResponse], without the time stamp. *)
Record DocumentListResponse := {
  list_message : str;
  documents : list DocumentResponse;
  total_count : Z;
  list_limit : Z;
  list_offset : Z;
}.

Section Listing.

(** [datetime.fromisoformat(s).timestamp()] *)
Variable timestamp_of : str -> result Q.

(** The body of the loop over [paginated_docs]. *)
Definition doc_response (item : str * StatusInfo) : result DocumentResponse :=
  let '(doc_id, status_info) := item in
  match timestamp_of (info_started_at status_info) with
  | Raise e => Raise e
  | Ok upload_timestamp =>
      Ok {| response_id := doc_id;
            response_filename := info_filename status_info;
            response_size := 0;
            response_content_type := lit "application/octet-stream";
            response_upload_timestamp := upload_timestamp;
            response_processing_status := info_status status_info;
            response_chunk_count := info_chunk_count status_info;
            response_error_message := info_error_message status_info |}
  end.

Fixpoint doc_responses (paginated_docs : list (str * StatusInfo))
    (documents : list DocumentResponse) : result (list DocumentResponse) :=
  match paginated_docs with
  | [] => Ok documents
  | item :: rest =>
      match doc_response item with
      | Raise e => Raise e
      | Ok d => doc_responses rest (documents ++ [d])
      end
  end.

(** [list_documents]; [all_docs] is [list(processing_status.items())],
    the entries of the status dictionary in the order they were
    registered. *)
Definition list_documents (all_docs : list (str * StatusInfo))
    (limit offset : Z) : http_result DocumentListResponse :=
  match validate_pagination limit offset with
  | HTTPError e => HTTPError e
  | Response (limit, offset) =>
      let paginated_docs := slice all_docs offset (offset + limit) in
      match doc_responses paginated_docs [] with
      | Raise e =>
          HTTPError {| status_code := 500;
                       detail := lit "Failed to retrieve documents: "
                                 ++ exn_message e;
                       headers := [] |}
      | Ok documents =>
          Response {| list_message :=
                        lit "Retrieved " ++ str_of_int (len documents)
                        ++ lit " documents";
                      documents := documents;
                      total_count := len all_docs;
                      list_limit := limit;
                      list_offset := offset |}
      end
  end.

End Listing.

(** The entry of the response shows the fields of the list item it is
    built from. *)
Definition shows (item : str * StatusInfo) (d : DocumentResponse) : Prop :=
  response_id d = item.1 /\
  response_filename d = info_filename item.2 /\
  response_processing_status d = info_status item.2 /\
  response_chunk_count d = info_chunk_count item.2 /\
  response_error_message d = info_error_message item.2.

End DocumentList.

Module Fixtures4.

Import DocumentStatus DocumentList.

Definition registered (id filename : string) : str * StatusInfo :=
  (lit id, initial_status (lit filename) (lit "2024-01-01T00:00:00")).

Definition five_docs : list (str * StatusInfo) :=
  [ registered "d0" "a.pdf"; registered "d1" "b.pdf"; registered "d2" "c.txt";
    registered "d3" "d.md"; registered "d4" "e.docx" ].

Definition epoch : str -> result Q := fun _ => Ok 1704067200%Q.

End Fixtures4.


(* ===================================================================== *)
(** * Properties *)
(* ===================================================================== *)

(** ** Chunk parameter validation *)

Section ChunkValidation.

Import DocumentService.

Variable settings : Settings.
Variable split_text : Z -> Z -> str -> list str.

(** The checks of [create_chunks] bear on the values left after the
    defaults were substituted. *)
Lemma create_chunks_effective (text : str) (chunk_size overlap : option Z) :
  let size := int_or chunk_size (Config.chunk_size settings) in
  let over := int_or overlap (Config.chunk_overlap settings) in
  (size <= 0 ->
   create_chunks settings split_text text chunk_size overlap
   = Raise (validation "Chunk size must be positive")) /\
  (0 < size -> over < 0 ->
   create_chunks settings split_text text chunk_size overlap
   = Raise (validation "Overlap must be non-negative")) /\
  (0 < size -> 0 <= over -> size <= over ->
   create_chunks settings split_text text chunk_size overlap
   = Raise (validation "Overlap must be less than chunk size")) /\
  (0 < size -> 0 <= over -> over < size -> strip text = [] ->
   create_chunks settings split_text text chunk_size overlap = Ok []).
Proof.
  cbv zeta. unfold create_chunks.
  set (size := int_or chunk_size _). set (over := int_or overlap _).
  repeat split; intros.
  - destruct (Z.leb_spec size 0); [done | lia].
  - destruct (Z.leb_spec size 0); [lia |].
    destruct (Z.ltb_spec over 0); [done | lia].
  - destruct (Z.leb_spec size 0); [lia |].
    destruct (Z.ltb_spec over 0); [lia |].
    destruct (Z.geb_spec over size); [done | lia].
  - destruct (Z.leb_spec size 0); [lia |].
    destruct (Z.ltb_spec over 0); [lia |].
    destruct (Z.geb_spec over size); [lia |].
    by rewrite H2.
Qed.

(** A negative chunk size, a negative overlap and an overlap that reaches
    a non-zero chunk size are refused. *)
Lemma create_chunks_rejects (text : str) (c o : Z) :
  (c < 0 ->
   create_chunks settings split_text text (Some c) (Some o)
   = Raise (validation "Chunk size must be positive")) /\
  (0 < c -> o < 0 ->
   create_chunks settings split_text text (Some c) (Some o)
   = Raise (validation "Overlap must be non-negative")) /\
  (0 < c -> 0 < o -> c <= o ->
   create_chunks settings split_text text (Some c) (Some o)
   = Raise (validation "Overlap must be less than chunk size")).
Proof.
  pose proof (create_chunks_effective text (Some c) (Some o)) as H.
  cbv zeta in H. simpl in H. destruct H as (H1 & H2 & H3 & _).
  repeat split; intros.
  - destruct (Z.eqb_spec c 0); [lia |]. apply H1. lia.
  - destruct (Z.eqb_spec c 0); [lia |]. destruct (Z.eqb_spec o 0); [lia |].
    by apply H2.
  - destruct (Z.eqb_spec c 0); [lia |]. destruct (Z.eqb_spec o 0); [lia |].
    apply H3; lia.
Qed.

(** A size or an overlap of zero is treated as not supplied. *)
Lemma create_chunks_zero_is_absent (text : str) :
  create_chunks settings split_text text (Some 0) (Some 0)
  = create_chunks settings split_text text None None.
Proof. reflexivity. Qed.

End ChunkValidation.

(** C2: with [chunk_size=0] and [overlap=0] the call does not fail with
    "Chunk size must be positive": both zeros are falsy, the configured
    defaults 1000 and 200 take their place, and the text is split with
    them. The same happens for [chunk_size=0, overlap=10], the call the
    unit test expects to fail. *)
Theorem create_chunks_zero_size_takes_defaults :
  forall (split_text : Z -> Z -> str -> list str),
    DocumentService.create_chunks default_settings split_text
      (lit "test text") (Some 0) (Some 0)
    = Ok (split_text 1000 200 (lit "test text")) /\
    DocumentService.create_chunks default_settings split_text
      (lit "test text") (Some 0) (Some 10)
    = Ok (split_text 1000 10 (lit "test text")).
Proof. intros split_text. split; reflexivity. Qed.

(** ** Upload validation *)

Section UploadValidation.

Import Deps Documents.

Variable env : UploadEnv.
Variable limiter : RateLimitDependency.

Local Abbreviation max_size :=
  (max_file_size (Deps.settings (deps_env env))).

Lemma validate_oversize (f : UploadFile) (sz : Z) :
  0 <= max_size -> size f = Some sz -> max_size < sz ->
  exists e, validate_file_upload (deps_env env) (Some f) = HTTPError e /\
            (status_code e = 400 \/ status_code e = 413).
Proof.
  intros Hmax Hsz Hbig. unfold validate_file_upload.
  destruct (filename f) as [[|c name]|].
  - eexists; split; [reflexivity | by left].
  - destruct (negb (bool_decide _)).
    + eexists; split; [reflexivity | by left].
    + rewrite Hsz.
      destruct (Z.eqb_spec sz 0); [lia |].
      destruct (Z.gtb_spec sz max_size); [| lia]. simpl.
      eexists; split; [reflexivity | by right].
  - eexists; split; [reflexivity | by left].
Qed.

Lemma validate_oversize_413 (f : UploadFile) (sz : Z) (name : str) :
  0 <= max_size -> size f = Some sz -> max_size < sz ->
  filename f = Some name -> name <> [] ->
  Deps.lower (deps_env env) (snd (splitext name))
    ∈ supported_extensions (Deps.settings (deps_env env)) ->
  validate_file_upload (deps_env env) (Some f)
  = HTTPError {|
      status_code := 413;
      detail := lit "File too large. Maximum size: "
                ++ format_float (deps_env env)
                     (inject_Z max_size / inject_Z (1024 * 1024))%Q
                ++ lit "MB";
      headers := [] |}.
Proof.
  intros Hmax Hsz Hbig Hname Hne Hext. unfold validate_file_upload.
  rewrite Hname. destruct name as [|c name]; [done |].
  rewrite bool_decide_eq_true_2 by done. simpl. rewrite Hsz.
  destruct (Z.eqb_spec sz 0); [lia |].
  destruct (Z.gtb_spec sz max_size); [done | lia].
Qed.

End UploadValidation.

(** C3, as the code has it: an upload whose file reports a size above the
    configured maximum is always turned down with a client error and
    before anything is saved (no event is produced): 429 when the rate
    limiter refuses the request, 400 when the file has no name or an
    unsupported extension, and otherwise 413 with the detail
    "File too large. Maximum size: <max/1048576>MB". *)
Theorem oversize_upload_rejected_413 :
  forall (env : Documents.UploadEnv) (limiter : Deps.RateLimitDependency)
         (request_history : gmap str (list Q))
         (creds : option Deps.Credentials) (current_time : Q)
         (f : Deps.UploadFile) (sz : Z) (metadata : option str),
    0 <= max_file_size (Deps.settings (Documents.deps_env env)) ->
    Deps.size f = Some sz ->
    max_file_size (Deps.settings (Documents.deps_env env)) < sz ->
    let out :=
      Documents.post_upload env limiter request_history creds current_time
        (Some f) metadata in
    snd (fst out) = [] /\
    (exists e, fst (fst out) = Deps.HTTPError e /\
               (Deps.status_code e = 429 \/ Deps.status_code e = 400 \/
                Deps.status_code e = 413)) /\
    (forall name,
        fst (Deps.rate_limit_call limiter request_history
               (Deps.get_current_user creds) current_time)
        = Deps.Response tt ->
        Deps.filename f = Some name -> name <> [] ->
        Deps.lower (Documents.deps_env env) (snd (Deps.splitext name))
          ∈ supported_extensions (Deps.settings (Documents.deps_env env)) ->
        fst (fst out)
        = Deps.HTTPError {|
            Deps.status_code := 413;
            Deps.detail :=
              lit "File too large. Maximum size: "
              ++ Deps.format_float (Documents.deps_env env)
                   (inject_Z (max_file_size
                                (Deps.settings (Documents.deps_env env)))
                    / inject_Z (1024 * 1024))%Q
              ++ lit "MB";
            Deps.headers := [] |}).
Proof.
  intros env limiter history creds t f sz metadata Hmax Hsz Hbig out.
  subst out. unfold Documents.post_upload, Documents.upload_document.
  destruct (validate_oversize env f sz Hmax Hsz Hbig) as (e & He & Hst).
  destruct (Deps.rate_limit_call limiter history _ t) as [[[]|e'] h'] eqn:Hrl.
  - rewrite He. cbn [fst snd]. split; [done |]. split.
    + exists e. split; [done |]. destruct Hst; auto.
    + intros name _ Hname Hne Hext.
      erewrite validate_oversize_413 in He by eassumption.
      by inversion He.
  - cbn [fst snd]. split; [done |]. split.
    + exists e'. split; [done |]. left.
      unfold Deps.rate_limit_call in Hrl.
      destruct (_ >=? _) in Hrl; by inversion Hrl.
    + intros name Hok. simpl in Hok. discriminate.
Qed.

(** The limit of 10 MiB, [report.PDF] of 10 MiB + 1 byte, a fresh limiter. *)
Lemma oversize_upload_rejected_413_witness :
  let out :=
    Documents.post_upload Fixtures.upload_env0 Deps.upload_rate_limit ∅ None
      0%Q (Some Fixtures.big_pdf) None in
  snd (fst out) = [] /\
  fst (fst out)
  = Deps.HTTPError {|
      Deps.status_code := 413;
      Deps.detail := lit "File too large. Maximum size: 10.0MB";
      Deps.headers := [] |}.
Proof.
  pose proof (oversize_upload_rejected_413 Fixtures.upload_env0
                Deps.upload_rate_limit ∅ None 0%Q Fixtures.big_pdf 10485761
                None ltac:(vm_compute; discriminate) eq_refl eq_refl) as H.
  cbv zeta in H. destruct H as (Hev & _ & H413).
  split; [exact Hev |].
  rewrite (H413 (lit "report.PDF") eq_refl eq_refl ltac:(discriminate)
             ltac:(vm_compute; set_solver)).
  reflexivity.
Defined.

(** C3, as claimed, fails: a PDF one byte over the limit is answered with
    status 413, not 400. *)
Lemma oversize_upload_status_is_413 :
  (max_file_size default_settings <? 10485761) = true /\
  fst (Documents.upload_document Fixtures.upload_env0
         (Some Fixtures.big_pdf) None)
  = Deps.HTTPError {|
      Deps.status_code := 413;
      Deps.detail := lit "File too large. Maximum size: 10.0MB";
      Deps.headers := [] |} /\
  (413 =? 400) = false.
Proof. vm_compute. auto. Qed.

(** ** Session ownership *)

Section SessionOwnership.

Import Deps Qa.

Lemma owner_mismatch_resolved (current_user : option str) (session : Session) :
  owner_mismatch current_user session = true ->
  exists u, current_user = Some u /\ u <> [] /\ session_user session <> Some u.
Proof.
  unfold owner_mismatch. destruct current_user as [[|c u]|]; try done.
  intros H. exists (c :: u). split; [done |]. split; [done |].
  apply negb_true_iff, bool_decide_eq_false in H. done.
Qed.

Lemma history_403_only_for_other_identity
    (chat_sessions : gmap str Session) (session_id : str) (session : Session)
    (limit offset : Z) (current_user : option str) (e : HTTPException) :
  chat_sessions !! session_id = Some session ->
  get_conversation_history chat_sessions session_id limit offset current_user
  = HTTPError e ->
  status_code e = 403 /\
  exists u, current_user = Some u /\ session_user session <> Some u.
Proof.
  intros Hs. unfold get_conversation_history. rewrite Hs.
  destruct (owner_mismatch current_user session) eqn:Hm; [| done].
  intros [= <-]. split; [done |].
  destruct (owner_mismatch_resolved _ _ Hm) as (u & ? & _ & ?). eauto.
Qed.

Lemma delete_403_only_for_other_identity
    (chat_sessions : gmap str Session) (session_id : str) (session : Session)
    (current_user : option str) (e : HTTPException) :
  chat_sessions !! session_id = Some session ->
  fst (delete_chat_session chat_sessions session_id current_user)
  = HTTPError e ->
  status_code e = 403 /\
  exists u, current_user = Some u /\ session_user session <> Some u.
Proof.
  intros Hs. unfold delete_chat_session. rewrite Hs.
  destruct (owner_mismatch current_user session) eqn:Hm; [| done].
  intros [= <-]. split; [done |].
  destruct (owner_mismatch_resolved _ _ Hm) as (u & ? & _ & ?). eauto.
Qed.

End SessionOwnership.

(** C9: without a bearer credential no identity is resolved and the owner
    of the session is never looked at: for every existing session the
    history request answers with the requested page and the total count,
    and the delete request removes the session and reports its message
    count, whoever owns it. With any credential, the only error an existing
    session can produce is the 403, and only for a resolved identity that
    differs from the recorded owner. *)
Theorem anonymous_access_skips_owner_check :
  forall (chat_sessions : gmap str Qa.Session) (session_id : str)
         (session : Qa.Session) (limit offset : Z),
    chat_sessions !! session_id = Some session ->
    Deps.get_current_user None = None /\
    Qa.get_history_request chat_sessions None session_id limit offset
    = Deps.Response {|
        Qa.hist_session_id := session_id;
        Qa.hist_messages :=
          slice (Qa.session_messages session) offset (offset + limit);
        Qa.hist_total_messages := len (Qa.session_messages session) |} /\
    Qa.delete_session_request chat_sessions None session_id
    = (Deps.Response {|
         Qa.del_session_id := session_id;
         Qa.del_messages_deleted := len (Qa.session_messages session) |},
       delete session_id chat_sessions) /\
    (forall creds e,
        Qa.get_history_request chat_sessions creds session_id limit offset
        = Deps.HTTPError e ->
        Deps.status_code e = 403 /\
        exists u, Deps.get_current_user creds = Some u /\
                  Qa.session_user session <> Some u) /\
    (forall creds e,
        fst (Qa.delete_session_request chat_sessions creds session_id)
        = Deps.HTTPError e ->
        Deps.status_code e = 403 /\
        exists u, Deps.get_current_user creds = Some u /\
                  Qa.session_user session <> Some u).
Proof.
  intros chat_sessions session_id session limit offset Hs.
  split; [reflexivity |].
  unfold Qa.get_history_request, Qa.delete_session_request.
  split; [| split; [| split]].
  - unfold Qa.get_conversation_history. by rewrite Hs.
  - unfold Qa.delete_chat_session. by rewrite Hs.
  - intros creds e. by apply history_403_only_for_other_identity.
  - intros creds e. by apply delete_403_only_for_other_identity.
Qed.

(** The session of [alice], read and deleted without a credential. *)
Lemma anonymous_access_skips_owner_check_witness :
  Fixtures.sessions0 !! lit "session_123" = Some Fixtures.alice_session /\
  Qa.get_history_request Fixtures.sessions0 None (lit "session_123") 50 0
  = Deps.Response {|
      Qa.hist_session_id := lit "session_123";
      Qa.hist_messages := Qa.session_messages Fixtures.alice_session;
      Qa.hist_total_messages := 2 |} /\
  fst (Qa.delete_session_request Fixtures.sessions0 None (lit "session_123"))
  = Deps.Response {|
      Qa.del_session_id := lit "session_123";
      Qa.del_messages_deleted := 2 |}.
Proof.
  assert (Hs : Fixtures.sessions0 !! lit "session_123"
               = Some Fixtures.alice_session) by (vm_compute; reflexivity).
  destruct (anonymous_access_skips_owner_check Fixtures.sessions0
              (lit "session_123") Fixtures.alice_session 50 0 Hs)
    as (_ & Hh & Hd & _).
  split; [exact Hs |]. split.
  - rewrite Hh. reflexivity.
  - rewrite Hd. reflexivity.
Defined.

(** The 403 is reached: the same session, asked for with a credential,
    resolves to [default_user], who is not [alice]. *)
Lemma history_denied_to_other_identity :
  Qa.get_history_request Fixtures.sessions0
    (Some {| Deps.scheme := lit "Bearer"; Deps.credentials := lit "token" |})
    (lit "session_123") 50 0
  = Deps.HTTPError Qa.access_denied.
Proof. vm_compute. reflexivity. Qed.

(** ** The sliding-window rate limiter *)

Section RateLimiter.

Import Deps.

Lemma Qltb_lt (x y : Q) : Qltb x y = true <-> (x < y)%Q.
Proof.
  unfold Qltb. rewrite negb_true_iff, <- not_true_iff_false, Qle_bool_iff.
  split; intros H; [by apply Qnot_le_lt | by apply Qlt_not_le].
Qed.

Lemma Qltb_ge (x y : Q) : Qltb x y = false <-> (y <= x)%Q.
Proof.
  unfold Qltb. rewrite negb_false_iff. apply Qle_bool_iff.
Qed.

Variable self : RateLimitDependency.

Lemma in_window_earlier (t t' ts : Q) :
  (t <= t')%Q -> in_window self t' ts = true -> in_window self t ts = true.
Proof.
  unfold in_window. rewrite !Qltb_lt. intros Hle Hlt. lra.
Qed.

Lemma existsb_false_Forall {A} (f : A -> bool) (l : list A) :
  existsb f l = false -> Forall (fun x => f x = false) l.
Proof.
  induction l as [|x l IH]; simpl; [constructor |].
  intros [Hx Hl]%orb_false_iff. constructor; auto.
Qed.

Lemma filter_shorter {A} (f : A -> bool) (l : list A) (x : A) :
  In x l -> f x = false ->
  (length (List.filter f l) < length l)%nat.
Proof.
  induction l as [|y l IH]; simpl; [done |].
  intros [-> | Hin] Hx.
  - rewrite Hx. pose proof (List.filter_length_le f l). lia.
  - specialize (IH Hin Hx). destruct (f y); simpl; lia.
Qed.

Lemma clean_old_lookup_Some (t : Q) (h : gmap str (list Q)) id l :
  clean_old self t h !! id = Some l <->
  h !! id = Some l /\ existsb (in_window self t) l = true.
Proof. unfold clean_old. by rewrite map_lookup_filter_Some. Qed.

Lemma clean_old_lookup_None (t : Q) (h : gmap str (list Q)) id :
  clean_old self t h !! id = None <->
  forall l, h !! id = Some l -> existsb (in_window self t) l = false.
Proof.
  unfold clean_old. rewrite map_lookup_filter_None. split.
  - intros [Hn | Hf] l Hl; [congruence |].
    specialize (Hf l Hl). simpl in Hf. by destruct (existsb _ l).
  - intros H. destruct (h !! id) as [l|] eqn:Hl; [right | by left].
    intros l' [= <-]. simpl. rewrite (H l); done.
Qed.

(** Pruning at a later clock reading subsumes pruning at an earlier one. *)
Lemma clean_old_twice (t t' : Q) (h : gmap str (list Q)) :
  (t <= t')%Q ->
  clean_old self t' (clean_old self t h) = clean_old self t' h.
Proof.
  intros Hle. apply map_eq. intros id. apply option_eq. intros l.
  rewrite !clean_old_lookup_Some. split.
  - by intros [[Hl _] Hw].
  - intros [Hl Hw]. repeat split; try done.
    apply existsb_exists in Hw as (ts & Hin & Hts).
    apply existsb_exists. exists ts. split; [done |].
    by eapply in_window_earlier.
Qed.

(** What the pruned dictionary holds for one identifier still yields the
    in-window timestamps of the stored list. *)
Lemma recent_after_clean (t : Q) (h : gmap str (list Q)) id :
  List.filter (in_window self t) (default [] (clean_old self t h !! id))
  = List.filter (in_window self t) (default [] (h !! id)).
Proof.
  destruct (clean_old self t h !! id) as [l|] eqn:Hc.
  - apply clean_old_lookup_Some in Hc as [-> _]. done.
  - destruct (h !! id) as [l|] eqn:Hl; [| done]. simpl.
    pose proof (proj1 (clean_old_lookup_None t h id) Hc l Hl) as Hf.
    clear Hl Hc. induction l as [|x l IH]; simpl in *; [done |].
    apply orb_false_iff in Hf as [-> Hf]. auto.
Qed.

(** No stored list is longer than [max_requests]. *)
Lemma reachable_bounded (h : gmap str (list Q)) :
  reachable self h ->
  forall id l, h !! id = Some l -> len l <= max_requests self.
Proof.
  induction 1 as [|h user t _ IH]; intros id l.
  - by rewrite lookup_empty.
  - unfold rate_limit_call.
    destruct (Z.geb_spec
                (len (List.filter (in_window self t)
                        (default [] (clean_old self t h
                                       !! str_or user (lit "anonymous")))))
                (max_requests self)) as [Hge | Hlt]; simpl.
    + intros [Hl _]%clean_old_lookup_Some. by eapply IH.
    + destruct (decide (str_or user (lit "anonymous") = id)) as [<- | Hne].
      * rewrite lookup_insert_eq. intros [= <-].
        unfold len in *. rewrite length_app. simpl. lia.
      * rewrite lookup_insert_ne by done.
        intros [Hl _]%clean_old_lookup_Some. by eapply IH.
Qed.

End RateLimiter.

(** C10: a call the limiter rejects raises the 429 and leaves behind
    exactly the pruned dictionary, with no timestamp added: every
    identifier keeps its list or, when all its timestamps have left the
    window, loses its entry, and the rejected identifier keeps its list
    untouched. A later call therefore behaves as if the rejected one had
    never been made, and once a timestamp that was in the window at the
    rejection (the oldest, in particular) has left the window, the
    identity is admitted again and the new timestamp is recorded after the
    ones still in the window. *)
Theorem rejected_request_not_recorded :
  forall (self : Deps.RateLimitDependency)
         (request_history : gmap str (list Q)) (user : option str)
         (current_time : Q) (e : Deps.HTTPException),
    fst (Deps.rate_limit_call self request_history user current_time)
    = Deps.HTTPError e ->
    let after :=
      snd (Deps.rate_limit_call self request_history user current_time) in
    let identifier := str_or user (lit "anonymous") in
    e = Deps.too_many_requests self /\
    after = Deps.clean_old self current_time request_history /\
    (forall id,
        after !! id = request_history !! id \/
        (after !! id = None /\
         exists l, request_history !! id = Some l /\
                   Forall (fun ts => Deps.in_window self current_time ts
                                     = false) l)) /\
    (0 < Deps.max_requests self ->
     after !! identifier = request_history !! identifier) /\
    (forall user' later,
        (current_time <= later)%Q ->
        Deps.rate_limit_call self after user' later
        = Deps.rate_limit_call self request_history user' later) /\
    (forall l oldest later,
        Deps.reachable self request_history ->
        request_history !! identifier = Some l ->
        In oldest l ->
        Deps.in_window self current_time oldest = true ->
        (current_time <= later)%Q ->
        Deps.in_window self later oldest = false ->
        Deps.rate_limit_call self after user later
        = (Deps.Response tt,
           <[identifier :=
               List.filter (Deps.in_window self later) l ++ [later]]>
             (Deps.clean_old self later request_history))).
Proof.
  intros self h user t e Hrej after identifier.
  assert (Hafter : after = Deps.clean_old self t h /\
                   e = Deps.too_many_requests self /\
                   Deps.max_requests self
                   <= len (List.filter (Deps.in_window self t)
                             (default [] (Deps.clean_old self t h
                                            !! identifier)))).
  { subst after. unfold Deps.rate_limit_call in *. fold identifier in Hrej |- *.
    destruct (Z.geb_spec
                (len (List.filter (Deps.in_window self t)
                        (default [] (Deps.clean_old self t h !! identifier))))
                (Deps.max_requests self)) as [Hge | Hlt]; simpl in *.
    - inversion Hrej. auto.
    - discriminate. }
  destruct Hafter as (Hafter & He & Hfull).
  split; [exact He |]. split; [exact Hafter |].
  split; [| split; [| split]].
  - intros id. rewrite Hafter.
    destruct (h !! id) as [l|] eqn:Hl.
    + destruct (existsb (Deps.in_window self t) l) eqn:Hw.
      * left. by apply clean_old_lookup_Some.
      * right. split.
        -- apply clean_old_lookup_None. intros l' Hl'. congruence.
        -- exists l. split; [done |]. by apply existsb_false_Forall.
    + left. apply clean_old_lookup_None. intros l Hl'. congruence.
  - intros Hpos. rewrite Hafter.
    destruct (Deps.clean_old self t h !! identifier) as [l|] eqn:Hc.
    + apply clean_old_lookup_Some in Hc as [-> _]. done.
    + simpl in Hfull. unfold len in Hfull. simpl in Hfull. lia.
  - intros user' later Hle. rewrite Hafter. unfold Deps.rate_limit_call.
    by rewrite clean_old_twice.
  - intros l oldest later Hreach Hl Hin _ Hle Hout.
    rewrite Hafter. unfold Deps.rate_limit_call. fold identifier.
    rewrite clean_old_twice by done.
    rewrite recent_after_clean, Hl. simpl.
    pose proof (filter_shorter (Deps.in_window self later) l oldest Hin Hout).
    pose proof (reachable_bounded self h Hreach identifier l Hl).
    destruct (Z.geb_spec
                (len (List.filter (Deps.in_window self later) l))
                (Deps.max_requests self)) as [Hge | Hlt]; [| done].
    unfold len in *. lia.
Qed.

(** Two requests per minute; admitted at seconds 0 and 1, rejected at
    second 10, admitted again at second 60.5, when the request of second 0
    has left the window. *)
Lemma rejected_request_not_recorded_witness :
  fst (Deps.rate_limit_call Fixtures.limiter2 Fixtures.history2 None 10%Q)
  = Deps.HTTPError (Deps.too_many_requests Fixtures.limiter2) /\
  snd (Deps.rate_limit_call Fixtures.limiter2 Fixtures.history2 None 10%Q)
    !! lit "anonymous"
  = Some [0%Q; 1%Q] /\
  Deps.rate_limit_call Fixtures.limiter2
    (snd (Deps.rate_limit_call Fixtures.limiter2 Fixtures.history2 None 10%Q))
    None (121 # 2)%Q
  = (Deps.Response tt,
     <[lit "anonymous" := [1%Q; (121 # 2)%Q]]>
       (Deps.clean_old Fixtures.limiter2 (121 # 2)%Q Fixtures.history2)).
Proof.
  assert (Hrej : fst (Deps.rate_limit_call Fixtures.limiter2
                        Fixtures.history2 None 10%Q)
                 = Deps.HTTPError (Deps.too_many_requests Fixtures.limiter2))
    by (vm_compute; reflexivity).
  assert (Hl : Fixtures.history2 !! lit "anonymous" = Some [0%Q; 1%Q])
    by (vm_compute; reflexivity).
  destruct (rejected_request_not_recorded Fixtures.limiter2 Fixtures.history2
              None 10%Q _ Hrej) as (_ & _ & _ & Hkeep & _ & Hagain).
  split; [exact Hrej |]. split.
  - rewrite <- Hl. apply Hkeep. reflexivity.
  - assert (Hreach : Deps.reachable Fixtures.limiter2 Fixtures.history2)
      by apply Deps.reachable_call, Deps.reachable_call, Deps.reachable_empty.
    rewrite (Hagain [0%Q; 1%Q] 0%Q (121 # 2)%Q Hreach Hl (or_introl eq_refl) eq_refl
               ltac:(discriminate) eq_refl).
    reflexivity.
Defined.

(** ** Bookkeeping of the vector store *)

Section Bookkeeping.

Import DocumentService RagService.

Lemma pop_all_lookup (rows : list Z) (m : gmap Z ChunkMeta) (idx : Z) :
  pop_all rows m !! idx = if decide (idx ∈ rows) then None else m !! idx.
Proof.
  unfold pop_all. revert m.
  induction rows as [|r rows IH]; intros m.
  - case_decide as H; [by apply not_elem_of_nil in H | done].
  - cbn [foldl]. rewrite IH.
    destruct (decide (idx ∈ rows)) as [Hin | Hout].
    + rewrite decide_True; [done | apply elem_of_cons; by right].
    + destruct (decide (idx = r)) as [-> | Hne].
      * rewrite lookup_delete_eq, decide_True; [done |].
        apply elem_of_cons; by left.
      * rewrite lookup_delete_ne by done.
        rewrite decide_False; [done |].
        intros [? | ?]%elem_of_cons; done.
Qed.

Lemma store_metadata_is_Some env doc chunks (idxs : list Z)
    (m : gmap Z ChunkMeta) (idx : Z) :
  (length idxs <= length chunks)%nat ->
  idx ∈ idxs \/ is_Some (m !! idx) ->
  is_Some (store_metadata env doc chunks idxs m !! idx).
Proof.
  revert idxs m.
  induction chunks as [|c chunks IH]; intros [|i idxs] m Hlen H; simpl in *.
  - destruct H as [H | H]; [by apply not_elem_of_nil in H | done].
  - lia.
  - destruct H as [H | H]; [by apply not_elem_of_nil in H | done].
  - apply IH; [lia |]. destruct H as [H | H].
    + apply elem_of_cons in H as [-> | H]; [right | by left].
      rewrite lookup_insert_eq. eauto.
    + right. destruct (decide (i = idx)) as [-> | Hne].
      * rewrite lookup_insert_eq. eauto.
      * by rewrite lookup_insert_ne.
Qed.

Lemma store_metadata_other env doc chunks (idxs : list Z)
    (m : gmap Z ChunkMeta) (idx : Z) :
  idx ∉ idxs -> store_metadata env doc chunks idxs m !! idx = m !! idx.
Proof.
  revert idxs m.
  induction chunks as [|c chunks IH]; intros [|i idxs] m H; simpl; try done.
  apply not_elem_of_cons in H as [Hne Hout].
  rewrite IH by done. by rewrite lookup_insert_ne.
Qed.

(** The row stored for the chunk at position [k]. *)
Lemma store_metadata_lookup env doc chunks (idxs : list Z)
    (m : gmap Z ChunkMeta) (k : nat) chunk (idx : Z) :
  NoDup idxs -> chunks !! k = Some chunk -> idxs !! k = Some idx ->
  store_metadata env doc chunks idxs m !! idx
  = Some (meta_of_chunk env doc chunk).
Proof.
  revert idxs m k.
  induction chunks as [|c chunks IH]; intros [|i idxs] m k Hnd Hc Hi;
    simpl in *; try done.
  apply NoDup_cons in Hnd as [Hfresh Hnd].
  destruct k as [|k]; simpl in *.
  - injection Hc as ->. injection Hi as ->.
    rewrite store_metadata_other by done. apply lookup_insert_eq.
  - by eapply IH.
Qed.

Lemma create_embeddings_rows env (texts : list str) rows :
  row_per_text env ->
  _create_embeddings env texts = Ok rows -> length rows = length texts.
Proof.
  intros Hc. unfold _create_embeddings.
  destruct texts as [|t texts]; simpl.
  - by intros [= <-].
  - destruct (aembed_documents env _) as [rows' | e] eqn:E.
    + intros [= <-]. apply Hc in E. rewrite E. simpl.
      by rewrite List.length_map.
    + repeat case_match; discriminate.
Qed.

Lemma embed_loop_spec env (n : Z) (todo : list (list str))
    (acc : list (list vector)) (idxs : list Z) all idxs' :
  row_per_text env ->
  embed_loop env n todo acc idxs = Ok (all, idxs') ->
  idxs' = idxs ++ seqZ (n + len idxs) (len (concat todo)) /\
  length (concat all)
  = (length (concat acc) + length (concat todo))%nat.
Proof.
  intros Hc. revert acc idxs.
  induction todo as [|batch todo IH]; intros acc idxs; simpl.
  - intros [= <- <-]. split; [by rewrite app_nil_r | lia].
  - destruct (_create_embeddings env batch) as [rows | e] eqn:E; [| done].
    intros H. apply IH in H as [-> Hlen].
    apply create_embeddings_rows in E; [| done].
    split.
    + rewrite <- app_assoc. f_equal. unfold range, len.
      rewrite !length_app, length_seqZ.
      replace (n + Z.of_nat (length idxs) + Z.of_nat (length batch)
               - (n + Z.of_nat (length idxs)))
        with (Z.of_nat (length batch)) by lia.
      rewrite (Nat2Z.inj_add (length batch)), seqZ_app by lia.
      do 2 f_equal. lia.
    + rewrite Hlen, concat_app, !length_app. simpl.
      rewrite app_nil_r. lia.
Qed.

Lemma batches_aux_concat {A} (fuel n : nat) (l : list A) :
  (0 < n)%nat -> (length l <= fuel)%nat ->
  concat (batches_aux fuel n l) = l.
Proof.
  intros Hn. revert l.
  induction fuel as [|fuel IH]; intros [|x l] Hlen; simpl in *;
    try done; try lia.
  destruct n as [|n]; [lia |]. simpl. f_equal.
  rewrite IH; [apply take_drop |]. rewrite length_drop. lia.
Qed.

Lemma batches_concat {A} (n : nat) (l : list A) :
  (0 < n)%nat -> concat (batches n l) = l.
Proof. intros Hn. by apply batches_aux_concat. Qed.

(** [add_document] either raises and leaves the state as it was, or
    appends one row per assigned index, stores the metadata and registers
    the document (and may still raise if the store cannot be written). *)
Lemma add_document_state env st doc bs :
  row_per_text env ->
  let out := add_document env st doc bs in
  let idxs := assigned_rows st doc bs in
  ((exists e, fst out = Raise e) /\ snd out = st) \/
  (ntotal (snd out) = ntotal st + len idxs /\
   chunk_metadata (snd out)
   = store_metadata env doc (doc_chunks doc) idxs (chunk_metadata st) /\
   document_chunks (snd out) = <[doc_id doc := idxs]> (document_chunks st) /\
   (fst out = Ok (doc_id doc) \/
    exists msg, write_store env (snd out) = Some msg /\
                fst out = Raise (Exn VectorStoreError
                                   (lit "Failed to save vector store: "
                                    ++ msg)))).
Proof.
  intros Hc. cbv zeta. unfold add_document, assigned_rows.
  destruct (doc_chunks doc) as [|c chunks] eqn:Hchunks; simpl negb; cbv iota.
  { left. eauto. }
  destruct (Z.eqb_spec bs 0) as [-> | Hbs]; [left; eauto |].
  rewrite <- Hchunks.
  destruct (embed_loop env (ntotal st) _ [] []) as [[all idxs] | e] eqn:E;
    [| left; eauto].
  right.
  apply embed_loop_spec in E as [Hidx Hrows]; [| done].
  simpl in Hidx, Hrows.
  assert (Hidxs : idxs = if bs <? 0 then []
                         else range (ntotal st)
                                (ntotal st + len (doc_chunks doc))).
  { rewrite Hidx. destruct (Z.ltb_spec bs 0); [done |].
    rewrite batches_concat by lia. unfold range, len.
    rewrite List.length_map. f_equal; unfold ntotal, len; simpl; lia. }
  assert (Hlen : length (concat all) = length idxs).
  { rewrite Hrows, Hidx. simpl. rewrite length_seqZ. unfold len. lia. }
  rewrite <- Hidxs.
  set (st' := {| index := _; chunk_metadata := _; document_chunks := _ |}).
  assert (Hn : ntotal st' = ntotal st + len idxs).
  { unfold ntotal, len, st'. simpl. rewrite length_app, Hlen. lia. }
  unfold _save_index.
  destruct (write_store env st') as [msg |] eqn:Hw; simpl.
  - repeat split; try done. right. eauto.
  - repeat split; try done. by left.
Qed.

Lemma assigned_rows_length st doc bs :
  (length (assigned_rows st doc bs) <= length (doc_chunks doc))%nat.
Proof.
  unfold assigned_rows, range, len. destruct (bs <? 0); simpl; [lia |].
  rewrite length_seqZ. lia.
Qed.

Lemma assigned_rows_elem st doc bs idx :
  idx ∈ assigned_rows st doc bs ->
  ntotal st <= idx < ntotal st + len (assigned_rows st doc bs).
Proof.
  unfold assigned_rows, range, len. destruct (bs <? 0).
  - by intros ?%not_elem_of_nil.
  - rewrite elem_of_seqZ, length_seqZ. lia.
Qed.

Lemma assigned_rows_positive st doc bs :
  0 < bs ->
  assigned_rows st doc bs
  = range (ntotal st) (ntotal st + len (doc_chunks doc)).
Proof.
  intros H. unfold assigned_rows. by destruct (Z.ltb_spec bs 0); [lia |].
Qed.

Lemma ntotal_nonneg st : 0 <= ntotal st.
Proof. unfold ntotal, len. lia. Qed.

Lemma consistent_empty : consistent empty_state.
Proof. split; intros *; simpl; rewrite ?lookup_empty; done. Qed.

Lemma consistent_add env st doc bs :
  row_per_text env -> consistent st ->
  consistent (snd (add_document env st doc bs)).
Proof.
  intros Hc [Hmeta Hrows Hshare].
  destruct (add_document_state env st doc bs Hc)
    as [[_ ->] | (Hn & Hm & Hd & _)]; [by split |].
  pose proof (ntotal_nonneg st) as Hnn.
  split.
  - intros id rows idx. rewrite Hd, Hm. intros Hl Hin.
    apply store_metadata_is_Some; [apply assigned_rows_length |].
    destruct (decide (doc_id doc = id)) as [<- | Hne].
    + rewrite lookup_insert_eq in Hl. injection Hl as <-. by left.
    + rewrite lookup_insert_ne in Hl by done. right. by eapply Hmeta.
  - intros id rows idx. rewrite Hd, Hn. intros Hl Hin.
    assert (0 <= len (assigned_rows st doc bs)) by (unfold len; lia).
    destruct (decide (doc_id doc = id)) as [<- | Hne].
    + rewrite lookup_insert_eq in Hl. injection Hl as <-.
      apply assigned_rows_elem in Hin. lia.
    + rewrite lookup_insert_ne in Hl by done.
      destruct (Hrows id rows idx Hl Hin). lia.
  - intros id1 id2 rows1 rows2 idx Hne. rewrite Hd. intros H1 H2 Hin1 Hin2.
    destruct (decide (doc_id doc = id1)) as [<- | Hne1];
      destruct (decide (doc_id doc = id2)) as [<- | Hne2]; try done.
    + rewrite lookup_insert_eq in H1. rewrite lookup_insert_ne in H2 by done.
      injection H1 as <-. apply assigned_rows_elem in Hin1.
      destruct (Hrows id2 rows2 idx H2 Hin2). lia.
    + rewrite lookup_insert_eq in H2. rewrite lookup_insert_ne in H1 by done.
      injection H2 as <-. apply assigned_rows_elem in Hin2.
      destruct (Hrows id1 rows1 idx H1 Hin1). lia.
    + rewrite lookup_insert_ne in H1, H2 by done.
      by eapply (Hshare id1 id2).
Qed.

(** The state [delete_document] leaves for a known document, whether or
    not the store can then be written. *)
Lemma delete_document_known env st id rows :
  document_chunks st !! id = Some rows ->
  snd (delete_document env st id)
  = {| index := index st;
       chunk_metadata := pop_all rows (chunk_metadata st);
       document_chunks := delete id (document_chunks st) |}.
Proof.
  intros H. unfold delete_document. rewrite H.
  by destruct (_save_index env _).
Qed.

Lemma consistent_delete env st id :
  consistent st -> consistent (snd (delete_document env st id)).
Proof.
  intros Hst. destruct (document_chunks st !! id) as [rows |] eqn:Hid.
  2: { unfold delete_document. by rewrite Hid. }
  rewrite (delete_document_known env st id rows Hid).
  destruct Hst as [Hmeta Hrows Hshare]. split; simpl.
  - intros id' rows' idx Hl Hin.
    apply lookup_delete_Some in Hl as [Hne Hl].
    rewrite pop_all_lookup, decide_False; [by eapply Hmeta |].
    by eapply (Hshare id' id).
  - intros id' rows' idx Hl Hin.
    apply lookup_delete_Some in Hl as [Hne Hl]. by eapply Hrows.
  - intros id1 id2 rows1 rows2 idx Hne H1 H2.
    apply lookup_delete_Some in H1 as [_ H1].
    apply lookup_delete_Some in H2 as [_ H2]. by eapply Hshare.
Qed.

Lemma consistent_steps (ops : list op) (st : State) :
  Forall (fun o => row_per_text (op_env o)) ops ->
  consistent st -> consistent (foldl step st ops).
Proof.
  intros Hops. revert st.
  induction Hops as [|o ops Ho _ IH]; intros st Hst; simpl; [done |].
  apply IH. destruct o as [env doc bs | env id]; simpl in *.
  - by apply consistent_add.
  - by apply consistent_delete.
Qed.

Lemma consistent_run (ops : list op) :
  Forall (fun o => row_per_text (op_env o)) ops -> consistent (run ops).
Proof. intros H. apply consistent_steps; [done | apply consistent_empty]. Qed.

(** [add_document] returns the document id when the provider and the
    store do not fail. *)
Lemma add_document_returns env st doc bs :
  doc_chunks doc <> [] -> bs <> 0 ->
  (forall texts, exists rows, aembed_documents env texts = Ok rows) ->
  (forall s, write_store env s = None) ->
  fst (add_document env st doc bs) = Ok (doc_id doc).
Proof.
  intros Hchunks Hbs Hembed Hwrite. unfold add_document.
  destruct (doc_chunks doc) as [|c chunks] eqn:E; [done |]. simpl negb.
  cbv iota. destruct (Z.eqb_spec bs 0); [done |]. rewrite <- E.
  assert (Hloop : forall todo acc idxs,
             exists r, embed_loop env (ntotal st) todo acc idxs = Ok r).
  { induction todo as [|b todo IH]; intros acc idxs; simpl; [eauto |].
    unfold _create_embeddings. destruct (negb (truthy b)); [apply IH |].
    destruct (Hembed (List.map (fun text => slice_to text 25000) b))
      as [rows ->]. apply IH. }
  destruct (Hloop (if bs <? 0 then []
                   else batches (Z.to_nat bs)
                          (List.map chunk_content (doc_chunks doc))) [] [])
    as [[all idxs] ->].
  unfold _save_index. by rewrite Hwrite.
Qed.

End Bookkeeping.

(** The embedding provider of the test environments returns one vector
    per text. *)
Lemma rag_env_row_per_text hits reply :
  RagService.row_per_text (Fixtures.rag_env hits reply).
Proof. intros texts rows [= <-]. apply List.length_map. Qed.

(** C4: after any sequence of [add_document] and [delete_document] calls
    on a fresh service (whatever the calls return or raise, the provider
    giving one vector per text), every row index listed in
    [document_chunks] has an entry in [chunk_metadata] and lies below
    [ntotal]. From such a state, an [add_document] that returns, with a
    positive batch size, has registered exactly the rows
    [ntotal, ntotal + number of chunks), grown the index by that many
    vectors and stored the metadata of the chunk at each position; a
    [delete_document] of a known id removes the entries of both
    dictionaries and leaves [ntotal] as it was. *)
Theorem bookkeeping_invariant_preserved :
  forall ops : list RagService.op,
    Forall (fun o => RagService.row_per_text (RagService.op_env o)) ops ->
    let st := RagService.run ops in
    (forall id rows idx,
        RagService.document_chunks st !! id = Some rows -> idx ∈ rows ->
        is_Some (RagService.chunk_metadata st !! idx) /\
        idx + 1 <= RagService.ntotal st) /\
    (forall env doc bs r,
        RagService.row_per_text env -> 0 < bs ->
        fst (RagService.add_document env st doc bs) = Ok r ->
        let st' := snd (RagService.add_document env st doc bs) in
        r = DocumentService.doc_id doc /\
        RagService.document_chunks st' !! DocumentService.doc_id doc
        = Some (range (RagService.ntotal st)
                  (RagService.ntotal st
                   + len (DocumentService.doc_chunks doc))) /\
        RagService.ntotal st'
        = RagService.ntotal st + len (DocumentService.doc_chunks doc) /\
        (forall (k : nat) chunk,
            DocumentService.doc_chunks doc !! k = Some chunk ->
            RagService.chunk_metadata st'
              !! (RagService.ntotal st + Z.of_nat k)
            = Some (RagService.meta_of_chunk env doc chunk))) /\
    (forall env id rows,
        RagService.document_chunks st !! id = Some rows ->
        let st' := snd (RagService.delete_document env st id) in
        RagService.ntotal st' = RagService.ntotal st /\
        RagService.document_chunks st' !! id = None /\
        (forall idx, idx ∈ rows ->
                     RagService.chunk_metadata st' !! idx = None)).
Proof.
  intros ops Hops st.
  pose proof (consistent_run ops Hops) as [Hmeta Hrows _]. fold st in Hmeta, Hrows.
  split; [| split].
  - intros id rows idx Hl Hin. split; [by eapply Hmeta |].
    by destruct (Hrows id rows idx Hl Hin).
  - intros env doc bs r Hc Hbs Hok st'. subst st'.
    destruct (add_document_state env st doc bs Hc)
      as [[[e He] _] | (Hn & Hm & Hd & Hres)]; [congruence |].
    rewrite (assigned_rows_positive st doc bs Hbs) in Hn, Hm, Hd.
    assert (Hlen : len (range (RagService.ntotal st)
                          (RagService.ntotal st
                           + len (DocumentService.doc_chunks doc)))
                   = len (DocumentService.doc_chunks doc)).
    { unfold range, len. rewrite length_seqZ. lia. }
    split; [| split; [| split]].
    + destruct Hres as [Hr | (msg & _ & Hr)]; congruence.
    + by rewrite Hd, lookup_insert_eq.
    + by rewrite Hn, Hlen.
    + intros k chunk Hk. rewrite Hm.
      eapply store_metadata_lookup; [apply NoDup_seqZ | exact Hk |].
      unfold range. apply lookup_seqZ. split; [done |].
      apply lookup_lt_Some in Hk. unfold len. lia.
  - intros env id rows Hid st'. subst st'.
    rewrite (delete_document_known env st id rows Hid). simpl.
    split; [done |]. split; [apply lookup_delete_eq |].
    intros idx Hin. by rewrite pop_all_lookup, decide_True.
Qed.

(** Two documents added, the first one then deleted, on the test
    environment: the rows of the remaining document are 3, below
    [ntotal = 4], and still described. *)
Lemma bookkeeping_invariant_preserved_witness :
  let ops := [RagService.AddDocument Fixtures.env0 Fixtures.doc_a 50;
              RagService.AddDocument Fixtures.env0 Fixtures.doc_b 50;
              RagService.DeleteDocument Fixtures.env0 (lit "doc-a")] in
  RagService.document_chunks (RagService.run ops) !! lit "doc-b" = Some [3] /\
  is_Some (RagService.chunk_metadata (RagService.run ops) !! 3) /\
  3 + 1 <= RagService.ntotal (RagService.run ops).
Proof.
  intros ops.
  assert (Hops : Forall (fun o => RagService.row_per_text
                                    (RagService.op_env o)) ops)
    by (repeat constructor; apply rag_env_row_per_text).
  assert (Hb : RagService.document_chunks (RagService.run ops) !! lit "doc-b"
               = Some [3]) by (vm_compute; reflexivity).
  split; [exact Hb |].
  apply (proj1 (bookkeeping_invariant_preserved ops Hops) (lit "doc-b") [3] 3
           Hb).
  apply elem_of_cons. left. reflexivity.
Defined.

(** C7: [delete_document] on an id that is not in [document_chunks]
    returns false and leaves the state as it is. On a known id it leaves
    the index (hence [ntotal]) untouched, removes the id from
    [document_chunks], removes from [chunk_metadata] exactly the rows
    listed for the id, and returns true once the store was written (a
    failing write raises instead, after the same removal); every other
    document keeps its entry in [document_chunks] and, the rows of
    different documents being distinct, the metadata of all its rows; a
    second call on the id returns false. *)
Theorem delete_document_frame :
  forall (env : RagService.Env) (st : RagService.State) (document_id : str),
    (RagService.document_chunks st !! document_id = None ->
     RagService.delete_document env st document_id = (Ok false, st)) /\
    (forall rows,
        RagService.document_chunks st !! document_id = Some rows ->
        let out := RagService.delete_document env st document_id in
        let st' := snd out in
        (RagService.write_store env st' = None -> fst out = Ok true) /\
        (forall msg, RagService.write_store env st' = Some msg ->
                     exists e, fst out = Raise e) /\
        RagService.index st' = RagService.index st /\
        RagService.ntotal st' = RagService.ntotal st /\
        RagService.document_chunks st'
        = delete document_id (RagService.document_chunks st) /\
        (forall idx,
            RagService.chunk_metadata st' !! idx
            = if decide (idx ∈ rows) then None
              else RagService.chunk_metadata st !! idx) /\
        (forall id', id' <> document_id ->
                     RagService.document_chunks st' !! id'
                     = RagService.document_chunks st !! id') /\
        (RagService.consistent st ->
         forall id' rows' idx,
           id' <> document_id ->
           RagService.document_chunks st !! id' = Some rows' ->
           idx ∈ rows' ->
           RagService.chunk_metadata st' !! idx
           = RagService.chunk_metadata st !! idx) /\
        (forall env',
            RagService.delete_document env' st' document_id
            = (Ok false, st'))).
Proof.
  intros env st id. split.
  { intros H. unfold RagService.delete_document. by rewrite H. }
  intros rows Hid out st'. subst st' out.
  pose proof (delete_document_known env st id rows Hid) as Hst.
  split; [| split].
  - unfold RagService.delete_document, RagService._save_index in *.
    rewrite Hid in *. simpl in *.
    destruct (RagService.write_store env _) eqn:E; simpl in *; [| done].
    rewrite E. done.
  - unfold RagService.delete_document, RagService._save_index in *.
    rewrite Hid in *. simpl in *.
    destruct (RagService.write_store env _) eqn:E; simpl in *.
    + intros msg _. eauto.
    + intros msg Hm. rewrite E in Hm. done.
  - rewrite Hst. simpl. split; [done |]. split; [done |]. split; [done |].
    split; [apply pop_all_lookup |]. split; [| split].
    + intros id' Hne. by rewrite lookup_delete_ne.
    + intros [_ _ Hshare] id' rows' idx Hne Hl Hin.
      rewrite pop_all_lookup, decide_False; [done |].
      by eapply (Hshare id' id).
    + intros env'. unfold RagService.delete_document. simpl.
      by rewrite lookup_delete_eq.
Qed.

(** [doc_a] (rows 0, 1, 2) deleted from the store that also holds [doc_b]
    (row 3); then deleted again. *)
Lemma delete_document_frame_witness :
  let out := RagService.delete_document Fixtures.env0 Fixtures.two_docs
               (lit "doc-a") in
  fst out = Ok true /\
  RagService.ntotal (snd out) = 4 /\
  RagService.document_chunks (snd out) !! lit "doc-a" = None /\
  RagService.chunk_metadata (snd out) !! 1 = None /\
  RagService.chunk_metadata (snd out) !! 3
  = RagService.chunk_metadata Fixtures.two_docs !! 3 /\
  fst (RagService.delete_document Fixtures.env0 (snd out) (lit "doc-a"))
  = Ok false.
Proof.
  intros out.
  assert (Ha : RagService.document_chunks Fixtures.two_docs !! lit "doc-a"
               = Some [0; 1; 2]) by (vm_compute; reflexivity).
  destruct (proj2 (delete_document_frame Fixtures.env0 Fixtures.two_docs
                     (lit "doc-a")) [0; 1; 2] Ha)
    as (Hok & _ & _ & Hn & Hd & Hm & _ & _ & Hagain).
  fold out in Hok, Hn, Hd, Hm, Hagain.
  split; [apply Hok; reflexivity |].
  split; [rewrite Hn; reflexivity |].
  split; [rewrite Hd; apply lookup_delete_eq |].
  split; [rewrite Hm; reflexivity |].
  split; [rewrite Hm; reflexivity |].
  by rewrite Hagain.
Defined.

(** ** Similarity search *)

Section Search.

Import RagService.

Lemma insert_desc_perm (x : SearchResult) (l : list SearchResult) :
  Permutation (insert_desc x l) (x :: l).
Proof.
  induction l as [|y l IH]; simpl; [done |].
  destruct (Qltb (score x) (score y)); [| done].
  rewrite IH. apply perm_swap.
Qed.

Lemma sort_desc_perm (l : list SearchResult) : Permutation (sort_desc l) l.
Proof.
  induction l as [|x l IH]; simpl; [done |].
  by rewrite insert_desc_perm, IH.
Qed.

Lemma insert_desc_sorted (x : SearchResult) (l : list SearchResult) :
  StronglySorted by_score_desc l ->
  StronglySorted by_score_desc (insert_desc x l).
Proof.
  induction 1 as [|y l Hs IH Hy]; simpl.
  - constructor; constructor.
  - destruct (Qltb (score x) (score y)) eqn:Hxy.
    + constructor; [done |].
      rewrite insert_desc_perm. constructor; [| done].
      apply Qltb_lt in Hxy. unfold by_score_desc. lra.
    + apply Qltb_ge in Hxy. constructor; [by constructor |].
      constructor; [done |].
      eapply Forall_impl; [exact Hy |].
      unfold by_score_desc. intros z Hz. simpl in *. lra.
Qed.

Lemma sort_desc_sorted (l : list SearchResult) :
  StronglySorted by_score_desc (sort_desc l).
Proof.
  induction l as [|x l IH]; simpl; [constructor |].
  by apply insert_desc_sorted.
Qed.

(** What a hit must satisfy to give a result, and the result it gives. *)
Lemma result_of_hit_Some st (thr : Q) (hit : Q * Z) (r : SearchResult) :
  result_of_hit st thr hit = Some r <->
  exists meta,
    hit.2 <> -1 /\ chunk_metadata st !! hit.2 = Some meta /\
    (thr <= 1 / (1 + hit.1))%Q /\
    r = {| document_id := meta_document_id meta;
           chunk_id := meta_chunk_id meta;
           content := meta_content meta;
           score := (1 / (1 + hit.1))%Q;
           metadata := meta_metadata meta |}.
Proof.
  destruct hit as [d idx]. unfold result_of_hit. simpl.
  destruct (Z.eqb_spec idx (-1)) as [-> | Hidx].
  { split; [done | by intros (? & ? & _)]. }
  destruct (Qltb (1 / (1 + d)) thr) eqn:Hthr.
  { apply Qltb_lt in Hthr. split; [done |]. intros (? & _ & _ & Hle & _). lra. }
  apply Qltb_ge in Hthr.
  destruct (chunk_metadata st !! idx) as [meta |] eqn:Hmeta.
  - split.
    + intros [= <-]. by exists meta.
    + intros (meta' & _ & [= <-] & _ & ->). done.
  - split; [done | by intros (? & _ & ? & _)].
Qed.

(** The threshold the code applies is never below the one the caller
    asked for, the configured default being non-negative. *)
Lemma float_or_ge (score_threshold : option Q) (default : Q) :
  (0 <= default)%Q ->
  (match score_threshold with Some t => t | None => default end
   <= float_or score_threshold default)%Q.
Proof.
  intros Hd. destruct score_threshold as [t |]; simpl; [| lra].
  destruct (Qeq_bool t 0) eqn:E; [| lra].
  apply Qeq_bool_iff in E. lra.
Qed.

(** The threshold the code applies is the supplied one unless that is
    absent or zero. *)
Lemma float_or_supplied (t default : Q) :
  ~ (t == 0)%Q -> float_or (Some t) default = t.
Proof.
  intros Ht. simpl. destruct (Qeq_bool t 0) eqn:E; [| done].
  by apply Qeq_bool_iff in E.
Qed.

(** The list [search_similar] returns once the query is embedded. *)
Lemma search_similar_returns env st (query : str) (k : Z)
    (score_threshold : option Q) (query_embedding : vector) :
  strip query <> [] -> 0 < k -> 0 < ntotal st ->
  aembed_query env query = Ok query_embedding ->
  search_similar env st query k score_threshold
  = Ok (if truthy query_embedding then
          sort_desc
            (omap (result_of_hit st
                     (float_or score_threshold
                        (similarity_threshold (settings env))))
               (index_search env (index st) query_embedding
                  (Z.min k (ntotal st))))
        else []).
Proof.
  intros Hq Hk Hn He. unfold search_similar.
  destruct (strip query) as [|c q]; [done |]. simpl negb. cbv iota.
  destruct (Z.leb_spec k 0); [lia |].
  destruct (Z.eqb_spec (ntotal st) 0); [lia |].
  rewrite He. by destruct query_embedding.
Qed.

End Search.

(** C5: on an index that holds a vector, for a non-blank query and a
    positive [k], once the query is embedded [search_similar] returns a
    list in which every result stems from a hit [(d, idx)] of the index
    scan with [idx] other than the sentinel -1 and with an entry
    in [chunk_metadata], carries the score [1 / (1 + d)] and the fields of
    that entry, and has a score that is not below the threshold (the
    parameter when supplied, else the configured default); the list is
    sorted by score, highest first. *)
Theorem search_similar_filters_and_sorts :
  forall (env : RagService.Env) (st : RagService.State) (query : str)
         (k : Z) (score_threshold : option Q)
         (query_embedding : list Q),
    (0 <= similarity_threshold (RagService.settings env))%Q ->
    strip query <> [] -> 0 < k -> 0 < RagService.ntotal st ->
    RagService.aembed_query env query = Ok query_embedding ->
    let hits :=
      RagService.index_search env (RagService.index st) query_embedding
        (Z.min k (RagService.ntotal st)) in
    let threshold :=
      match score_threshold with
      | Some t => t
      | None => similarity_threshold (RagService.settings env)
      end in
    exists results,
      RagService.search_similar env st query k score_threshold = Ok results /\
      (forall r, r ∈ results ->
         exists d idx meta,
           (d, idx) ∈ hits /\ idx <> -1 /\
           RagService.chunk_metadata st !! idx = Some meta /\
           RagService.score r = (1 / (1 + d))%Q /\
           ~ (RagService.score r < threshold)%Q /\
           RagService.document_id r = RagService.meta_document_id meta /\
           RagService.chunk_id r = RagService.meta_chunk_id meta /\
           RagService.content r = RagService.meta_content meta) /\
      StronglySorted RagService.by_score_desc results.
Proof.
  intros env st query k score_threshold emb Hdef Hq Hk Hn He hits threshold.
  eexists. split; [by apply search_similar_returns |].
  destruct (truthy emb).
  2: { split; [by intros r ?%not_elem_of_nil | constructor]. }
  split; [| apply sort_desc_sorted].
  intros r Hr. rewrite sort_desc_perm in Hr.
  apply list_elem_of_omap in Hr as ([d idx] & Hin & Hres).
  apply result_of_hit_Some in Hres as (meta & Hidx & Hmeta & Hthr & ->).
  simpl in *. exists d, idx, meta. repeat split; try done.
  pose proof (float_or_ge score_threshold _ Hdef) as Hge.
  fold threshold in Hge. intros Hlt. lra.
Qed.

(** The store with a deleted document, scanned with the default threshold
    0.8: row 2 (score 10/11) comes before row 0 (score 4/5); row 1
    (score 1/2) and the row without metadata are left out. *)
Lemma search_similar_filters_and_sorts_witness :
  exists results,
    RagService.search_similar Fixtures.env_scan Fixtures.after_delete
      (lit "what is gamma?") 5 None = Ok results /\
    List.map RagService.content results = [lit "gamma"; lit "alpha"] /\
    List.map RagService.score results = [(10 # 11)%Q; (4 # 5)%Q] /\
    StronglySorted RagService.by_score_desc results.
Proof.
  destruct (search_similar_filters_and_sorts Fixtures.env_scan
              Fixtures.after_delete (lit "what is gamma?") 5 None [1%Q]
              ltac:(vm_compute; discriminate) ltac:(vm_compute; discriminate)
              eq_refl eq_refl eq_refl)
    as (results & Hres & _ & Hsorted).
  exists results. split; [exact Hres |].
  assert (Hc : exists rs,
             RagService.search_similar Fixtures.env_scan Fixtures.after_delete
               (lit "what is gamma?") 5 None = Ok rs /\
             List.map RagService.content rs = [lit "gamma"; lit "alpha"] /\
             List.map RagService.score rs = [(10 # 11)%Q; (4 # 5)%Q])
    by (vm_compute; eexists; repeat split; reflexivity).
  destruct Hc as (rs & Hrs & Hcontent & Hscore).
  rewrite Hres in Hrs. injection Hrs as <-. auto.
Defined.

(** Nothing else is dropped when the threshold is left to the default or
    supplied and not zero: every hit with a row other than the sentinel,
    with metadata and with a score that reaches the threshold is in the
    list. *)
Lemma search_similar_complete
    (env : RagService.Env) (st : RagService.State) (query : str) (k : Z)
    (score_threshold : option Q) (query_embedding : list Q)
    (d : Q) (idx : Z) (meta : RagService.ChunkMeta) :
  strip query <> [] -> 0 < k -> 0 < RagService.ntotal st ->
  RagService.aembed_query env query = Ok query_embedding ->
  query_embedding <> [] ->
  match score_threshold with Some t => ~ (t == 0)%Q | None => True end ->
  (d, idx) ∈ RagService.index_search env (RagService.index st)
               query_embedding (Z.min k (RagService.ntotal st)) ->
  idx <> -1 -> RagService.chunk_metadata st !! idx = Some meta ->
  (match score_threshold with
   | Some t => t
   | None => similarity_threshold (RagService.settings env)
   end <= 1 / (1 + d))%Q ->
  exists results r,
    RagService.search_similar env st query k score_threshold = Ok results /\
    r ∈ results /\ RagService.score r = (1 / (1 + d))%Q /\
    RagService.content r = RagService.meta_content meta.
Proof.
  intros Hq Hk Hn He Hemb Hthr Hin Hidx Hmeta Hscore.
  eexists. eexists. split; [by apply search_similar_returns |].
  destruct query_embedding as [|x emb]; [done |]. simpl truthy. cbv iota.
  split; [| split].
  - rewrite sort_desc_perm. apply list_elem_of_omap.
    exists (d, idx). split; [done |].
    apply result_of_hit_Some. exists meta. simpl.
    repeat split; try done.
    destruct score_threshold as [t |]; [| done].
    by rewrite float_or_supplied.
  - done.
  - done.
Qed.

(** A supplied threshold of 0.0 is falsy and gives way to the default: the
    hit of score 1/2 is dropped although it is not below zero. *)
Lemma search_similar_zero_threshold :
  RagService.search_similar Fixtures.env_scan Fixtures.after_delete
    (lit "what is gamma?") 5 (Some 0%Q)
  = RagService.search_similar Fixtures.env_scan Fixtures.after_delete
      (lit "what is gamma?") 5 None.
Proof. reflexivity. Qed.

(** ** Answering a question *)

Section Answer.

Import RagService.

Lemma content_total_nonneg (results : list SearchResult) :
  0 <= content_total results.
Proof.
  induction results as [|r rest IH]; simpl; [done |]. unfold len. lia.
Qed.

(** The used sources are the accumulator followed by a prefix of the
    search results. *)
Lemma build_context_used limit (results : list SearchResult)
    (parts : list str) (total : Z) (used : list SearchResult) :
  exists pre post,
    results = pre ++ post /\
    snd (build_context limit results parts total used) = used ++ pre.
Proof.
  revert parts total used.
  induction results as [|r rest IH]; intros parts total used; simpl.
  - exists [], []. split; [done | by rewrite app_nil_r].
  - destruct (total + len (content r) >? limit).
    + exists [], (r :: rest). rewrite app_nil_r.
      split; [done | by destruct (limit - total >? 100)].
    + destruct (IH (parts ++ [lit "Source: " ++ content r])
                  (total + len (content r)) (used ++ [r]))
        as (pre & post & -> & Hused).
      exists (r :: pre), post. split; [done |].
      rewrite <- app_assoc in Hused. exact Hused.
Qed.

(** When everything fits, every result is used in full. *)
Lemma build_context_fits limit (results : list SearchResult)
    (parts : list str) (total : Z) (used : list SearchResult) :
  total + content_total results <= limit ->
  build_context limit results parts total used
  = (parts ++ List.map full_part results, used ++ results).
Proof.
  revert parts total used.
  induction results as [|r rest IH]; intros parts total used Hfit; simpl.
  - by rewrite !app_nil_r.
  - simpl in Hfit. pose proof (content_total_nonneg rest).
    destruct (Z.gtb_spec (total + len (content r)) limit); [lia |].
    rewrite IH by lia. by rewrite <- !app_assoc.
Qed.

(** When the results [pre] fit and the next one, [r], does not: [pre] is
    used in full, [r] contributes a cut excerpt if more than 100 characters
    are left, and the used sources are [pre] in either case. *)
Lemma build_context_overflow limit (pre : list SearchResult)
    (r : SearchResult) (post : list SearchResult)
    (parts : list str) (total : Z) (used : list SearchResult) :
  total + content_total pre <= limit ->
  limit < total + content_total pre + len (content r) ->
  let remaining_space := limit - (total + content_total pre) in
  build_context limit (pre ++ r :: post) parts total used
  = (parts ++ List.map full_part pre
     ++ (if remaining_space >? 100 then [partial_part remaining_space r]
         else []),
     used ++ pre).
Proof.
  revert parts total used.
  induction pre as [|p pre IH]; intros parts total used Hfit Hover; simpl.
  - simpl in *. rewrite Z.add_0_r in *.
    destruct (Z.gtb_spec (total + len (content r)) limit); [| lia].
    destruct (limit - total >? 100); rewrite ?app_nil_r; reflexivity.
  - simpl in Hfit, Hover. pose proof (content_total_nonneg pre).
    destruct (Z.gtb_spec (total + len (content p)) limit); [lia |].
    rewrite IH by lia.
    replace (limit - (total + len (content p) + content_total pre))
      with (limit - (total + (len (content p) + content_total pre))) by lia.
    by rewrite <- !app_assoc.
Qed.

Lemma search_similar_sorted env st (query : str) (k : Z)
    (score_threshold : option Q) (results : list SearchResult) :
  search_similar env st query k score_threshold = Ok results ->
  StronglySorted by_score_desc results.
Proof.
  unfold search_similar.
  repeat case_match; intros [= <-];
    try constructor; apply sort_desc_sorted.
Qed.

Lemma StronglySorted_prefix {A} (R : A -> A -> Prop) (l1 l2 : list A) :
  StronglySorted R (l1 ++ l2) -> StronglySorted R l1.
Proof.
  induction l1 as [|x l1 IH]; simpl; [constructor |].
  intros H. apply StronglySorted_inv in H as [Hs Hx].
  constructor; [by apply IH |].
  apply Forall_app in Hx as [Hx _]. done.
Qed.

(** What a call of [answer_question] that returns went through. *)
Lemma answer_question_Ok env st (question : str) (context_limit max_results : Z)
    (resp : AnswerResponse) :
  answer_question env st question context_limit max_results = Ok resp ->
  exists search_results,
    search_similar env st question max_results None = Ok search_results /\
    let out := build_context context_limit search_results [] 0 [] in
    ainvoke env system_message
      (_create_qa_prompt question (join context_separator (fst out)))
    = Ok (answer resp) /\
    RagService.question resp = question /\
    sources resp = snd out /\
    confidence resp
    = if truthy (snd out) then _calculate_confidence (snd out) else 0%Q.
Proof.
  unfold answer_question.
  destruct (negb (truthy (strip question))); [done |].
  destruct (search_similar env st question max_results None)
    as [search_results | e]; [| done].
  destruct (build_context context_limit search_results [] 0 [])
    as [parts used] eqn:Hb.
  destruct (ainvoke env system_message _) as [reply | e] eqn:Hi; [| done].
  intros [= <-]. exists search_results. rewrite Hb. simpl. by rewrite Hi.
Qed.

(** [answer_question] returns whenever the question is not blank, the
    search returns and the chat model replies. *)
Lemma answer_question_returns env st (question : str)
    (context_limit max_results : Z) (search_results : list SearchResult)
    (reply : str) :
  strip question <> [] ->
  search_similar env st question max_results None = Ok search_results ->
  let out := build_context context_limit search_results [] 0 [] in
  ainvoke env system_message
    (_create_qa_prompt question (join context_separator (fst out)))
  = Ok reply ->
  answer_question env st question context_limit max_results
  = Ok {| answer := reply;
          RagService.question := question;
          sources := snd out;
          confidence := if truthy (snd out)
                        then _calculate_confidence (snd out) else 0%Q |}.
Proof.
  intros Hq Hs out Hi. subst out. unfold answer_question.
  destruct (strip question); [done |]. simpl negb. cbv iota.
  rewrite Hs.
  destruct (build_context context_limit search_results [] 0 [])
    as [parts used]. simpl in *. by rewrite Hi.
Qed.

Lemma fmin_Qmin (a b : Q) : (fmin a b == Qmin a b)%Q.
Proof.
  unfold fmin. destruct (Qltb b a) eqn:E.
  - apply Qltb_lt in E. rewrite Q.min_r; lra.
  - apply Qltb_ge in E. rewrite Q.min_l; lra.
Qed.

(** The value of [_calculate_confidence] on a non-empty list. *)
Lemma calculate_confidence_formula (top : SearchResult)
    (rest : list SearchResult) :
  (_calculate_confidence (top :: rest)
   == Qmin 1 (score top * (7 # 10)
              + Qmin (inject_Z (len (top :: rest)) / 3) 1 * (3 # 10)))%Q.
Proof.
  unfold _calculate_confidence.
  rewrite fmin_Qmin, Q.min_comm.
  apply Q.min_compat; [reflexivity |].
  by rewrite fmin_Qmin.
Qed.

End Answer.

(** C6: in every answer [answer_question] returns, the confidence is 0
    when no source was used; otherwise it is
    [min(1, top_score * 0.7 + min(count / 3, 1) * 0.3)], where [count] is
    the number of used sources and [top_score] the score of a used source
    that no other used source exceeds. *)
Theorem confidence_formula :
  forall (env : RagService.Env) (st : RagService.State) (question : str)
         (context_limit max_results : Z) (resp : RagService.AnswerResponse),
    RagService.answer_question env st question context_limit max_results
    = Ok resp ->
    (RagService.sources resp = [] -> RagService.confidence resp = 0%Q) /\
    (RagService.sources resp <> [] ->
     exists top,
       top ∈ RagService.sources resp /\
       (forall s, s ∈ RagService.sources resp ->
                  (RagService.score s <= RagService.score top)%Q) /\
       (RagService.confidence resp
        == Qmin 1 (RagService.score top * (7 # 10)
                   + Qmin (inject_Z (len (RagService.sources resp)) / 3) 1
                     * (3 # 10)))%Q).
Proof.
  intros env st question limit maxr resp Hok.
  apply answer_question_Ok in Hok
    as (results & Hsearch & _ & _ & Hsrc & Hconf).
  cbv zeta in *.
  destruct (build_context_used limit results [] 0 [])
    as (pre & post & Hres & Hused).
  simpl in Hused. rewrite Hused in Hsrc, Hconf.
  apply search_similar_sorted in Hsearch. rewrite Hres in Hsearch.
  apply StronglySorted_prefix in Hsearch.
  rewrite Hsrc. destruct pre as [|top rest].
  - split; [done | by intros].
  - split; [done |]. intros _. exists top.
    split; [apply elem_of_cons; by left |]. split.
    + apply StronglySorted_inv in Hsearch as [_ Htop].
      intros s [-> | Hs]%elem_of_cons; [lra |].
      rewrite Forall_forall in Htop. by apply Htop.
    + rewrite Hconf. simpl truthy. cbv iota.
      apply calculate_confidence_formula.
Qed.

(** Three sources with the scores 0.9, 0.85 and 0.8, all used: the
    confidence is 0.93. *)
Lemma confidence_formula_witness :
  exists resp,
    RagService.answer_question Fixtures.env_scan3 Fixtures.two_docs
      (lit "what is alpha?") 4000 5 = Ok resp /\
    List.map RagService.score (RagService.sources resp)
    = [(9 # 10)%Q; (17 # 20)%Q; (4 # 5)%Q] /\
    (RagService.confidence resp == 93 # 100)%Q.
Proof.
  assert (Hc : exists resp,
             RagService.answer_question Fixtures.env_scan3 Fixtures.two_docs
               (lit "what is alpha?") 4000 5 = Ok resp /\
             List.map RagService.score (RagService.sources resp)
             = [(9 # 10)%Q; (17 # 20)%Q; (4 # 5)%Q])
    by (vm_compute; eexists; split; reflexivity).
  destruct Hc as (resp & Hok & Hscores). exists resp.
  split; [exact Hok |]. split; [exact Hscores |].
  destruct (confidence_formula _ _ _ _ _ _ Hok) as [_ Hpos].
  destruct (RagService.sources resp) as [|s0 [|s1 [|s2 [|s3 rest]]]] eqn:Hs;
    try discriminate.
  injection Hscores as H0 H1 H2.
  destruct (Hpos ltac:(discriminate)) as (top & Hin & Hmax & ->).
  assert (Htop : (RagService.score top == 9 # 10)%Q).
  { apply Qle_antisym.
    - rewrite !elem_of_cons in Hin.
      destruct Hin as [-> | [-> | [-> | Hin]]];
        [rewrite H0 | rewrite H1 | rewrite H2 | by apply not_elem_of_nil in Hin];
        by vm_compute.
    - rewrite <- H0. apply Hmax, elem_of_cons. by left. }
  rewrite Htop. by vm_compute.
Defined.

(** C1, where the code departs from it: with a context limit of 150, a
    first chunk of 20 characters and a second chunk of 240, the second
    chunk overflows with 130 characters left, so its excerpt, cut at the
    last space and followed by "...", becomes the second context part and
    reaches the chat model (which here echoes its prompt), but the used
    sources the answer reports hold the first chunk only. *)
Theorem partial_excerpt_not_in_used_sources :
  RagService.search_similar Fixtures.env_echo Fixtures.long_store
    (lit "what?") 5 None
  = Ok [Fixtures.short_result; Fixtures.long_result] /\
  RagService.build_context 150
    [Fixtures.short_result; Fixtures.long_result] [] 0 []
  = ([RagService.full_part Fixtures.short_result;
      lit "Source: " ++ mjoin (replicate 20 (lit "lorem ")) ++ lit "lorem..."],
     [Fixtures.short_result]) /\
  exists resp,
    RagService.answer_question Fixtures.env_echo Fixtures.long_store
      (lit "what?") 150 5 = Ok resp /\
    contains (RagService.partial_part 130 Fixtures.long_result)
      (RagService.answer resp) = true /\
    RagService.sources resp = [Fixtures.short_result].
Proof.
  split; [vm_compute; reflexivity |].
  split; [vm_compute; reflexivity |].
  vm_compute. eexists. repeat split; reflexivity.
Qed.

(** The same on a first chunk that does not fit at all: the context is
    the excerpt alone and no source is recorded, so the answer built on it
    is reported with confidence 0. *)
Lemma excerpt_only_context_has_no_source :
  RagService.build_context 150 [Fixtures.long_result] [] 0 []
  = ([RagService.partial_part 150 Fixtures.long_result], []).
Proof. vm_compute. reflexivity. Qed.

(** What holds of the claim: the chunks recorded as used sources are
    exactly those appended in full, in score order. *)
Lemma used_sources_are_full_chunks limit
    (pre : list RagService.SearchResult) (r : RagService.SearchResult)
    (post : list RagService.SearchResult) :
  RagService.content_total pre <= limit ->
  limit < RagService.content_total pre + len (RagService.content r) ->
  snd (RagService.build_context limit (pre ++ r :: post) [] 0 []) = pre /\
  (100 < limit - RagService.content_total pre ->
   fst (RagService.build_context limit (pre ++ r :: post) [] 0 [])
   = List.map RagService.full_part pre
     ++ [RagService.partial_part
           (limit - RagService.content_total pre) r]) /\
  (limit - RagService.content_total pre <= 100 ->
   fst (RagService.build_context limit (pre ++ r :: post) [] 0 [])
   = List.map RagService.full_part pre).
Proof.
  intros Hfit Hover.
  rewrite build_context_overflow by lia. cbv zeta. simpl fst. simpl snd.
  rewrite Z.add_0_l.
  split; [done |]. split; intros H.
  - by destruct (Z.gtb_spec (limit - RagService.content_total pre) 100);
      [| lia].
  - destruct (Z.gtb_spec (limit - RagService.content_total pre) 100);
      [lia |]. by rewrite app_nil_r.
Qed.

(** ** Answering a batch of questions *)

Section Batch.

Import RagService UrlDocumentService.

Variable uenv : UrlEnv.

Lemma answer_loop_spec st (questions : list str) (answers : list str) :
  answer_loop uenv st questions answers
  = answers ++ (answer_slot uenv st <$> questions).
Proof.
  revert answers.
  induction questions as [|q questions IH]; intros answers; simpl.
  - by rewrite app_nil_r.
  - by rewrite IH, <- app_assoc.
Qed.

End Batch.

(** C8: once the document was downloaded, is within the size limit, was
    processed and added to the store, [process_and_answer_questions]
    returns a list with one string per question, in the order of the
    questions: the inline error string when [answer_question] raises for
    that question, the fixed fallback sentence when the answer is empty
    after the UTF-8 round trip and trimming, and the cleaned answer
    otherwise. No outcome of a single question makes the call raise. *)
Theorem one_answer_per_question :
  forall (uenv : UrlDocumentService.UrlEnv) (st st' : RagService.State)
         (url : str) (questions : list str) (temp_path content_type : str)
         (file_size : Z) (processed_document : DocumentService.ProcessedDocument)
         (id : str),
    UrlDocumentService.download_document uenv url
    = Ok (temp_path, content_type, file_size) ->
    file_size
    <= max_file_size (RagService.settings (UrlDocumentService.rag_env uenv)) ->
    UrlDocumentService.process_file uenv temp_path = Ok processed_document ->
    RagService.add_document (UrlDocumentService.rag_env uenv) st
      processed_document 50 = (Ok id, st') ->
    exists answers,
      UrlDocumentService.process_and_answer_questions uenv st url questions
      = (Ok answers, st') /\
      length answers = length questions /\
      (forall (i : nat) q,
          questions !! i = Some q ->
          answers !! i
          = Some
              match RagService.answer_question
                      (UrlDocumentService.rag_env uenv) st' q 4000 5 with
              | Raise e => lit "Error processing question: " ++ exn_message e
              | Ok result =>
                  let cleaned :=
                    strip (utf8_ignore_roundtrip (RagService.answer result)) in
                  match cleaned with
                  | [] => lit "I could not find sufficient information to answer this question."
                  | _ :: _ => cleaned
                  end
              end).
Proof.
  intros uenv st st' url questions temp_path content_type file_size doc id
         Hdl Hsize Hproc Hadd.
  exists (UrlDocumentService.answer_slot uenv st' <$> questions).
  split; [| split].
  - unfold UrlDocumentService.process_and_answer_questions.
    rewrite Hdl.
    destruct (Z.gtb_spec file_size
                (max_file_size
                   (RagService.settings (UrlDocumentService.rag_env uenv))));
      [lia |].
    rewrite Hproc, Hadd. by rewrite answer_loop_spec.
  - apply length_fmap.
  - intros i q Hq. rewrite list_lookup_fmap, Hq. simpl. f_equal.
    unfold UrlDocumentService.answer_slot, UrlDocumentService.clean.
    destruct (RagService.answer_question _ st' q 4000 5) as [result | e];
      [| done].
    cbv zeta. by destruct (strip _).
Qed.

(** A question the model answers with a lone surrogate and a blank, and a
    blank question: the first slot holds the fallback sentence, the second
    the inline error. *)
Lemma one_answer_per_question_witness :
  exists st',
    UrlDocumentService.process_and_answer_questions Fixtures.url_env0
      RagService.empty_state (lit "https://example.org/notes.txt")
      [lit "what is alpha?"; lit "  "]
    = (Ok [lit "I could not find sufficient information to answer this question.";
           lit "Error processing question: Question cannot be empty"],
       st').
Proof.
  destruct (RagService.add_document
              (UrlDocumentService.rag_env Fixtures.url_env0)
              RagService.empty_state Fixtures.doc_a 50) as [r st'] eqn:Hadd.
  assert (Hr : r = Ok (lit "doc-a")).
  { change r with (fst (r, st')). rewrite <- Hadd. vm_compute. reflexivity. }
  subst r. exists st'.
  destruct (one_answer_per_question Fixtures.url_env0 RagService.empty_state
              st' (lit "https://example.org/notes.txt")
              [lit "what is alpha?"; lit "  "]
              (lit "/tmp/tmp0001.txt") (lit "text/plain") 64 Fixtures.doc_a
              (lit "doc-a") eq_refl ltac:(vm_compute; discriminate) eq_refl
              Hadd)
    as (answers & Hres & Hlen & Hslot).
  rewrite Hres. f_equal. f_equal.
  destruct answers as [|a0 [|a1 [|a2 rest]]]; try discriminate.
  pose proof (Hslot 0%nat _ eq_refl) as H0.
  pose proof (Hslot 1%nat _ eq_refl) as H1.
  simpl in H0, H1. injection H0 as ->. injection H1 as ->.
  assert (Hst : st' = snd (RagService.add_document
                             (UrlDocumentService.rag_env Fixtures.url_env0)
                             RagService.empty_state Fixtures.doc_a 50))
    by (by rewrite Hadd).
  rewrite Hst. vm_compute. reflexivity.
Defined.

(** ** More on the vector store *)

Section StoreFacts.

Import DocumentService RagService RagStatistics.

Lemma store_metadata_is_Some_inv env doc chunks (idxs : list Z)
    (m : gmap Z ChunkMeta) (idx : Z) :
  is_Some (store_metadata env doc chunks idxs m !! idx) ->
  idx ∈ idxs \/ is_Some (m !! idx).
Proof.
  intros H. destruct (decide (idx ∈ idxs)) as [Hin | Hout]; [by left |].
  right. by rewrite store_metadata_other in H.
Qed.

Lemma assigned_rows_nodup st doc bs : NoDup (assigned_rows st doc bs).
Proof.
  unfold assigned_rows, range. destruct (bs <? 0); [constructor |].
  apply NoDup_seqZ.
Qed.

Lemma well_formed_empty : well_formed empty_state.
Proof.
  split; [apply consistent_empty | |]; simpl.
  - intros idx [x Hx]. by rewrite lookup_empty in Hx.
  - intros id rows H. by rewrite lookup_empty in H.
Qed.

Lemma well_formed_add env st doc bs :
  row_per_text env -> well_formed st ->
  well_formed (snd (add_document env st doc bs)).
Proof.
  intros Hc [Hcons Hkeys Hnd].
  split; [by apply consistent_add | |];
    destruct (add_document_state env st doc bs Hc)
      as [[_ ->] | (Hn & Hm & Hd & _)]; try done.
  - intros idx. rewrite Hm, Hn. intros H.
    assert (0 <= len (assigned_rows st doc bs)) by (unfold len; lia).
    apply store_metadata_is_Some_inv in H as [Hin | Hold].
    + apply assigned_rows_elem in Hin. pose proof (ntotal_nonneg st). lia.
    + apply Hkeys in Hold. lia.
  - intros id rows. rewrite Hd.
    destruct (decide (doc_id doc = id)) as [<- | Hne].
    + rewrite lookup_insert_eq. intros [= <-]. apply assigned_rows_nodup.
    + rewrite lookup_insert_ne by done. apply Hnd.
Qed.

Lemma well_formed_delete env st id :
  well_formed st -> well_formed (snd (delete_document env st id)).
Proof.
  intros [Hcons Hkeys Hnd].
  split; [by apply consistent_delete | |];
    (destruct (document_chunks st !! id) as [rows |] eqn:Hid;
     [rewrite (delete_document_known env st id rows Hid)
     | unfold delete_document; rewrite Hid]); simpl; try done.
  - intros idx. rewrite pop_all_lookup. case_decide; [by intros [? ?] |].
    apply Hkeys.
  - intros id' rows' [_ H]%lookup_delete_Some. by eapply Hnd.
Qed.

Lemma well_formed_steps (ops : list op) (st : State) :
  Forall (fun o => row_per_text (op_env o)) ops ->
  well_formed st -> well_formed (foldl step st ops).
Proof.
  intros Hops. revert st.
  induction Hops as [|o ops Ho _ IH]; intros st Hst; simpl; [done |].
  apply IH. destruct o as [env doc bs | env id]; simpl in *.
  - by apply well_formed_add.
  - by apply well_formed_delete.
Qed.

Lemma well_formed_run (ops : list op) :
  Forall (fun o => row_per_text (op_env o)) ops -> well_formed (run ops).
Proof. intros H. apply well_formed_steps; [done | apply well_formed_empty]. Qed.

(** A dictionary keyed by rows below [n] has at most [n] entries. *)
Lemma size_bounded_keys {A} (m : gmap Z A) (n : Z) :
  (forall idx, is_Some (m !! idx) -> 0 <= idx /\ idx < n) ->
  Z.of_nat (size m) <= Z.max 0 n.
Proof.
  intros Hkeys.
  assert (Hsub : dom m ⊆ (list_to_set (seqZ 0 n) : gset Z)).
  { intros idx Hin. apply elem_of_dom in Hin. apply Hkeys in Hin.
    apply elem_of_list_to_set, elem_of_seqZ. lia. }
  apply subseteq_size in Hsub.
  rewrite size_dom, size_list_to_set, length_seqZ in Hsub
    by apply NoDup_seqZ.
  lia.
Qed.

(** Popping distinct keys that are all present shrinks the dictionary by
    their number. *)
Lemma pop_all_size (rows : list Z) (m : gmap Z ChunkMeta) :
  NoDup rows -> (forall idx, idx ∈ rows -> is_Some (m !! idx)) ->
  (size (pop_all rows m) + length rows = size m)%nat.
Proof.
  unfold pop_all. revert m.
  induction rows as [|r rows IH]; intros m Hnd Hall; simpl; [lia |].
  apply NoDup_cons in Hnd as [Hfresh Hnd].
  assert (Hr : is_Some (m !! r)) by (apply Hall, elem_of_cons; by left).
  assert (Hrest : forall idx, idx ∈ rows -> is_Some (delete r m !! idx)).
  { intros idx Hin. rewrite lookup_delete_ne.
    - apply Hall, elem_of_cons. by right.
    - intros ->. done. }
  specialize (IH (delete r m) Hnd Hrest).
  pose proof (map_size_delete_Some r m Hr) as Hd.
  assert (size m <> 0)%nat.
  { destruct Hr as [x Hx]. intros Hz. apply map_size_empty_inv in Hz.
    subst m. by rewrite lookup_empty in Hx. }
  lia.
Qed.

End StoreFacts.

(** X1: after any sequence of calls on a fresh service, [get_stats] never
    reports more chunks than the index holds vectors: metadata is only
    ever kept for rows of the index. *)
Theorem stats_chunks_within_index :
  forall (ops : list RagService.op) (env : RagService.Env),
    Forall (fun o => RagService.row_per_text (RagService.op_env o)) ops ->
    let stats := RagStatistics.get_stats env (RagService.run ops) in
    (forall idx,
        is_Some (RagService.chunk_metadata (RagService.run ops) !! idx) ->
        0 <= idx < RagStatistics.vector_store_size stats) /\
    RagStatistics.total_chunks stats <= RagStatistics.vector_store_size stats.
Proof.
  intros ops env Hops stats.
  destruct (well_formed_run ops Hops) as [_ Hkeys _].
  split; [intros idx H; by apply Hkeys in H |].
  pose proof (size_bounded_keys _ _ Hkeys) as Hsize.
  pose proof (ntotal_nonneg (RagService.run ops)).
  simpl. lia.
Qed.

Lemma stats_chunks_within_index_witness :
  let stats := RagStatistics.get_stats Fixtures.env0 Fixtures.after_delete in
  RagStatistics.total_chunks stats = 3 /\
  RagStatistics.vector_store_size stats = 4 /\
  RagStatistics.total_chunks stats <= RagStatistics.vector_store_size stats.
Proof.
  intros stats. split; [vm_compute; reflexivity |].
  split; [vm_compute; reflexivity |].
  apply (stats_chunks_within_index
           [RagService.AddDocument Fixtures.env0 Fixtures.doc_a 50;
            RagService.AddDocument Fixtures.env0 Fixtures.doc_b 50;
            RagService.DeleteDocument Fixtures.env0 (lit "doc-b")]
           Fixtures.env0).
  repeat constructor; apply rag_env_row_per_text.
Defined.

(** X2: deleting a registered document from a store reached from the
    empty one lowers the document count of [get_stats] by one and the
    chunk count by the number of rows the document had, and leaves the
    vector count as it was. *)
Theorem delete_document_accounting :
  forall (ops : list RagService.op) (env : RagService.Env)
         (document_id : str) (rows : list Z),
    Forall (fun o => RagService.row_per_text (RagService.op_env o)) ops ->
    RagService.document_chunks (RagService.run ops) !! document_id
    = Some rows ->
    let before := RagStatistics.get_stats env (RagService.run ops) in
    let after :=
      RagStatistics.get_stats env
        (snd (RagService.delete_document env (RagService.run ops)
                document_id)) in
    RagStatistics.total_documents after
    = RagStatistics.total_documents before - 1 /\
    RagStatistics.total_chunks after
    = RagStatistics.total_chunks before - len rows /\
    RagStatistics.vector_store_size after
    = RagStatistics.vector_store_size before.
Proof.
  intros ops env id rows Hops Hid before after. subst before after.
  destruct (well_formed_run ops Hops) as [[Hmeta _ _] _ Hnd].
  rewrite (delete_document_known env _ id rows Hid).
  unfold RagStatistics.get_stats. simpl.
  split; [| split; [| done]].
  - rewrite map_size_delete, Hid.
    assert (size (RagService.document_chunks (RagService.run ops)) <> 0)%nat.
    { intros Hz. apply map_size_empty_inv in Hz. rewrite Hz in Hid.
      by rewrite lookup_empty in Hid. }
    lia.
  - pose proof (pop_all_size rows
                  (RagService.chunk_metadata (RagService.run ops))
                  (Hnd id rows Hid)
                  (fun idx Hin => Hmeta id rows idx Hid Hin)).
    unfold len. lia.
Qed.

Lemma delete_document_accounting_witness :
  let ops := [RagService.AddDocument Fixtures.env0 Fixtures.doc_a 50;
              RagService.AddDocument Fixtures.env0 Fixtures.doc_b 50] in
  let before := RagStatistics.get_stats Fixtures.env0 (RagService.run ops) in
  let after :=
    RagStatistics.get_stats Fixtures.env0
      (snd (RagService.delete_document Fixtures.env0 (RagService.run ops)
              (lit "doc-a"))) in
  RagStatistics.total_chunks before = 4 /\
  RagStatistics.total_documents after
  = RagStatistics.total_documents before - 1 /\
  RagStatistics.total_chunks after
  = RagStatistics.total_chunks before - len [0; 1; 2] /\
  RagStatistics.vector_store_size after
  = RagStatistics.vector_store_size before.
Proof.
  intros ops before after.
  split; [vm_compute; reflexivity |].
  apply (delete_document_accounting ops Fixtures.env0 (lit "doc-a")
           [0; 1; 2]).
  - repeat constructor; apply rag_env_row_per_text.
  - vm_compute. reflexivity.
Defined.

Section AddFailure.

Import DocumentService RagService.

Lemma create_embeddings_error env (texts : list str) e :
  _create_embeddings env texts = Raise e -> exn_kind e = EmbeddingError.
Proof.
  unfold _create_embeddings. repeat case_match; intros [= <-]; done.
Qed.

Lemma embed_loop_error env (n : Z) (todo : list (list str))
    (acc : list (list vector)) (idxs : list Z) e :
  embed_loop env n todo acc idxs = Raise e -> exn_kind e = EmbeddingError.
Proof.
  revert acc idxs.
  induction todo as [|batch todo IH]; intros acc idxs; simpl; [done |].
  destruct (_create_embeddings env batch) eqn:E.
  - apply IH.
  - intros [= <-]. by eapply create_embeddings_error.
Qed.

End AddFailure.

(** X3: whatever the embedding provider raises, [add_document] raises
    only a vector-store error or an embedding error, and the store is left
    exactly as it was, whichever batch failed, unless the failure is that
    of writing the store after the document was added. *)
Theorem add_document_failure_keeps_store :
  forall (env : RagService.Env) (st : RagService.State)
         (doc : DocumentService.ProcessedDocument) (batch_size : Z) (e : exn),
    fst (RagService.add_document env st doc batch_size) = Raise e ->
    (exn_kind e = VectorStoreError \/ exn_kind e = EmbeddingError) /\
    (snd (RagService.add_document env st doc batch_size) = st \/
     exists msg,
       RagService.write_store env
         (snd (RagService.add_document env st doc batch_size)) = Some msg /\
       e = Exn VectorStoreError (lit "Failed to save vector store: " ++ msg)).
Proof.
  intros env st doc bs e. unfold RagService.add_document.
  destruct (negb (truthy (DocumentService.doc_chunks doc))).
  { intros [= <-]. split; [by left | by left]. }
  destruct (bs =? 0).
  { intros [= <-]. split; [by left | by left]. }
  destruct (RagService.embed_loop env _ _ [] []) as [[all idxs] | e'] eqn:E.
  - unfold RagService._save_index.
    destruct (RagService.write_store env _) as [msg |] eqn:Hw; simpl; [| done].
    intros [= <-]. split; [by left |]. right. exists msg. by rewrite Hw.
  - simpl. intros [= <-]. split; [| by left].
    right. by eapply embed_loop_error.
Qed.

(** A provider out of quota: the embedding error is raised and the store
    of two documents is untouched. *)
Lemma add_document_failure_keeps_store_witness :
  fst (RagService.add_document Fixtures2.env_quota Fixtures.two_docs
         Fixtures2.doc_a_again 50)
  = Raise (Exn EmbeddingError (lit "Google Gemini API rate limit exceeded")) /\
  snd (RagService.add_document Fixtures2.env_quota Fixtures.two_docs
         Fixtures2.doc_a_again 50)
  = Fixtures.two_docs.
Proof.
  assert (Hr : fst (RagService.add_document Fixtures2.env_quota
                      Fixtures.two_docs Fixtures2.doc_a_again 50)
               = Raise (Exn EmbeddingError
                          (lit "Google Gemini API rate limit exceeded")))
    by (vm_compute; reflexivity).
  split; [exact Hr |].
  destruct (add_document_failure_keeps_store _ _ _ _ _ Hr)
    as [_ [Hst | (msg & Hw & _)]]; [exact Hst |].
  discriminate Hw.
Defined.

(** X4: uploading a document under an id that is already registered
    replaces the row list of the id but keeps the metadata of the rows
    registered before; a later [delete_document] of the id removes the new
    rows only, so the old rows stay in [chunk_metadata] (and can still be
    returned by a search) although the id is no longer registered. *)
Theorem readded_document_keeps_old_rows :
  forall (ops : list RagService.op) (env env' : RagService.Env)
         (doc : DocumentService.ProcessedDocument) (batch_size : Z)
         (old : list Z) (r : str),
    Forall (fun o => RagService.row_per_text (RagService.op_env o)) ops ->
    RagService.row_per_text env ->
    RagService.document_chunks (RagService.run ops)
      !! DocumentService.doc_id doc = Some old ->
    fst (RagService.add_document env (RagService.run ops) doc batch_size)
    = Ok r ->
    let added :=
      snd (RagService.add_document env (RagService.run ops) doc batch_size) in
    let deleted :=
      snd (RagService.delete_document env' added
             (DocumentService.doc_id doc)) in
    RagService.document_chunks deleted !! DocumentService.doc_id doc = None /\
    (forall idx,
        idx ∈ old ->
        is_Some (RagService.chunk_metadata deleted !! idx) /\
        RagService.chunk_metadata deleted !! idx
        = RagService.chunk_metadata (RagService.run ops) !! idx).
Proof.
  intros ops env env' doc bs old r Hops Hc Hold Hok added deleted.
  subst deleted added.
  destruct (consistent_run ops Hops) as [Hmeta Hrows _].
  destruct (add_document_state env (RagService.run ops) doc bs Hc)
    as [[[e He] _] | (_ & Hm & Hd & _)]; [congruence |].
  assert (Hnew : RagService.document_chunks
                   (snd (RagService.add_document env (RagService.run ops)
                           doc bs)) !! DocumentService.doc_id doc
                 = Some (RagService.assigned_rows (RagService.run ops) doc bs))
    by (by rewrite Hd, lookup_insert_eq).
  rewrite (delete_document_known env' _ _ _ Hnew). simpl.
  split; [apply lookup_delete_eq |].
  intros idx Hin.
  assert (Hkeep : RagService.chunk_metadata
                    (snd (RagService.add_document env (RagService.run ops)
                            doc bs)) !! idx
                  = RagService.chunk_metadata (RagService.run ops) !! idx).
  { rewrite Hm. apply store_metadata_other. intros Ha.
    apply assigned_rows_elem in Ha.
    destruct (Hrows _ _ _ Hold Hin). lia. }
  rewrite pop_all_lookup, decide_False.
  - rewrite Hkeep. split; [by eapply Hmeta | done].
  - intros Ha. apply assigned_rows_elem in Ha.
    destruct (Hrows _ _ _ Hold Hin). lia.
Qed.

(** [doc_a] (rows 0, 1, 2) uploaded again with one chunk (row 4) and then
    deleted: row 1 is still described. *)
Lemma readded_document_keeps_old_rows_witness :
  let ops := [RagService.AddDocument Fixtures.env0 Fixtures.doc_a 50;
              RagService.AddDocument Fixtures.env0 Fixtures.doc_b 50] in
  let added :=
    snd (RagService.add_document Fixtures.env0 (RagService.run ops)
           Fixtures2.doc_a_again 50) in
  let deleted :=
    snd (RagService.delete_document Fixtures.env0 added (lit "doc-a")) in
  RagService.document_chunks deleted !! lit "doc-a" = None /\
  is_Some (RagService.chunk_metadata deleted !! 1).
Proof.
  intros ops added deleted.
  destruct (readded_document_keeps_old_rows ops Fixtures.env0 Fixtures.env0
              Fixtures2.doc_a_again 50 [0; 1; 2] (lit "doc-a")
              ltac:(repeat constructor; apply rag_env_row_per_text)
              (rag_env_row_per_text _ _)
              ltac:(vm_compute; reflexivity)
              ltac:(vm_compute; reflexivity)) as [Hgone Hrows].
  split; [exact Hgone |].
  apply (Hrows 1). apply elem_of_cons. right. apply elem_of_cons. by left.
Defined.

Section SearchFacts.

Import RagService.

(** Every result of a search that returns stems from a row with
    metadata. *)
Lemma search_similar_provenance env st (query : str) (k : Z)
    (score_threshold : option Q) (results : list SearchResult)
    (r : SearchResult) :
  search_similar env st query k score_threshold = Ok results ->
  r ∈ results ->
  exists d idx meta,
    chunk_metadata st !! idx = Some meta /\
    r = {| document_id := meta_document_id meta;
           chunk_id := meta_chunk_id meta;
           content := meta_content meta;
           score := (1 / (1 + d))%Q;
           metadata := meta_metadata meta |}.
Proof.
  unfold search_similar.
  repeat case_match; intros [= <-] Hr;
    try (by apply not_elem_of_nil in Hr).
  rewrite sort_desc_perm in Hr.
  apply list_elem_of_omap in Hr as ([d idx] & _ & Hres).
  apply result_of_hit_Some in Hres as (meta & _ & Hmeta & _ & ->).
  by exists d, idx, meta.
Qed.


End SearchFacts.

(** X5: once [delete_document] has removed a document, no search returns
    a result built from one of the rows the document had listed, although
    the vectors of those rows are still in the index and may be hit: every
    result comes from a row outside that list, with the metadata the store
    had for it before the deletion. *)
Theorem deleted_rows_never_returned :
  forall (env env' : RagService.Env) (st : RagService.State)
         (document_id : str) (rows : list Z) (query : str) (k : Z)
         (score_threshold : option Q)
         (results : list RagService.SearchResult),
    RagService.document_chunks st !! document_id = Some rows ->
    RagService.search_similar env'
      (snd (RagService.delete_document env st document_id))
      query k score_threshold = Ok results ->
    forall r, r ∈ results ->
      exists idx meta,
        (idx ∉ rows) /\
        RagService.chunk_metadata st !! idx = Some meta /\
        RagService.document_id r = RagService.meta_document_id meta /\
        RagService.chunk_id r = RagService.meta_chunk_id meta /\
        RagService.content r = RagService.meta_content meta.
Proof.
  intros env env' st id rows query k thr results Hid Hsearch r Hr.
  destruct (search_similar_provenance _ _ _ _ _ _ _ Hsearch Hr)
    as (d & idx & meta & Hmeta & ->).
  rewrite (delete_document_known env st id rows Hid) in Hmeta.
  simpl in Hmeta. rewrite pop_all_lookup in Hmeta.
  case_decide; [done |]. by exists idx, meta.
Qed.

(** The scan hits all four rows of [two_docs]; after [doc_a] was deleted
    the only result is the chunk of [doc_b]. *)
Lemma deleted_rows_never_returned_witness :
  exists results,
    RagService.search_similar Fixtures2.env_scan_all
      (snd (RagService.delete_document Fixtures.env0 Fixtures.two_docs
              (lit "doc-a")))
      (lit "anything") 5 None = Ok results /\
    List.map RagService.content results = [lit "delta"] /\
    forall r, r ∈ results ->
      exists idx meta,
        (idx ∉ [0; 1; 2]) /\
        RagService.chunk_metadata Fixtures.two_docs !! idx = Some meta /\
        RagService.content r = RagService.meta_content meta.
Proof.
  assert (Hs : exists results,
             RagService.search_similar Fixtures2.env_scan_all
               (snd (RagService.delete_document Fixtures.env0
                       Fixtures.two_docs (lit "doc-a")))
               (lit "anything") 5 None = Ok results /\
             List.map RagService.content results = [lit "delta"])
    by (vm_compute; eexists; split; reflexivity).
  destruct Hs as (results & Hs & Hc). exists results.
  split; [exact Hs |]. split; [exact Hc |].
  intros r Hr.
  destruct (deleted_rows_never_returned Fixtures.env0 Fixtures2.env_scan_all
              Fixtures.two_docs (lit "doc-a") [0; 1; 2] (lit "anything") 5
              None results ltac:(vm_compute; reflexivity) Hs r Hr)
    as (idx & meta & Hout & Hm & _ & _ & Hcontent).
  by exists idx, meta.
Defined.



Section ContextBudget.

Import RagService.

Lemma slice_to_length {A} (l : list A) (n : Z) :
  0 <= n -> len (slice_to l n) <= n.
Proof.
  intros Hn. unfold slice_to, slice, norm_index, len. simpl.
  destruct (Z.ltb_spec n 0); [lia |].
  rewrite length_take, length_drop. lia.
Qed.

Lemma before_last_length (sep : N) (s p : str) :
  before_last sep s = Some p -> (length p < length s)%nat.
Proof.
  revert p. induction s as [|c s IH]; intros p; simpl; [done |].
  destruct (before_last sep s) as [q |].
  - intros [= <-]. specialize (IH q eq_refl). simpl. lia.
  - destruct (c =? sep)%N; [| done]. intros [= <-]. simpl. lia.
Qed.

Lemma rsplit1_head_length (sep : N) (s : str) :
  len (rsplit1_head sep s) <= len s.
Proof.
  unfold rsplit1_head, len.
  destruct (before_last sep s) as [p |] eqn:E; [| lia].
  apply before_last_length in E. lia.
Qed.

Lemma full_part_length (r : SearchResult) :
  len (full_part r) = 8 + len (content r).
Proof. unfold full_part, len. rewrite length_app. simpl. lia. Qed.

Lemma partial_part_length (rem : Z) (r : SearchResult) :
  0 <= rem -> len (partial_part rem r) <= rem + 11.
Proof.
  intros Hrem. unfold partial_part.
  pose proof (rsplit1_head_length space (slice_to (content r) rem)).
  pose proof (slice_to_length (content r) rem Hrem).
  unfold len in *. rewrite !length_app. simpl. lia.
Qed.

(** The characters of a list of parts, each but the first preceded by the
    separator. *)
Lemma join_length (sep p : str) (ps : list str) :
  len (join sep (p :: ps))
  = len p + foldr (fun q acc => len sep + len q + acc) 0 ps.
Proof.
  revert p. induction ps as [|q ps IH]; intros p.
  - simpl. lia.
  - change (join sep (p :: q :: ps)) with (p ++ sep ++ join sep (q :: ps)).
    unfold len in *. rewrite !length_app, !Nat2Z.inj_add, IH. simpl. lia.
Qed.

Lemma join_full_parts_length (sep : str) (pre : list SearchResult) :
  foldr (fun q acc => len sep + len q + acc) 0 (List.map full_part pre)
  = (len sep + 8) * len pre + content_total pre.
Proof.
  induction pre as [|r pre IH]; simpl; [unfold len; simpl; lia |].
  rewrite IH, full_part_length. unfold len. simpl length. lia.
Qed.

(** The parts and the used sources the loop yields from any position:
    the results used in full, then at most one excerpt, cut to what was
    left of the limit. *)
Lemma build_context_shape limit (results : list SearchResult)
    (parts : list str) (total : Z) (used : list SearchResult) :
  total <= limit ->
  exists pre tail,
    build_context limit results parts total used
    = (parts ++ List.map full_part pre ++ tail, used ++ pre) /\
    total + content_total pre <= limit /\
    (length pre + length tail <= length results)%nat /\
    (tail = [] \/
     exists r, tail = [partial_part (limit - (total + content_total pre)) r]).
Proof.
  revert parts total used.
  induction results as [|r rest IH]; intros parts total used Hle.
  - exists [], []. simpl. rewrite !app_nil_r. repeat split; try lia. by left.
  - cbn [build_context].
    destruct (Z.gtb_spec (total + len (content r)) limit) as [Hover | Hfit].
    + destruct (limit - total >? 100).
      * exists [], [partial_part (limit - total) r]. simpl.
        rewrite app_nil_r, Z.add_0_r. repeat split; try lia.
        right. by exists r.
      * exists [], []. simpl. rewrite !app_nil_r.
        repeat split; try lia. by left.
    + destruct (IH (parts ++ [lit "Source: " ++ content r])
                  (total + len (content r)) (used ++ [r]) Hfit)
        as (pre & tail & Heq & Hsum & Hlen & Htail).
      exists (r :: pre), tail. rewrite Heq. simpl.
      rewrite <- !app_assoc. simpl.
      repeat split; try lia.
      destruct Htail as [-> | (r' & ->)]; [by left |].
      right. exists r'. do 2 f_equal. lia.
Qed.

End ContextBudget.

(** X7: for a non-negative context limit, the contents of the used
    sources add up to at most [context_limit] characters, and the context
    string, which also holds the "Source: " prefixes, the separators and
    the "..." of an excerpt that the loop does not count, is at most
    12 characters per search result longer than [context_limit]. *)
Theorem context_within_budget :
  forall (context_limit : Z) (search_results : list RagService.SearchResult),
    0 <= context_limit ->
    let out := RagService.build_context context_limit search_results [] 0 [] in
    RagService.content_total (snd out) <= context_limit /\
    len (join RagService.context_separator (fst out))
    <= context_limit + 12 * len search_results.
Proof.
  intros limit results Hlimit out. subst out.
  destruct (build_context_shape limit results [] 0 [] Hlimit)
    as (pre & tail & -> & Hsum & Hlen & Htail).
  simpl fst. simpl snd. rewrite Z.add_0_l in *.
  split; [done |].
  pose proof (content_total_nonneg pre) as Hpre.
  assert (Hsep : len RagService.context_separator = 4) by reflexivity.
  destruct pre as [|p pre]; simpl List.map; simpl app.
  - destruct Htail as [-> | (r & ->)]; simpl in *.
    + unfold len. simpl. lia.
    + pose proof (partial_part_length (limit - 0) r ltac:(lia)).
      unfold len in *. simpl in *. lia.
  - rewrite join_length.
    assert (Hfold :
              foldr (fun q acc => len RagService.context_separator + len q + acc)
                0 (List.map RagService.full_part pre ++ tail)
              <= 12 * len pre + RagService.content_total pre
                 + (if tail is [] then 0
                    else limit
                         - RagService.content_total (p :: pre) + 15)).
    { rewrite foldr_app.
      destruct Htail as [-> | (r & ->)].
      - simpl foldr at 2. rewrite join_full_parts_length, Hsep. lia.
      - simpl foldr at 2.
        pose proof (partial_part_length
                      (limit - RagService.content_total (p :: pre)) r
                      ltac:(lia)) as Hpart.
        set (part := RagService.partial_part _ r) in *.
        assert (Hshift : forall (l : list str) (z : Z),
                   foldr (fun q acc =>
                            len RagService.context_separator + len q + acc)
                     z l
                   = z + foldr (fun q acc =>
                                  len RagService.context_separator + len q
                                  + acc) 0 l).
        { induction l as [|q l IHl]; intros z; simpl; [lia |].
          rewrite IHl. lia. }
        rewrite Hshift, join_full_parts_length, Hsep. lia. }
    rewrite full_part_length.
    assert (Hct : RagService.content_total (p :: pre)
                  = len (RagService.content p)
                    + RagService.content_total pre) by reflexivity.
    rewrite Hct in *. unfold len in *.
    destruct tail as [|t tail]; cbn [length] in *; cbv iota in Hfold; lia.
Qed.

(** The two results of the long store under a limit of 150: the 20
    characters of the first chunk are the used content, and the context of
    168 characters stays within 150 + 12 * 2. *)
Lemma context_within_budget_witness :
  let out :=
    RagService.build_context 150
      [Fixtures.short_result; Fixtures.long_result] [] 0 [] in
  RagService.content_total (snd out) = 20 /\
  len (join RagService.context_separator (fst out)) = 168 /\
  len (join RagService.context_separator (fst out)) <= 150 + 12 * 2.
Proof.
  intros out.
  split; [vm_compute; reflexivity |].
  split; [vm_compute; reflexivity |].
  apply (context_within_budget 150
           [Fixtures.short_result; Fixtures.long_result]).
  discriminate.
Defined.

(** ** More on the rate limiter *)

Section RateLimiterLog.

Import Deps RateLimitLog.

Variable self : RateLimitDependency.

Lemma in_window_later_false (t t' ts : Q) :
  (t <= t')%Q -> in_window self t ts = false -> in_window self t' ts = false.
Proof.
  intros Hle Hf. destruct (in_window self t' ts) eqn:E; [| done].
  apply (in_window_earlier self t t' ts Hle) in E. congruence.
Qed.

Lemma filter_later_filter (t t' : Q) (l : list Q) :
  (t <= t')%Q ->
  List.filter (in_window self t') (List.filter (in_window self t) l)
  = List.filter (in_window self t') l.
Proof.
  intros Hle. induction l as [|x l IH]; simpl; [done |].
  destruct (in_window self t x) eqn:Ex; simpl.
  - by rewrite IH.
  - by rewrite (in_window_later_false t t' x Hle Ex).
Qed.

Lemma filter_later_clean (t t' : Q) (h : gmap str (list Q)) (id : str) :
  (t <= t')%Q ->
  List.filter (in_window self t') (default [] (clean_old self t h !! id))
  = List.filter (in_window self t') (default [] (h !! id)).
Proof.
  intros Hle.
  rewrite <- (filter_later_filter t t' (default [] (h !! id)) Hle).
  rewrite <- (filter_later_filter t t' (default [] (clean_old self t h !! id))
                Hle).
  by rewrite recent_after_clean.
Qed.

(** The outcome of a call, read off the stored list of the identifier. *)
Lemma rate_limit_outcome (h : gmap str (list Q)) (user : option str) (t : Q) :
  let identifier := str_or user (lit "anonymous") in
  let recent := List.filter (in_window self t) (default [] (h !! identifier)) in
  rate_limit_call self h user t
  = if len recent >=? max_requests self
    then (HTTPError (too_many_requests self), clean_old self t h)
    else (Response tt, <[identifier := recent ++ [t]]> (clean_old self t h)).
Proof.
  cbv zeta. unfold rate_limit_call. by rewrite recent_after_clean.
Qed.

(** What a call at [t] leaves for any identifier, as seen at a later
    clock reading: the timestamps it had, and [t] itself if the call was
    admitted under that identifier. *)
Lemma history_after_call (h : gmap str (list Q)) (user : option str)
    (t t' : Q) (id : str) :
  (t <= t')%Q ->
  let out := rate_limit_call self h user t in
  List.filter (in_window self t') (default [] (snd out !! id))
  = List.filter (in_window self t') (default [] (h !! id))
    ++ (if admitted (fst out)
           && bool_decide (str_or user (lit "anonymous") = id)
        then List.filter (in_window self t') [t] else []).
Proof.
  intros Hle. cbv zeta. rewrite rate_limit_outcome.
  destruct (_ >=? _); cbn [fst snd admitted andb].
  - rewrite app_nil_r. by apply filter_later_clean.
  - case_bool_decide as Hid.
    + subst id. rewrite lookup_insert_eq.
      change (default [] (Some ?l)) with l.
      by rewrite List.filter_app, filter_later_filter.
    + rewrite lookup_insert_ne by done. rewrite app_nil_r.
      by apply filter_later_clean.
Qed.

Lemma admitted_times_snoc (past : list entry) (e : entry) (id : str) :
  admitted_times (past ++ [e]) id
  = admitted_times past id
    ++ (if entry_admitted e && bool_decide (entry_identifier e = id)
        then [entry_time e] else []).
Proof.
  unfold admitted_times. rewrite omap_app. simpl.
  by destruct (entry_admitted e && bool_decide (entry_identifier e = id)).
Qed.

Lemma serve_safe (calls : list (option str * Q)) :
  forall (h : gmap str (list Q)) (past : list entry) (now : Q),
    log_agrees self h past now ->
    Forall (fun c => (now <= snd c)%Q) calls ->
    clock_monotone calls ->
    forall before e after,
      serve self h calls = before ++ e :: after ->
      entry_admitted e = true ->
      len (List.filter (in_window self (entry_time e))
             (admitted_times (past ++ before) (entry_identifier e)))
      < max_requests self.
Proof.
  induction calls as [|[user t0] calls IH];
    intros h past now Hagree Hnow Hmono before e after Hlog Hadm.
  { by destruct before. }
  apply Forall_cons in Hnow as [Ht0 _]. simpl in Ht0.
  apply StronglySorted_inv in Hmono as [Hmono Hlater].
  cbn [serve] in Hlog.
  destruct before as [|e0 before]; simpl in Hlog.
  - injection Hlog as <- _. simpl in *. rewrite app_nil_r.
    rewrite <- (Hagree _ t0 Ht0).
    rewrite rate_limit_outcome in Hadm.
    destruct (Z.geb_spec
                (len (List.filter (in_window self t0)
                        (default [] (h !! str_or user (lit "anonymous")))))
                (max_requests self)); [done | lia].
  - injection Hlog as <- Hlog.
    replace (past ++ _ :: before) with ((past ++ [
      {| entry_identifier := str_or user (lit "anonymous");
         entry_time := t0;
         entry_admitted := admitted (fst (rate_limit_call self h user t0)) |}
      ]) ++ before) by (by rewrite <- app_assoc).
    eapply (IH _ _ t0); [| | done | exact Hlog | done].
    + intros id t Ht. rewrite history_after_call by done.
      rewrite admitted_times_snoc, List.filter_app. simpl.
      rewrite (Hagree id t) by lra. f_equal.
      by destruct (admitted _ && bool_decide _).
    + eapply Forall_impl; [exact Hlater |]. intros c Hc. exact Hc.
Qed.

End RateLimiterLog.

(** X8: a call by one identity has no bearing on what the limiter later
    decides for another identity: with a clock that does not run
    backwards, the second identity is admitted or rejected exactly as if
    the first call had not been made, whether that call was admitted or
    not. *)
Theorem rate_limit_identities_isolated :
  forall (self : Deps.RateLimitDependency)
         (request_history : gmap str (list Q)) (user other : option str)
         (current_time later : Q),
    str_or user (lit "anonymous") <> str_or other (lit "anonymous") ->
    (current_time <= later)%Q ->
    fst (Deps.rate_limit_call self
           (snd (Deps.rate_limit_call self request_history user current_time))
           other later)
    = fst (Deps.rate_limit_call self request_history other later).
Proof.
  intros self h user other t t' Hne Hle.
  rewrite (rate_limit_outcome self (snd _) other t').
  rewrite (rate_limit_outcome self h other t'). cbv zeta.
  rewrite (history_after_call self h user t t' _ Hle).
  rewrite bool_decide_eq_false_2 by done.
  rewrite andb_false_r, app_nil_r.
  by destruct (_ >=? _).
Qed.

(** The upload limiter after five uploads of [default_user]: a sixth is
    refused, an anonymous upload is admitted as on a fresh limiter. *)
Lemma rate_limit_identities_isolated_witness :
  let h5 :=
    foldl (fun h t =>
             snd (Deps.rate_limit_call Deps.upload_rate_limit h
                    (Some (lit "default_user")) t))
      ∅ [0%Q; 1%Q; 2%Q; 3%Q; 4%Q] in
  fst (Deps.rate_limit_call Deps.upload_rate_limit h5
         (Some (lit "default_user")) 5%Q)
  = Deps.HTTPError (Deps.too_many_requests Deps.upload_rate_limit) /\
  fst (Deps.rate_limit_call Deps.upload_rate_limit
         (snd (Deps.rate_limit_call Deps.upload_rate_limit h5
                 (Some (lit "default_user")) 5%Q))
         None 6%Q)
  = Deps.Response tt.
Proof.
  intros h5. split; [vm_compute; reflexivity |].
  rewrite (rate_limit_identities_isolated Deps.upload_rate_limit h5
             (Some (lit "default_user")) None 5%Q 6%Q
             ltac:(discriminate) ltac:(discriminate)).
  vm_compute. reflexivity.
Defined.

(** X9: a limiter that starts empty and serves calls whose clock does not
    run backwards admits a call only if fewer than [max_requests] earlier
    admitted calls of the same identity lie within the window that ends at
    the call: no identity is ever admitted more than [max_requests] times
    within a window. *)
Theorem rate_limit_window_bound :
  forall (self : Deps.RateLimitDependency)
         (calls : list (option str * Q))
         (before : list RateLimitLog.entry) (e : RateLimitLog.entry)
         (after : list RateLimitLog.entry),
    RateLimitLog.clock_monotone calls ->
    RateLimitLog.serve self ∅ calls = before ++ e :: after ->
    RateLimitLog.entry_admitted e = true ->
    len (List.filter (Deps.in_window self (RateLimitLog.entry_time e))
           (RateLimitLog.admitted_times before
              (RateLimitLog.entry_identifier e)))
    < Deps.max_requests self.
Proof.
  intros self calls before e after Hmono Hlog Hadm.
  destruct calls as [|[user t0] calls]; [by destruct before |].
  pose proof (serve_safe self ((user, t0) :: calls) ∅ [] t0) as H.
  apply (H ltac:(intros id t _; by rewrite lookup_empty)) with (after := after);
    try done.
  constructor; [simpl; lra |].
  apply StronglySorted_inv in Hmono as [_ Hlater]. exact Hlater.
Qed.

(** Two requests per minute, four anonymous calls at seconds 0, 1, 10 and
    60.5: the third is refused, and the fourth is admitted with one
    admitted call (second 1) left in its window. *)
Lemma rate_limit_window_bound_witness :
  let calls := [(None, 0%Q); (None, 1%Q); (None, 10%Q); (None, (121 # 2)%Q)] in
  List.map RateLimitLog.entry_admitted
    (RateLimitLog.serve Fixtures.limiter2 ∅ calls)
  = [true; true; false; true] /\
  len (List.filter (Deps.in_window Fixtures.limiter2 (121 # 2)%Q)
         (RateLimitLog.admitted_times
            (take 3 (RateLimitLog.serve Fixtures.limiter2 ∅ calls))
            (lit "anonymous")))
  < 2.
Proof.
  intros calls. split; [vm_compute; reflexivity |].
  apply (rate_limit_window_bound Fixtures.limiter2 calls
           (take 3 (RateLimitLog.serve Fixtures.limiter2 ∅ calls))
           {| RateLimitLog.entry_identifier := lit "anonymous";
              RateLimitLog.entry_time := (121 # 2)%Q;
              RateLimitLog.entry_admitted := true |} []).
  - repeat constructor; vm_compute; discriminate.
  - vm_compute. reflexivity.
  - reflexivity.
Defined.

(** ** Splitting a file name *)

Section Splitext.

Import Deps.

(** [rfind] returns the accumulator when the character does not occur,
    and otherwise the offset of an occurrence with none after it. *)
Lemma rfind_from_spec (c : N) (s : str) (i acc : Z) :
  ((c ∉ s) /\ rfind_from c s i acc = acc) \/
  (exists k : nat,
      s !! k = Some c /\ (c ∉ drop (S k) s) /\
      rfind_from c s i acc = i + Z.of_nat k).
Proof.
  revert i acc. induction s as [|x s IH]; intros i acc; simpl.
  - left. split; [apply not_elem_of_nil | done].
  - destruct (IH (i + 1) (if (x =? c)%N then i else acc))
      as [[Hout ->] | (k & Hk & Hlast & ->)].
    + destruct (N.eqb_spec x c) as [-> | Hne].
      * right. exists 0%nat. simpl. rewrite drop_0.
        split; [done | split; [done | lia]].
      * left. split; [| done].
        intros [? | ?]%elem_of_cons; congruence.
    + right. exists (S k). simpl. split; [done | split; [done | lia]].
Qed.

Lemma rfind_spec (c : N) (s : str) :
  ((c ∉ s) /\ rfind c s = -1) \/
  (exists k : nat,
      s !! k = Some c /\ (c ∉ drop (S k) s) /\ rfind c s = Z.of_nat k).
Proof.
  unfold rfind. destruct (rfind_from_spec c s 0 (-1))
    as [H | (k & ? & ? & ->)]; [by left |].
  right. exists k. split; [done | split; [done | lia]].
Qed.

Lemma slice_to_take {A} (l : list A) (k : nat) :
  (k <= length l)%nat -> slice_to l (Z.of_nat k) = take k l.
Proof.
  intros Hk. unfold slice_to, slice, norm_index, len. simpl.
  destruct (Z.ltb_spec (Z.of_nat k) 0); [lia |].
  replace (Z.to_nat (Z.min 0 (Z.of_nat (length l)))) with 0%nat by lia.
  rewrite drop_0. f_equal. lia.
Qed.

Lemma not_elem_of_drop_later {A} (x : A) (l : list A) (n m : nat) :
  (n <= m)%nat -> x ∉ drop n l -> x ∉ drop m l.
Proof.
  intros Hle Hout Hin. apply Hout.
  replace m with (n + (m - n))%nat in Hin by lia.
  rewrite <- drop_drop in Hin.
  by eapply subseteq_drop.
Qed.

End Splitext.

(** X10: [splitext] cuts a path in two parts that give the path back when
    put together, and the extension is empty or starts with a dot and has
    no further dot and no slash. *)
Theorem splitext_roundtrip :
  forall p : str,
    fst (Deps.splitext p) ++ snd (Deps.splitext p) = p /\
    (snd (Deps.splitext p) = [] \/
     exists rest,
       snd (Deps.splitext p) = Deps.dot :: rest /\
       (Deps.dot ∉ rest) /\ (Deps.slash ∉ rest)).
Proof.
  intros p. unfold Deps.splitext.
  destruct (Z.gtb_spec (Deps.rfind Deps.dot p) (Deps.rfind Deps.slash p))
    as [Hgt | Hle]; [| simpl; rewrite app_nil_r; auto].
  destruct (existsb _ _); [| simpl; rewrite app_nil_r; auto].
  destruct (rfind_spec Deps.dot p) as [[_ Hd] | (k & Hk & Hlast & Hd)].
  { destruct (rfind_spec Deps.slash p) as [[_ Hs] | (j & _ & _ & Hs)]; lia. }
  rewrite Hd in *. rewrite Nat2Z.id. simpl fst. simpl snd.
  pose proof (lookup_lt_Some _ _ _ Hk) as Hlen.
  rewrite slice_to_take by lia.
  split; [apply take_drop |]. right.
  exists (drop (S k) p). split; [| split; [done |]].
  - by rewrite (drop_S _ _ _ Hk).
  - destruct (rfind_spec Deps.slash p) as [[Hs _] | (j & _ & Hs & Hj)].
    + intros Hin. apply Hs. by eapply subseteq_drop.
    + apply (not_elem_of_drop_later _ _ (S j)); [lia | done].
Qed.

(** ** Chunk positions *)

Section ChunkPositions.

Import DocumentService ProcessFile.

Lemma startswith_take (s prefix : str) :
  startswith s prefix = true -> take (length prefix) s = prefix.
Proof.
  revert s. induction prefix as [|p prefix IH]; intros [|c s]; simpl;
    try done.
  intros [Hc Hs]%andb_true_iff. apply N.eqb_eq in Hc as ->.
  f_equal. by apply IH.
Qed.

Lemma startswith_length (s prefix : str) :
  startswith s prefix = true -> (length prefix <= length s)%nat.
Proof.
  revert s. induction prefix as [|p prefix IH]; intros [|c s]; simpl;
    try done; try lia.
  intros [_ Hs]%andb_true_iff. apply IH in Hs. lia.
Qed.

Lemma find_from_spec (s sub : str) (i : Z) :
  find_from s sub i = -1 \/
  exists n : nat,
    find_from s sub i = i + Z.of_nat n /\ (n <= length s)%nat /\
    startswith (drop n s) sub = true.
Proof.
  revert i. induction s as [|c s IH]; intros i; cbn [find_from].
  - destruct (startswith [] sub) eqn:E; [| by left].
    right. exists 0%nat. cbn [drop length].
    split; [lia | split; [lia | done]].
  - destruct (startswith (c :: s) sub) eqn:E.
    + right. exists 0%nat. cbn [drop length].
      split; [lia | split; [lia | done]].
    + destruct (IH (i + 1)) as [-> | (n & -> & Hn & Hs)]; [by left |].
      right. exists (S n). cbn [drop length].
      split; [lia | split; [lia | done]].
Qed.

(** What [find] returns from a non-negative start is [-1] or an offset at
    or after the start where the text holds [sub]. *)
Lemma find_spec (s sub : str) (start : Z) :
  0 <= start ->
  find s sub start = -1 \/
  (start <= find s sub start /\
   slice s (find s sub start) (find s sub start + len sub) = sub).
Proof.
  intros Hstart. unfold find.
  destruct (Z.ltb_spec start 0); [lia |].
  destruct (Z.gtb_spec start (len s)) as [Hgt | Hle]; [by left |].
  destruct (find_from_spec (drop (Z.to_nat start) s) sub start)
    as [-> | (n & -> & Hn & Hs)]; [by left |].
  right. split; [lia |].
  rewrite drop_drop in Hs. rewrite length_drop in Hn.
  pose proof (startswith_length _ _ Hs) as Hlen.
  rewrite length_drop in Hlen.
  unfold slice, norm_index, len in *.
  destruct (Z.ltb_spec (start + Z.of_nat n) 0); [lia |].
  destruct (Z.ltb_spec (start + Z.of_nat n + Z.of_nat (length sub)) 0);
    [lia |].
  replace (Z.to_nat (Z.min (start + Z.of_nat n) (Z.of_nat (length s))))
    with (Z.to_nat start + n)%nat by lia.
  replace (Z.to_nat (Z.min (start + Z.of_nat n + Z.of_nat (length sub))
                       (Z.of_nat (length s))
                     - Z.min (start + Z.of_nat n) (Z.of_nat (length s))))
    with (length sub) by lia.
  by apply startswith_take.
Qed.

(** The loop from any position: the chunks built so far are kept, and
    each new piece gets a chunk that starts at or after the position the
    loop had reached, and holds the text of its span unless it was placed
    at that position for want of an occurrence. *)
Lemma locate_chunks_spec (document_id text : str) (pieces : list str) :
  forall (i position : Z) (chunks : list DocumentChunk),
    0 <= position ->
    exists new,
      locate_chunks document_id text pieces i position chunks = chunks ++ new /\
      List.map chunk_content new = pieces /\
      (forall (k : nat) c,
          new !! k = Some c ->
          let prev := match k with
                      | O => position
                      | S j => default 0 (chunk_end_index <$> new !! j)
                      end in
          prev <= chunk_start_index c /\
          chunk_end_index c = chunk_start_index c + len (chunk_content c) /\
          chunk_ident c
          = document_id ++ lit "_chunk_" ++ Deps.str_of_int (i + Z.of_nat k) /\
          (slice text (chunk_start_index c) (chunk_end_index c)
           = chunk_content c \/
           chunk_start_index c = prev)).
Proof.
  induction pieces as [|piece pieces IH]; intros i position chunks Hpos.
  - exists []. simpl. rewrite app_nil_r. split; [done |]. split; [done |].
    intros k c Hk. by rewrite lookup_nil in Hk.
  - cbn [locate_chunks].
    set (found := find text piece position).
    set (start := if found =? -1 then position else found).
    assert (Hstart : position <= start /\
                     (slice text start (start + len piece) = piece \/
                      start = position)).
    { subst start. destruct (find_spec text piece position Hpos)
        as [Hnone | [Hle Hslice]]; fold found in Hnone || fold found in Hle, Hslice.
      - rewrite Hnone. simpl. split; [lia | by right].
      - destruct (Z.eqb_spec found (-1)); [lia |]. split; [done | by left]. }
    destruct Hstart as [Hle Hheld].
    destruct (IH (i + 1)
                (chunk_end_index (make_chunk document_id i piece start))
                (chunks ++ [make_chunk document_id i piece start]))
      as (new & -> & Hmap & Hnew).
    { simpl. unfold len. lia. }
    exists (make_chunk document_id i piece start :: new).
    split; [by rewrite <- app_assoc |].
    split; [simpl; by rewrite Hmap |].
    intros [|k] c Hk; simpl in Hk.
    + injection Hk as <-. simpl.
      split; [done |]. split; [done |].
      split; [by rewrite Z.add_0_r |]. done.
    + destruct (Hnew k c Hk) as (Hprev & Hend & Hid & Hloc).
      assert (Hp : match k with
                   | O => chunk_end_index (make_chunk document_id i piece start)
                   | S j => default 0 (chunk_end_index <$> new !! j)
                   end
                   = default 0 (chunk_end_index
                                  <$> (make_chunk document_id i piece start
                                       :: new) !! k)).
      { by destruct k. }
      cbv zeta. rewrite <- Hp.
      split; [done |]. split; [done |]. split; [| done].
      rewrite Hid. do 3 f_equal. lia.
Qed.

End ChunkPositions.

(** X11: the chunks [process_file] builds from the pieces of the splitter
    keep the pieces in order, are numbered from 0 in their ids, and carry
    spans that never overlap, even when the pieces do: each span starts at
    or after the end of the previous one and is as long as its piece, and
    the text between its bounds is the piece unless the piece was not
    found from there on and was placed at the end of the previous span. *)
Theorem chunk_spans_ordered :
  forall (document_id text : str) (pieces : list str),
    let chunks :=
      ProcessFile.locate_chunks document_id text pieces 0 0 [] in
    List.map DocumentService.chunk_content chunks = pieces /\
    (forall (k : nat) c,
        chunks !! k = Some c ->
        ProcessFile.previous_end chunks k
        <= DocumentService.chunk_start_index c /\
        DocumentService.chunk_end_index c
        = DocumentService.chunk_start_index c
          + len (DocumentService.chunk_content c) /\
        DocumentService.chunk_ident c
        = document_id ++ lit "_chunk_" ++ Deps.str_of_int (Z.of_nat k) /\
        (slice text (DocumentService.chunk_start_index c)
           (DocumentService.chunk_end_index c)
         = DocumentService.chunk_content c \/
         DocumentService.chunk_start_index c
         = ProcessFile.previous_end chunks k)).
Proof.
  intros document_id text pieces chunks. subst chunks.
  destruct (locate_chunks_spec document_id text pieces 0 0 [] ltac:(lia))
    as (new & -> & Hmap & Hnew).
  simpl app. split; [done |].
  intros k c Hk. destruct (Hnew k c Hk) as (Hprev & Hend & Hid & Hloc).
  unfold ProcessFile.previous_end. by destruct k.
Qed.

(** "alpha beta gamma" cut into the overlapping pieces "alpha beta" and
    "beta gamma": the first span is [0, 10); the second piece does not
    occur from offset 10 on and is placed at [10, 20). *)
Lemma chunk_spans_ordered_witness :
  let chunks :=
    ProcessFile.locate_chunks (lit "doc") (lit "alpha beta gamma")
      [lit "alpha beta"; lit "beta gamma"] 0 0 [] in
  List.map (fun c => (DocumentService.chunk_start_index c,
                      DocumentService.chunk_end_index c)) chunks
  = [(0, 10); (10, 20)] /\
  List.map DocumentService.chunk_content chunks
  = [lit "alpha beta"; lit "beta gamma"].
Proof.
  intros chunks. split; [vm_compute; reflexivity |].
  apply (chunk_spans_ordered (lit "doc") (lit "alpha beta gamma")
           [lit "alpha beta"; lit "beta gamma"]).
Defined.

(** ** Processing status and deletion *)

Section StatusFacts.

Import DocumentService RagService DocumentStatus.

Lemma completed_is_not_failed : lit "failed" <> lit "completed".
Proof. discriminate. Qed.

End StatusFacts.

(** X12: when the background task leaves the status "completed" for an
    upload, the store holds the document under the id of the upload (not
    the id [process_file] generated), with as many rows as the status
    reports chunks, and each of these rows has metadata naming that id. *)
Theorem completed_status_matches_store :
  forall (env : RagService.Env)
         (processed : result DocumentService.ProcessedDocument) (now : str)
         (processing_status : gmap str DocumentStatus.StatusInfo)
         (st : RagService.State) (document_id : str)
         (info : DocumentStatus.StatusInfo),
    RagService.row_per_text env ->
    (snd (DocumentStatus.process_document_background env processed now
            processing_status st document_id)).1 !! document_id = Some info ->
    DocumentStatus.info_status info = lit "completed" ->
    is_Some (processing_status !! document_id) ->
    let st' :=
      (snd (DocumentStatus.process_document_background env processed now
              processing_status st document_id)).2 in
    exists rows,
      RagService.document_chunks st' !! document_id = Some rows /\
      DocumentStatus.info_chunk_count info = Some (len rows) /\
      (forall idx,
          idx ∈ rows ->
          exists meta,
            RagService.chunk_metadata st' !! idx = Some meta /\
            RagService.meta_document_id meta = document_id).
Proof.
  intros env processed now ps st id info Hc Hinfo Hstatus [old Hold] st'.
  subst st'. revert Hinfo.
  unfold DocumentStatus.process_document_background. rewrite Hold.
  destruct processed as [doc | e]; simpl.
  2: { rewrite lookup_insert_eq. intros [= <-]. simpl in Hstatus.
       by apply completed_is_not_failed in Hstatus. }
  pose proof (add_document_state env st (DocumentStatus.with_id doc id) 50 Hc)
    as Hadd.
  destruct (RagService.add_document env st (DocumentStatus.with_id doc id) 50)
    as [[r | e] st1]; simpl in *.
  2: { rewrite lookup_insert_eq. intros [= <-]. simpl in Hstatus.
       by apply completed_is_not_failed in Hstatus. }
  rewrite lookup_insert_eq. intros [= <-]. simpl.
  destruct Hadd as [[[e He] _] | (_ & Hm & Hd & _)]; [done |].
  rewrite (assigned_rows_positive st _ 50) in Hm, Hd by lia. simpl in Hm, Hd.
  exists (range (RagService.ntotal st)
            (RagService.ntotal st + len (DocumentService.doc_chunks doc))).
  split; [by rewrite Hd, lookup_insert_eq |].
  split.
  { unfold range, len. rewrite length_seqZ. do 2 f_equal. lia. }
  intros idx Hin. unfold range in Hin. apply elem_of_seqZ in Hin.
  set (k := Z.to_nat (idx - RagService.ntotal st)).
  assert (Hk : (k < length (DocumentService.doc_chunks doc))%nat)
    by (unfold len in Hin; lia).
  destruct (lookup_lt_is_Some_2 _ _ Hk) as [chunk Hchunk].
  exists (RagService.meta_of_chunk env (DocumentStatus.with_id doc id) chunk).
  split; [| done].
  rewrite Hm. eapply store_metadata_lookup;
    [apply NoDup_seqZ | exact Hchunk |].
  unfold range. apply lookup_seqZ. unfold len in *. lia.
Qed.

(** [doc_b] processed for the upload id "doc_upload_1" on the store of
    two documents: the status is completed with one chunk, and row 4 is
    registered under the upload id. *)
Lemma completed_status_matches_store_witness :
  let ps :=
    {[ lit "doc_upload_1"
       := DocumentStatus.initial_status (lit "b.txt") (lit "2024-01-01") ]} in
  let out :=
    DocumentStatus.process_document_background Fixtures.env0
      (Ok Fixtures.doc_b) (lit "2024-01-02") ps Fixtures.two_docs
      (lit "doc_upload_1") in
  exists rows,
    RagService.document_chunks (snd out).2 !! lit "doc_upload_1" = Some rows /\
    len rows = 1.
Proof.
  intros ps out.
  assert (Hinfo : exists info,
             (snd out).1 !! lit "doc_upload_1" = Some info /\
             DocumentStatus.info_status info = lit "completed" /\
             DocumentStatus.info_chunk_count info = Some 1)
    by (vm_compute; eexists; repeat split; reflexivity).
  destruct Hinfo as (info & Hinfo & Hstatus & Hcount).
  destruct (completed_status_matches_store Fixtures.env0 (Ok Fixtures.doc_b)
              (lit "2024-01-02") ps Fixtures.two_docs (lit "doc_upload_1")
              info (rag_env_row_per_text _ _) Hinfo Hstatus
              ltac:(vm_compute; eauto))
    as (rows & Hrows & Hlen & _).
  exists rows. split; [exact Hrows |]. congruence.
Defined.

Lemma delete_endpoint_Response env ps st id response :
  fst (DocumentStatus.delete_document env ps st id) = Deps.Response response ->
  exists info rows,
    ps !! id = Some info /\
    RagService.document_chunks st !! id = Some rows /\
    DocumentStatus.delete_document env ps st id
    = (Deps.Response
         {| DocumentStatus.deleted_document_id := id;
            DocumentStatus.chunks_deleted :=
              default 0 (DocumentStatus.info_chunk_count info) |},
       (delete id ps,
        {| RagService.index := RagService.index st;
           RagService.chunk_metadata :=
             RagService.pop_all rows (RagService.chunk_metadata st);
           RagService.document_chunks :=
             delete id (RagService.document_chunks st) |})).
Proof.
  unfold DocumentStatus.delete_document.
  destruct (ps !! id) as [info |] eqn:Hps; [| done].
  destruct (RagService.document_chunks st !! id) as [rows |] eqn:Hid.
  2: { unfold RagService.delete_document. by rewrite Hid. }
  pose proof (delete_document_known env st id rows Hid) as Hst.
  destruct (RagService.delete_document env st id) as [[[] | e] st'];
    try done.
  intros _. exists info, rows. cbn [snd] in Hst. by subst st'.
Qed.

(** X13: when the delete endpoint succeeds, the document is gone from the
    status dictionary and from the store, its rows have no metadata left,
    the response reports the chunk count the status held (0 if none), and
    the same request made again is answered with 404. *)
Theorem delete_endpoint_removes_document :
  forall (env env' : RagService.Env)
         (processing_status : gmap str DocumentStatus.StatusInfo)
         (st : RagService.State) (document_id : str)
         (response : DocumentStatus.DeletionResponse),
    fst (DocumentStatus.delete_document env processing_status st document_id)
    = Deps.Response response ->
    let after :=
      snd (DocumentStatus.delete_document env processing_status st
             document_id) in
    (exists info rows,
        processing_status !! document_id = Some info /\
        RagService.document_chunks st !! document_id = Some rows /\
        DocumentStatus.chunks_deleted response
        = default 0 (DocumentStatus.info_chunk_count info) /\
        forall idx, idx ∈ rows ->
                    RagService.chunk_metadata after.2 !! idx = None) /\
    after.1 !! document_id = None /\
    RagService.document_chunks after.2 !! document_id = None /\
    DocumentStatus.delete_document env' after.1 after.2 document_id
    = (Deps.HTTPError (DocumentStatus.document_not_found document_id), after).
Proof.
  intros env env' ps st id response Hok after. subst after.
  destruct (delete_endpoint_Response env ps st id response Hok)
    as (info & rows & Hps & Hid & Heq).
  rewrite Heq in Hok |- *. cbn [fst snd] in *.
  injection Hok as <-. cbn [DocumentStatus.chunks_deleted].
  split; [| split; [apply lookup_delete_eq | split; [apply lookup_delete_eq |]]].
  - exists info, rows. repeat split; try done.
    intros idx Hin. cbn [RagService.chunk_metadata].
    by rewrite pop_all_lookup, decide_True.
  - unfold DocumentStatus.delete_document. by rewrite lookup_delete_eq.
Qed.

Lemma delete_endpoint_removes_document_witness :
  let ps :=
    {[ lit "doc-a"
       := DocumentStatus.step_completed (lit "2024-01-02") 3
            (DocumentStatus.initial_status (lit "a.txt") (lit "2024-01-01")) ]} in
  let out :=
    DocumentStatus.delete_document Fixtures.env0 ps Fixtures.two_docs
      (lit "doc-a") in
  fst out
  = Deps.Response {| DocumentStatus.deleted_document_id := lit "doc-a";
                     DocumentStatus.chunks_deleted := 3 |} /\
  (snd out).1 !! lit "doc-a" = None /\
  RagService.document_chunks (snd out).2 !! lit "doc-a" = None.
Proof.
  intros ps out.
  assert (Hok : fst out
                = Deps.Response
                    {| DocumentStatus.deleted_document_id := lit "doc-a";
                       DocumentStatus.chunks_deleted := 3 |})
    by (vm_compute; reflexivity).
  split; [exact Hok |].
  destruct (delete_endpoint_removes_document Fixtures.env0 Fixtures.env0 ps
              Fixtures.two_docs (lit "doc-a") _ Hok) as (_ & Hps & Hst & _).
  split; [exact Hps | exact Hst].
Defined.

(** X14: an upload that is listed in the status dictionary but has no
    entry in the store cannot be removed through the delete endpoint: the
    request is answered with 404 and changes nothing. This is the state
    the background task leaves when [process_file] fails: the status
    becomes "failed" with the error message, and stays. *)
Theorem failed_upload_stays_listed :
  forall (env env' : RagService.Env) (e : exn) (now : str)
         (processing_status : gmap str DocumentStatus.StatusInfo)
         (st : RagService.State) (document_id : str)
         (info : DocumentStatus.StatusInfo),
    processing_status !! document_id = Some info ->
    RagService.document_chunks st !! document_id = None ->
    DocumentStatus.delete_document env' processing_status st document_id
    = (Deps.HTTPError (DocumentStatus.not_in_vector_store document_id),
       (processing_status, st)) /\
    let out :=
      DocumentStatus.process_document_background env (Raise e) now
        processing_status st document_id in
    (exists info',
        (snd out).1 !! document_id = Some info' /\
        DocumentStatus.info_status info' = lit "failed" /\
        DocumentStatus.info_error_message info' = Some (exn_message e)) /\
    (snd out).2 = st /\
    DocumentStatus.delete_document env' (snd out).1 (snd out).2 document_id
    = (Deps.HTTPError (DocumentStatus.not_in_vector_store document_id),
       snd out).
Proof.
  intros env env' e now ps st id info Hps Hst.
  assert (Hdel : forall ps' info',
             ps' !! id = Some info' ->
             DocumentStatus.delete_document env' ps' st id
             = (Deps.HTTPError (DocumentStatus.not_in_vector_store id),
                (ps', st))).
  { intros ps' info' H. unfold DocumentStatus.delete_document.
    rewrite H. unfold RagService.delete_document. by rewrite Hst. }
  split; [by eapply Hdel |].
  cbv zeta. unfold DocumentStatus.process_document_background.
  rewrite Hps. simpl.
  split; [| split; [done |]].
  - eexists. rewrite lookup_insert_eq. split; [done |]. by split.
  - erewrite Hdel; [done |]. apply lookup_insert_eq.
Qed.

Lemma failed_upload_stays_listed_witness :
  let ps :=
    {[ lit "doc_upload_1"
       := DocumentStatus.initial_status (lit "b.pdf") (lit "2024-01-01") ]} in
  let out :=
    DocumentStatus.process_document_background Fixtures.env0
      (Raise (Exn DocumentProcessingError
                (lit "No text content extracted from PDF")))
      (lit "2024-01-02") ps Fixtures.two_docs (lit "doc_upload_1") in
  fst (DocumentStatus.delete_document Fixtures.env0 (snd out).1 (snd out).2
         (lit "doc_upload_1"))
  = Deps.HTTPError (DocumentStatus.not_in_vector_store (lit "doc_upload_1")).
Proof.
  intros ps out.
  destruct (failed_upload_stays_listed Fixtures.env0 Fixtures.env0
              (Exn DocumentProcessingError
                 (lit "No text content extracted from PDF"))
              (lit "2024-01-02") ps Fixtures.two_docs (lit "doc_upload_1")
              (DocumentStatus.initial_status (lit "b.pdf") (lit "2024-01-01"))
              ltac:(vm_compute; reflexivity) ltac:(vm_compute; reflexivity))
    as (_ & _ & _ & Hdel).
  fold ps in Hdel. fold out in Hdel. by rewrite Hdel.
Defined.

(** ** The per-minute middleware *)

Section MiddlewareFacts.

Import Middleware.

Lemma sum_from (l : list Z) (a : Z) : fold_left Z.add l a = a + sum l.
Proof.
  unfold sum. revert a. induction l as [|x l IH]; intros a; simpl; [lia |].
  rewrite (IH (a + x)), (IH (0 + x)). lia.
Qed.

Lemma sum_cons (x : Z) (l : list Z) : sum (x :: l) = x + sum l.
Proof. unfold sum at 1. simpl. by rewrite sum_from. Qed.

Lemma sum_Permutation (l l' : list Z) : l ≡ₚ l' -> sum l = sum l'.
Proof.
  induction 1 as [| x l l' _ IH | x y l | l l' l'' _ IH1 _ IH2];
    rewrite ?sum_cons; [done | lia | lia | congruence].
Qed.

(** A dictionary has one count per key: the sum over the items of one
    key is the count stored under it. *)
Lemma current_requests_lookup (m : gmap (str * Z) Z) ip w :
  current_requests m ip w = default 0 (m !! (ip, w)).
Proof.
  unfold current_requests.
  induction m as [| [ip' w'] x m Hnone _ IH] using map_first_key_ind.
  - by rewrite map_to_list_empty.
  - rewrite (sum_Permutation _ _
               (omap_Permutation _ _ _ (map_to_list_insert m _ x Hnone))).
    cbn [omap list_omap]. case_bool_decide as Hk.
    + destruct Hk as [-> ->]. rewrite sum_cons, IH, Hnone, lookup_insert_eq.
      simpl. lia.
    + rewrite IH, lookup_insert_ne; [done |]. intros [= -> ->]. by apply Hk.
Qed.

Lemma minute_window_mono (t1 t2 : Q) :
  (t1 <= t2)%Q -> minute_window t1 <= minute_window t2.
Proof.
  intros H. unfold minute_window. apply Qfloor_resp_le.
  unfold Qdiv. apply Qmult_le_compat_r; [done | discriminate].
Qed.

Lemma clean_old_entries_lookup (m : gmap (str * Z) Z) ip w now :
  now <= w -> clean_old_entries m now !! (ip, w) = m !! (ip, w).
Proof.
  intros H. unfold clean_old_entries.
  destruct (m !! (ip, w)) as [x |] eqn:Hm.
  - apply map_lookup_filter_Some. split; [done | simpl; lia].
  - apply map_lookup_filter_None. left. done.
Qed.

Lemma forwarded_count_snoc (log : list entry) (e : entry) ip w :
  forwarded_count (log ++ [e]) ip w
  = forwarded_count log ip w + (if forwarded ip w e then 1 else 0).
Proof.
  unfold forwarded_count, len. rewrite List.filter_app, length_app. simpl.
  destruct (forwarded ip w e); simpl; lia.
Qed.

(** What the dictionary and the log have in common while requests are
    dispatched: from the current minute on, the dictionary holds the
    number of requests handed on, and no such number exceeds the limit. *)
Lemma serve_bounded (self : RateLimitingMiddleware)
    (requests : list (Request * Q)) :
  forall (m : gmap (str * Z) Z) (past : list entry) (now : Q),
    (forall ip w,
        minute_window now <= w ->
        default 0 (m !! (ip, w)) = forwarded_count past ip w) ->
    (forall ip w,
        forwarded_count past ip w <= Z.max 0 (requests_per_minute self)) ->
    Forall (fun r => (now <= snd r)%Q) requests ->
    clock_monotone requests ->
    (forall ip w,
        forwarded_count (past ++ serve self m requests) ip w
        <= Z.max 0 (requests_per_minute self)) /\
    (forall before e after response,
        serve self m requests = before ++ e :: after ->
        entry_outcome e = Return response ->
        response = rate_limit_exceeded self
                     (forwarded_count (past ++ before)
                        (client_ip (entry_request e))
                        (minute_window (entry_time e))) /\
        requests_per_minute self
        <= forwarded_count (past ++ before)
             (client_ip (entry_request e))
             (minute_window (entry_time e))).
Proof.
  induction requests as [|[request t] requests IH];
    intros m past now Hm Hbound Hnow Hmono.
  { simpl. rewrite app_nil_r. split; [done |]. by intros []. }
  apply Forall_cons in Hnow as [Ht _]. simpl in Ht.
  apply StronglySorted_inv in Hmono as [Hmono Hlater].
  pose proof (minute_window_mono now t Ht) as Hw.
  cbn [serve].
  set (out := dispatch self m request t).
  set (e := {| entry_request := request; entry_time := t;
               entry_outcome := fst out |}).
  assert (Hcur :
            current_requests (clean_old_entries m (minute_window t))
              (client_ip request) (minute_window t)
            = forwarded_count past (client_ip request) (minute_window t)).
  { rewrite current_requests_lookup, clean_old_entries_lookup by lia.
    by apply Hm. }
  assert (Hstep :
            (forall ip w,
                minute_window t <= w ->
                default 0 (snd out !! (ip, w))
                = forwarded_count (past ++ [e]) ip w) /\
            (forall ip w,
                forwarded_count (past ++ [e]) ip w
                <= Z.max 0 (requests_per_minute self)) /\
            (forall response,
                fst out = Return response ->
                response = rate_limit_exceeded self
                             (forwarded_count past (client_ip request)
                                (minute_window t)) /\
                requests_per_minute self
                <= forwarded_count past (client_ip request)
                     (minute_window t))).
  { subst e out. unfold dispatch.
    destruct (is_health request) eqn:Hhealth.
    { cbn [fst snd]. repeat split; try done.
      - intros ip w Hle. rewrite forwarded_count_snoc. unfold forwarded.
        cbn [entry_outcome entry_request]. rewrite Hhealth. simpl.
        rewrite Hm by lia. lia.
      - intros ip w. rewrite forwarded_count_snoc. unfold forwarded.
        cbn [entry_outcome entry_request]. rewrite Hhealth. simpl.
        specialize (Hbound ip w). lia. }
    cbv zeta. rewrite Hcur.
    destruct (Z.geb_spec
                (forwarded_count past (client_ip request) (minute_window t))
                (requests_per_minute self)) as [Hge | Hlt].
    { cbn [fst snd]. repeat split.
      - intros ip w Hle. rewrite forwarded_count_snoc. unfold forwarded.
        cbn [entry_outcome]. rewrite clean_old_entries_lookup by lia.
        rewrite Hm by lia. lia.
      - intros ip w. rewrite forwarded_count_snoc. unfold forwarded.
        cbn [entry_outcome]. specialize (Hbound ip w). lia.
      - congruence.
      - lia. }
    cbn [fst snd]. repeat split; try done.
    - intros ip w Hle. rewrite forwarded_count_snoc. unfold forwarded.
      cbn [entry_outcome entry_request entry_time]. rewrite Hhealth.
      cbn [negb andb].
      destruct (decide ((client_ip request, minute_window t) = (ip, w)))
        as [[= <- <-] | Hne].
      + rewrite lookup_insert_eq, !bool_decide_eq_true_2 by done.
        cbn [default]. rewrite clean_old_entries_lookup by lia.
        rewrite Hm by lia. simpl. lia.
      + rewrite lookup_insert_ne by done.
        rewrite clean_old_entries_lookup by lia. rewrite Hm by lia.
        do 2 case_bool_decide; simpl; try lia. by subst.
    - intros ip w. rewrite forwarded_count_snoc. unfold forwarded.
      cbn [entry_outcome entry_request entry_time]. rewrite Hhealth.
      cbn [negb andb]. specialize (Hbound ip w).
      do 2 case_bool_decide; simpl; try lia. subst. lia. }
  destruct Hstep as (Hm' & Hbound' & Hout).
  destruct (IH (snd out) (past ++ [e]) t Hm' Hbound' Hlater Hmono)
    as [Hall Hrej].
  rewrite <- app_assoc in Hall. split; [exact Hall |].
  intros before e' after response Hlog Hret.
  destruct before as [| e0 before].
  - injection Hlog as <- _. rewrite app_nil_r.
    apply Hout. exact Hret.
  - injection Hlog as <- Hlog.
    specialize (Hrej before e' after response Hlog Hret).
    by rewrite <- app_assoc in Hrej.
Qed.

End MiddlewareFacts.

(** X15: a middleware that starts with an empty dictionary and sees
    requests whose clock does not run backwards hands on, for each client
    address and each clock minute, at most [requests_per_minute] requests
    outside the health paths; and each 429 answer reports as
    [current_requests] exactly the number of requests of that client
    handed on earlier in the same minute, which has reached the limit. *)
Theorem middleware_minute_bound :
  forall (self : Middleware.RateLimitingMiddleware)
         (requests : list (Middleware.Request * Q)),
    Middleware.clock_monotone requests ->
    let log := Middleware.serve self ∅ requests in
    (forall ip w,
        Middleware.forwarded_count log ip w
        <= Z.max 0 (Middleware.requests_per_minute self)) /\
    (forall before e after response,
        log = before ++ e :: after ->
        Middleware.entry_outcome e = Middleware.Return response ->
        let n :=
          Middleware.forwarded_count before
            (Middleware.client_ip (Middleware.entry_request e))
            (Middleware.minute_window (Middleware.entry_time e)) in
        response = Middleware.rate_limit_exceeded self n /\
        Middleware.requests_per_minute self <= n).
Proof.
  intros self requests Hmono log. subst log.
  destruct requests as [|[request t0] requests].
  { split; [intros; unfold Middleware.forwarded_count, len; simpl; lia |].
    by intros []. }
  apply (serve_bounded self ((request, t0) :: requests) ∅ [] t0).
  - intros ip w _. by rewrite lookup_empty.
  - intros ip w. unfold Middleware.forwarded_count, len. simpl. lia.
  - constructor; [simpl; lra |].
    apply StronglySorted_inv in Hmono as [_ Hlater]. exact Hlater.
  - exact Hmono.
Qed.

(** Two requests per minute: of the client 10.0.0.1 the requests at
    seconds 0 and 2 are handed on and the one at second 3 is refused, the
    health request at second 1 is not counted, the other client and the
    next minute are not affected. *)
Lemma middleware_minute_bound_witness :
  List.map Middleware.entry_outcome
    (Middleware.serve Fixtures3.two_per_minute ∅ Fixtures3.traffic)
  = [Middleware.CallNext; Middleware.CallNext; Middleware.CallNext;
     Middleware.Return
       (Middleware.rate_limit_exceeded Fixtures3.two_per_minute 2);
     Middleware.CallNext; Middleware.CallNext] /\
  Middleware.forwarded_count
    (Middleware.serve Fixtures3.two_per_minute ∅ Fixtures3.traffic)
    (lit "10.0.0.1") 0
  <= 2.
Proof.
  split; [vm_compute; reflexivity |].
  apply (middleware_minute_bound Fixtures3.two_per_minute Fixtures3.traffic).
  repeat constructor; vm_compute; discriminate.
Defined.

(** ** The HackRx endpoint *)

Lemma clean_nonempty (answer_text : str) :
  UrlDocumentService.clean answer_text <> [].
Proof.
  unfold UrlDocumentService.clean.
  destruct (strip (utf8_ignore_roundtrip answer_text)); [discriminate | done].
Qed.

Lemma answer_slot_nonempty uenv st (question : str) :
  UrlDocumentService.answer_slot uenv st question <> [].
Proof.
  unfold UrlDocumentService.answer_slot.
  destruct (RagService.answer_question _ _ _ _ _) as [a | e];
    [apply clean_nonempty | discriminate].
Qed.

(** X16: the HackRx endpoint either answers with exactly one non-empty
    string per question, in order, or fails with status 422 and a detail
    that starts with "Document processing failed: Failed to process
    document: "; no failure of the download, of the processing, of the
    store or of a question makes it answer 500. *)
Theorem hackrx_run_outcomes :
  forall (uenv : UrlDocumentService.UrlEnv) (st : RagService.State)
         (request : HackRx.HackRxRequest),
    match fst (HackRx.hackrx_run uenv st request) with
    | Deps.Response response =>
        len (HackRx.answers response) = len (HackRx.questions request) /\
        Forall (fun a => a <> []) (HackRx.answers response)
    | Deps.HTTPError e =>
        Deps.status_code e = 422 /\
        exists message,
          Deps.detail e
          = lit "Document processing failed: Failed to process document: "
            ++ message
    end.
Proof.
  intros uenv st request. unfold HackRx.hackrx_run.
  unfold UrlDocumentService.process_and_answer_questions.
  destruct (UrlDocumentService.download_document uenv _)
    as [[[temp_path content_type] file_size] | e].
  2: { split; [reflexivity | exists (exn_message e); reflexivity]. }
  destruct (file_size >? _).
  { split; [reflexivity | eexists; reflexivity]. }
  destruct (UrlDocumentService.process_file uenv temp_path) as [doc | e].
  2: { split; [reflexivity | exists (exn_message e); reflexivity]. }
  destruct (RagService.add_document _ st doc 50) as [[r | e] st'].
  2: { split; [reflexivity | exists (exn_message e); reflexivity]. }
  cbn [fst HackRx.answers]. rewrite answer_loop_spec. cbn [app]. split.
  - unfold len. by rewrite length_fmap.
  - apply Forall_fmap, Forall_forall. intros q _.
    apply answer_slot_nonempty.
Qed.

(** ** Listing the documents *)

Section ListingFacts.

Import Deps DocumentStatus DocumentList.

Variable timestamp_of : str -> result Q.

Lemma slice_take_drop {A} (l : list A) (a n : Z) :
  0 <= a -> 0 <= n ->
  slice l a (a + n) = take (Z.to_nat n) (drop (Z.to_nat a) l).
Proof.
  intros Ha Hn. unfold slice, norm_index, len.
  destruct (Z.ltb_spec a 0); [lia |].
  destruct (Z.ltb_spec (a + n) 0); [lia |].
  destruct (Z_le_gt_dec (Z.of_nat (length l)) a) as [Hout | Hin].
  - rewrite !drop_ge by lia. by rewrite !take_nil.
  - replace (Z.to_nat (Z.min a (Z.of_nat (length l)))) with (Z.to_nat a)
      by lia.
    destruct (Z_le_gt_dec (a + n) (Z.of_nat (length l))) as [Hfit | Hover].
    + f_equal. lia.
    + rewrite !take_ge; [done | |]; rewrite length_drop; lia.
Qed.

Lemma doc_responses_spec (paginated_docs : list (str * StatusInfo)) :
  forall documents,
    Forall (fun item => is_ok (timestamp_of (info_started_at item.2)) = true)
      paginated_docs ->
    exists new,
      doc_responses timestamp_of paginated_docs documents
      = Ok (documents ++ new) /\
      Forall2 shows paginated_docs new.
Proof.
  induction paginated_docs as [|[doc_id info] rest IH];
    intros documents Hok.
  { exists []. by rewrite app_nil_r. }
  apply Forall_cons in Hok as [Hts Hok]. cbn [doc_responses doc_response].
  simpl in Hts. destruct (timestamp_of (info_started_at info)) as [ts | e];
    [| done].
  destruct (IH (documents ++ [ {|
              response_id := doc_id;
              response_filename := info_filename info;
              response_size := 0;
              response_content_type := lit "application/octet-stream";
              response_upload_timestamp := ts;
              response_processing_status := info_status info;
              response_chunk_count := info_chunk_count info;
              response_error_message := info_error_message info |} ]) Hok)
    as (new & -> & Hnew).
  eexists (_ :: new). rewrite <- app_assoc. split; [done |].
  constructor; [done | exact Hnew].
Qed.

Lemma list_documents_page (all_docs : list (str * StatusInfo))
    (limit offset : Z) :
  1 <= limit <= 100 -> 0 <= offset ->
  Forall (fun item => is_ok (timestamp_of (info_started_at item.2)) = true)
    all_docs ->
  exists r,
    list_documents timestamp_of all_docs limit offset = Response r /\
    Forall2 shows
      (take (Z.to_nat limit) (drop (Z.to_nat offset) all_docs))
      (documents r) /\
    total_count r = len all_docs.
Proof.
  intros Hlimit Hoffset Hok. unfold list_documents, validate_pagination.
  destruct (Z.leb_spec limit 0); [lia |].
  destruct (Z.gtb_spec limit 100); [lia |].
  destruct (Z.ltb_spec offset 0); [lia |]. cbn [orb].
  rewrite slice_take_drop by lia.
  destruct (doc_responses_spec
              (take (Z.to_nat limit) (drop (Z.to_nat offset) all_docs)) [])
    as (new & -> & Hnew); [by apply Forall_take, Forall_drop |].
  eexists. split; [done |]. by split.
Qed.

End ListingFacts.

(** X17: with a limit between 1 and 100 and parseable start times, the
    pages of [list_documents] at the offsets 0, limit, 2 limit, ... cut the
    registered documents into consecutive runs: the page at a non-negative
    offset shows exactly the documents at the positions offset, ...,
    offset + limit - 1 that exist, in order, and so the document at
    position [i] is entry [i mod limit] of the page at offset
    [limit * (i / limit)]; every page reports the number of all
    documents. *)
Theorem list_documents_pages :
  forall (timestamp_of : str -> result Q)
         (all_docs : list (str * DocumentStatus.StatusInfo)) (limit : Z),
    1 <= limit <= 100 ->
    Forall (fun item =>
              is_ok (timestamp_of (DocumentStatus.info_started_at item.2))
              = true) all_docs ->
    (forall offset,
        0 <= offset ->
        exists r,
          DocumentList.list_documents timestamp_of all_docs limit offset
          = Deps.Response r /\
          DocumentList.response_id <$> DocumentList.documents r
          = take (Z.to_nat limit) (drop (Z.to_nat offset) (all_docs.*1)) /\
          DocumentList.total_count r = len all_docs) /\
    (forall (i : nat) item,
        all_docs !! i = Some item ->
        exists r d,
          DocumentList.list_documents timestamp_of all_docs limit
            (limit * (Z.of_nat i / limit))
          = Deps.Response r /\
          DocumentList.documents r !! Z.to_nat (Z.of_nat i mod limit)
          = Some d /\
          DocumentList.response_id d = item.1 /\
          DocumentList.response_processing_status d
          = DocumentStatus.info_status item.2).
Proof.
  intros timestamp_of all_docs limit Hlimit Hok. split.
  - intros offset Hoffset.
    destruct (list_documents_page timestamp_of all_docs limit offset
                Hlimit Hoffset Hok) as (r & Hr & Hshows & Htotal).
    exists r. split; [done |]. split; [| done].
    rewrite <- fmap_drop, <- fmap_take.
    clear Hr Htotal. induction Hshows as [| item d l k [Hid _] _ IH];
      [done |]. cbn [fmap list_fmap]. by rewrite Hid, <- IH.
  - intros i item Hi.
    assert (Hq : 0 <= Z.of_nat i / limit) by (apply Z.div_pos; lia).
    pose proof (Z.mod_pos_bound (Z.of_nat i) limit ltac:(lia)) as Hmod.
    pose proof (Z.div_mod (Z.of_nat i) limit ltac:(lia)) as Hdiv.
    destruct (list_documents_page timestamp_of all_docs limit
                (limit * (Z.of_nat i / limit)) Hlimit ltac:(lia) Hok)
      as (r & Hr & Hshows & _).
    assert (Hitem :
              take (Z.to_nat limit)
                (drop (Z.to_nat (limit * (Z.of_nat i / limit))) all_docs)
              !! Z.to_nat (Z.of_nat i mod limit) = Some item).
    { rewrite lookup_take_lt by lia. rewrite lookup_drop.
      rewrite <- Hi. f_equal. lia. }
    destruct (Forall2_lookup_l _ _ _ _ _ Hshows Hitem)
      as (d & Hd & Hid & _ & Hstatus & _).
    by exists r, d.
Qed.

(** Five documents, two per page: the document at position 3 ("d3") is
    entry 1 of the page at offset 2, and the page at offset 4 shows "d4"
    alone. *)
Lemma list_documents_pages_witness :
  (exists r,
      DocumentList.list_documents Fixtures4.epoch Fixtures4.five_docs 2 4
      = Deps.Response r /\
      DocumentList.response_id <$> DocumentList.documents r = [lit "d4"] /\
      DocumentList.total_count r = 5) /\
  (exists r d,
      DocumentList.list_documents Fixtures4.epoch Fixtures4.five_docs 2 2
      = Deps.Response r /\
      DocumentList.documents r !! 1%nat = Some d /\
      DocumentList.response_id d = lit "d3").
Proof.
  assert (Hok : Forall
                  (fun item =>
                     is_ok (Fixtures4.epoch
                              (DocumentStatus.info_started_at item.2)) = true)
                  Fixtures4.five_docs)
    by (repeat constructor).
  destruct (list_documents_pages Fixtures4.epoch Fixtures4.five_docs 2
              ltac:(lia) Hok) as [Hpage Hpos].
  split.
  - destruct (Hpage 4 ltac:(lia)) as (r & Hr & Hids & Htotal).
    exists r. split; [exact Hr |]. split; [exact Hids | exact Htotal].
  - destruct (Hpos 3%nat (Fixtures4.registered "d3" "d.md") eq_refl)
      as (r & d & Hr & Hd & Hid & _).
    exists r, d. split; [exact Hr |]. split; [exact Hd | exact Hid].
Defined.
